(** * word_to_latex.py: the text pipeline of the Word-to-LaTeX converter

    A shallow embedding of [scripts/word_to_latex.py]: the text normalizer
    ([fix_special_characters]), the acronym folder ([replace_acronyms]), the
    heading reconstructor ([fix_headings]), the chapter splitter
    ([split_into_chapters]) and the file writer ([create_chapter_file],
    [process_and_save]).

    Python's [str] is a sequence of Unicode code points: a text is a
    [list N].  The script is written against Python's [re] module, so the
    development starts with a backtracking matcher for the part of the
    pattern language the script uses, with [re.sub], [re.search],
    [re.match] and [re.finditer] on top of it. *)

From Stdlib Require Import NArith List String Ascii Bool Lia DecimalString.
From stdpp Require Import base option list strings gmap.

Open Scope N_scope.
Open Scope list_scope.

(** ** Texts *)

(** A Python [str]. *)
Abbreviation str := (list N).

(** An ASCII literal as a text.  Rocq's string literals have no escapes: a
    backslash stands for itself.  Double quotes, newlines and the four
    non-ASCII symbols the script names are written by code point. *)
Definition text (s : string) : str :=
  map N_of_ascii (list_ascii_of_string s).

Definition LF : N := 10.
Definition BACKSLASH : N := 92.
Definition DQUOTE : N := 34.
Definition DEGREE : N := 176.      (* U+00B0 *)
Definition TIMES : N := 215.       (* U+00D7 *)
Definition EN_DASH : N := 8211.    (* U+2013 *)
Definition EM_DASH : N := 8212.    (* U+2014 *)

Fixpoint mem (c : N) (l : list N) : bool :=
  match l with
  | [] => false
  | x :: l' => (c =? x) || mem c l'
  end.

Definition between (lo hi c : N) : bool := (lo <=? c) && (c <=? hi).

(** ** Character tables

    [re] classifies code points with the Unicode database of the running
    interpreter.  The ASCII rows are fixed and written out; the rows of the
    other code points are the three tables below, which the script reads
    through [\d], [\b] and [str.lower]. *)

Record unicode_tables := {
  uni_decimal : N -> bool;   (* category Nd: what [\d] accepts *)
  uni_alnum : N -> bool;     (* [str.isalnum]: what [\w] and [\b] accept *)
  uni_lower : N -> list N;   (* [str.lower] of one code point *)
}.

(** Whitespace as [\s] and [str.strip] see it ([Py_UNICODE_ISSPACE]). *)
Definition is_space (c : N) : bool :=
  between 9 13 c || between 28 32 c || mem c [133; 160; 5760]
  || between 8192 8202 c || mem c [8232; 8233; 8239; 8287; 12288].

Definition is_ascii_upper (c : N) : bool := between 65 90 c.
Definition is_ascii_lower (c : N) : bool := between 97 122 c.
Definition is_ascii_letter (c : N) : bool := is_ascii_upper c || is_ascii_lower c.
Definition is_ascii_digit (c : N) : bool := between 48 57 c.

(** The symbols the normalizer rewrites: degree sign (So), multiplication
    sign (Sm), en dash and em dash (Pd).  None is alphanumeric. *)
Definition is_symbol (c : N) : bool := mem c [DEGREE; TIMES; EN_DASH; EM_DASH].

(** The tables cut down to ASCII: no code point from 128 on is a digit or
    alphanumeric, and [str.lower] leaves it alone.  On ASCII texts no row
    of the tables is read, so this instance runs the script on them. *)
Definition ascii_tables : unicode_tables :=
  {| uni_decimal := fun _ => false;
     uni_alnum := fun _ => false;
     uni_lower := fun c => [c] |}.

Section WordToLatex.

Variable U : unicode_tables.

Definition is_digit (c : N) : bool :=
  if c <? 128 then is_ascii_digit c else uni_decimal U c.

Definition is_word (c : N) : bool :=
  if c <? 128 then is_ascii_letter c || is_ascii_digit c || (c =? 95)
  else negb (is_symbol c) && uni_alnum U c.

Definition lower_char (c : N) : list N :=
  if c <? 128 then [if is_ascii_upper c then c + 32 else c] else uni_lower U c.

(** [str.lower]. *)
Definition str_lower (s : str) : str := flat_map lower_char s.

(** ** Patterns *)

(** One item of a bracket class. *)
Inductive citem :=
| CChar (c : N)            (* a character *)
| CRange (lo hi : N)       (* lo-hi *)
| CSpace                   (* \s *)
| CDigit                   (* \d *)
| CWord.                   (* \w *)

(** What matches one character. *)
Inductive cset :=
| One (c : N)                              (* a literal character *)
| Class (neg : bool) (items : list citem)  (* [...] and [^...] *)
| Dot.                                     (* . : anything but a newline *)

Inductive regex :=
| Eps
| Chr (cs : cset)
| Seq (r1 r2 : regex)
| Alt (r1 r2 : regex)                 (* r1|r2, r1 tried first *)
| Star (cs : cset)                    (* cs*, greedy *)
| StarLazy (cs : cset)                (* cs*?  *)
| Group (n : nat) (r : regex)         (* the n-th capturing group *)
| Ahead (neg : bool) (r : regex)      (* (?=r) and (?!r) *)
| Behind (neg : bool) (l : list cset) (* (?<=...) and (?<!...), fixed width *)
| WordB                               (* \b *)
| Bol                                 (* ^ *)
| Eol.                                (* $ *)

(** cs+ and r? in the priority order of the backtracking matcher. *)
Definition Plus (cs : cset) : regex := Seq (Chr cs) (Star cs).
Definition Opt (r : regex) : regex := Alt r Eps.

(** A literal string; [re.escape s] is a pattern of this form. *)
Fixpoint Lit (s : str) : regex :=
  match s with
  | [] => Eps
  | c :: s' => Seq (Chr (One c)) (Lit s')
  end.

Fixpoint Concat (l : list regex) : regex :=
  match l with
  | [] => Eps
  | r :: l' => Seq r (Concat l')
  end.

Definition in_item (i : citem) (c : N) : bool :=
  match i with
  | CChar x => c =? x
  | CRange lo hi => between lo hi c
  | CSpace => is_space c
  | CDigit => is_digit c
  | CWord => is_word c
  end.

(** Case-insensitive comparison of the pattern character [p] with [c] under
    [re.IGNORECASE].  Every pattern the script compiles with the flag is
    ASCII; an ASCII letter then matches both of its cases and the four
    code points [re] adds: U+0130 and U+0131 for i, U+212A for k, U+017F
    for s. *)
Definition ascii_fold (c : N) : N := if is_ascii_upper c then c + 32 else c.

Definition ci_eq (p c : N) : bool :=
  (c =? p)
  || (is_ascii_letter p
      && ((ascii_fold c =? ascii_fold p) && (c <? 128)
          || (ascii_fold p =? 105) && mem c [304; 305]
          || (ascii_fold p =? 107) && (c =? 8490)
          || (ascii_fold p =? 115) && (c =? 383))).

(** [ic] is the IGNORECASE flag.  The classes the script compiles under the
    flag hold no cased character, so membership in a class is not folded. *)
Definition in_cset (ic : bool) (cs : cset) (c : N) : bool :=
  match cs with
  | One p => if ic then ci_eq p c else c =? p
  | Class neg items => xorb neg (existsb (fun i => in_item i c) items)
  | Dot => negb (c =? LF)
  end.

(** ** The matcher

    The subject is held as a zipper: [b] is the text before the current
    position, last character first, and [a] the text from the position on.
    [caps] are the groups captured so far, the latest first. *)

Definition caps := list (nat * str).
Definition mres : Type := str * str * caps.
Definition cont : Type := str -> str -> caps -> option mres.

Fixpoint star_greedy (p : N -> bool) (b a : str) (k : str -> str -> option mres)
  : option mres :=
  match a with
  | c :: a' =>
      if p c then
        match star_greedy p (c :: b) a' k with
        | Some r => Some r
        | None => k b a
        end
      else k b a
  | [] => k b a
  end.

Fixpoint star_lazy (p : N -> bool) (b a : str) (k : str -> str -> option mres)
  : option mres :=
  match k b a with
  | Some r => Some r
  | None =>
      match a with
      | c :: a' => if p c then star_lazy p (c :: b) a' k else None
      | [] => None
      end
  end.

(** The characters just before the position against [l], the nearest one
    against the last set of [l]. *)
Fixpoint behind_rev (ic : bool) (l : list cset) (b : str) : bool :=
  match l, b with
  | [], _ => true
  | cs :: l', c :: b' => in_cset ic cs c && behind_rev ic l' b'
  | _ :: _, [] => false
  end.

Definition word_before (b : str) : bool :=
  match b with c :: _ => is_word c | [] => false end.

Definition at_boundary (b a : str) : bool :=
  xorb (word_before b) (word_before a).

Definition accept : cont := fun b a g => Some (b, a, g).

Fixpoint rx (ic : bool) (r : regex) (b a : str) (g : caps) (k : cont)
  : option mres :=
  match r with
  | Eps => k b a g
  | Chr cs =>
      match a with
      | c :: a' => if in_cset ic cs c then k (c :: b) a' g else None
      | [] => None
      end
  | Seq r1 r2 => rx ic r1 b a g (fun b' a' g' => rx ic r2 b' a' g' k)
  | Alt r1 r2 =>
      match rx ic r1 b a g k with
      | Some res => Some res
      | None => rx ic r2 b a g k
      end
  | Star cs => star_greedy (in_cset ic cs) b a (fun b' a' => k b' a' g)
  | StarLazy cs => star_lazy (in_cset ic cs) b a (fun b' a' => k b' a' g)
  | Group n r1 =>
      rx ic r1 b a g
         (fun b' a' g' => k b' a' ((n, firstn (length a - length a') a) :: g'))
  | Ahead neg r1 =>
      if xorb neg (bool_decide (is_Some (rx ic r1 b a g accept)))
      then k b a g else None
  | Behind neg l =>
      if xorb neg (behind_rev ic (rev l) b) then k b a g else None
  | WordB => if at_boundary b a then k b a g else None
  | Bol => match b with [] => k b a g | _ => None end
  | Eol =>
      match a with
      | [] => k b a g
      | [c] => if c =? LF then k b a g else None
      | _ => None
      end
  end.

(** The match of [r] that starts at the position, if there is one. *)
Definition match_at (ic : bool) (r : regex) (b a : str) : option mres :=
  rx ic r b a [] accept.

(** [Match.group(n)]; a group that took no part in the match is empty. *)
Fixpoint group (n : nat) (g : caps) : str :=
  match g with
  | [] => []
  | (m, s) :: g' => if Nat.eqb m n then s else group n g'
  end.

(** ** Replacement templates

    [re.sub] reads its replacement as a template: a backslash followed by
    a backslash is one backslash, [\n] a newline, [\1] to [\9] a group.
    The script uses no other escape; an escape outside these is kept as
    written. *)
Fixpoint expand (t : str) (g : caps) : str :=
  match t with
  | [] => []
  | c :: t' =>
      if c =? BACKSLASH then
        match t' with
        | [] => [c]
        | e :: t'' =>
            if e =? BACKSLASH then BACKSLASH :: expand t'' g
            else if e =? 110 then LF :: expand t'' g
            else if between 49 57 e then group (N.to_nat (e - 48)) g ++ expand t'' g
            else c :: e :: expand t'' g
        end
      else c :: expand t' g
  end.

(** ** re.sub, re.search, re.match, re.finditer

    The scan goes left to right over the subject.  Where a match of [n]
    characters starts, the replacement is emitted and the next [n]
    characters are passed over ([skip]); elsewhere the character is copied.
    [limit] is the [count] argument: [None] replaces every match.  No
    pattern of the script matches the empty text; the scan steps over one
    character after such a match. *)

Definition dec_limit (limit : option nat) : option nat :=
  match limit with
  | Some n => Some (Nat.pred n)
  | None => None
  end.

Definition exhausted (limit : option nat) : bool :=
  match limit with
  | Some O => true
  | _ => false
  end.

Fixpoint sub_loop (ic : bool) (r : regex) (t : str) (limit : option nat)
    (skip : nat) (b a : str) {struct a} : str :=
  match skip with
  | S n =>
      match a with
      | c :: a' => sub_loop ic r t limit n (c :: b) a'
      | [] => []
      end
  | O =>
      if exhausted limit then a
      else
        match match_at ic r b a with
        | Some (_, a1, g) =>
            expand t g ++
            match a with
            | [] => []
            | c :: a' =>
                match (length a - length a1)%nat with
                | O => c :: sub_loop ic r t (dec_limit limit) O (c :: b) a'
                | S n => sub_loop ic r t (dec_limit limit) n (c :: b) a'
                end
            end
        | None =>
            match a with
            | [] => []
            | c :: a' => c :: sub_loop ic r t limit O (c :: b) a'
            end
        end
  end.

(** [re.sub(r, t, s)], [re.sub(r, t, s, flags=re.IGNORECASE)] and
    [re.sub(r, t, s, count=n)]. *)
Definition re_sub (ic : bool) (r : regex) (t : str) (s : str) : str :=
  sub_loop ic r t None 0 [] s.

Definition re_sub_count (n : nat) (r : regex) (t : str) (s : str) : str :=
  match n with
  | O => re_sub false r t s
  | S _ => sub_loop false r t (Some n) 0 [] s
  end.

Fixpoint search_loop (ic : bool) (r : regex) (b a : str) : option mres :=
  match match_at ic r b a with
  | Some res => Some res
  | None =>
      match a with
      | [] => None
      | c :: a' => search_loop ic r (c :: b) a'
      end
  end.

(** [re.search(r, s)]: the leftmost match. *)
Definition re_search (ic : bool) (r : regex) (s : str) : option mres :=
  search_loop ic r [] s.

(** [re.match(r, s)]: a match at the start of [s]. *)
Definition re_match (r : regex) (s : str) : option mres :=
  match_at false r [] s.

(** A match object as [re.finditer] yields it. *)
Record match_obj := {
  m_start : nat;
  m_end : nat;
  m_groups : caps;
}.

Fixpoint finditer_loop (r : regex) (skip : nat) (b a : str) {struct a}
  : list match_obj :=
  match skip with
  | S n =>
      match a with
      | c :: a' => finditer_loop r n (c :: b) a'
      | [] => []
      end
  | O =>
      match match_at false r b a with
      | Some (b1, a1, g) =>
          {| m_start := length b; m_end := length b1; m_groups := g |} ::
          match a with
          | [] => []
          | c :: a' => finditer_loop r (Nat.pred (length a - length a1)) (c :: b) a'
          end
      | None =>
          match a with
          | [] => []
          | c :: a' => finditer_loop r 0 (c :: b) a'
          end
      end
  end.

Definition re_finditer (r : regex) (s : str) : list match_obj :=
  finditer_loop r 0 [] s.

(** ** String methods *)

Fixpoint is_prefix (w s : str) : bool :=
  match w, s with
  | [], _ => true
  | x :: w', c :: s' => (x =? c) && is_prefix w' s'
  | _ :: _, [] => false
  end.

(** [w in s]. *)
Fixpoint contains (w s : str) : bool :=
  is_prefix w s || match s with [] => false | _ :: s' => contains w s' end.

(** [s.replace(old, new)] for a one-character [old]. *)
Definition replace_char (old : N) (new : str) (s : str) : str :=
  flat_map (fun c => if c =? old then new else [c]) s.

Fixpoint lstrip (s : str) : str :=
  match s with
  | c :: s' => if is_space c then lstrip s' else s
  | [] => []
  end.

Definition rstrip (s : str) : str := rev (lstrip (rev s)).

(** [s.strip()]. *)
Definition strip (s : str) : str := rstrip (lstrip s).

(** [s[i:j]] for [0 <= i <= j]. *)
Definition slice (i j : nat) (s : str) : str := firstn (j - i) (skipn i s).

(** [s.split('\n')]. *)
Fixpoint split_lines (s : str) : list str :=
  match s with
  | [] => [[]]
  | c :: s' =>
      if c =? LF then [] :: split_lines s'
      else
        match split_lines s' with
        | l :: ls => (c :: l) :: ls
        | [] => [[c]]
        end
  end.

(** ['\n'.join(ls)]. *)
Fixpoint join_lines (ls : list str) : str :=
  match ls with
  | [] => []
  | [l] => l
  | l :: ls' => l ++ LF :: join_lines ls'
  end.

Definition ends_with_char (c : N) (s : str) : bool :=
  match rev s with
  | x :: _ => x =? c
  | [] => false
  end.

(** [str(n)] for a non-negative [int]. *)
Definition str_of_nat (n : nat) : str :=
  text (NilEmpty.string_of_uint (Nat.to_uint n)).

(** ** fix_special_characters *)

Definition SPACES : cset := Class false [CSpace].

Definition tilde_command : regex := Seq (Lit (text "\textasciitilde")) (Star SPACES).
Definition tilde_digit : regex := Seq (Chr (One 126)) (Ahead false (Chr (Class false [CDigit]))).
Definition formula (s : string) : regex := Concat [WordB; Lit (text s); WordB].
Definition quoted_span : regex :=
  Concat [Chr (One DQUOTE); Group 1 (Star (Class true [CChar DQUOTE])); Chr (One DQUOTE)].
Definition bare_percent : regex := Seq (Behind true [One BACKSLASH]) (Chr (One 37)).
Definition bare_ampersand : regex :=
  Concat [Behind true [One BACKSLASH]; Chr (One 38); Ahead true (Chr (One BACKSLASH))].

Definition fix_special_characters (content : str) : str :=
  (* Fix tildes (approximate symbol) *)
  let content := re_sub false tilde_command (text "$\\sim$") content in
  let content := re_sub false tilde_digit (text "$\\sim$") content in
  (* Fix degree symbol *)
  let content := re_sub false (Chr (One DEGREE)) (text "\\textdegree{}") content in
  (* Fix subscripts in chemical formulas *)
  let content := re_sub false (formula "CO2") (text "CO$_2$") content in
  let content := re_sub false (formula "CH4") (text "CH$_4$") content in
  let content := re_sub false (formula "H2O") (text "H$_2$O") content in
  let content := re_sub false (formula "O2") (text "O$_2$") content in
  (* Fix multiplication symbol *)
  let content := re_sub false (Chr (One TIMES)) (text "$\\times$") content in
  (* Fix quotes *)
  let content := re_sub false quoted_span (text "``\\1''") content in
  (* Fix em-dash and en-dash *)
  let content := re_sub false (Chr (One EM_DASH)) (text "---") content in
  let content := re_sub false (Chr (One EN_DASH)) (text "--") content in
  (* Fix percent symbol (escape if not already) *)
  let content := re_sub false bare_percent (text "\\%") content in
  (* Fix ampersand (escape if not already) *)
  let content := re_sub false bare_ampersand (text "\\&") content in
  content.

(** ** replace_acronyms *)

(** The table, in the order the script lists it (short form, full form). *)
Definition ACRONYMS : list (string * string) := [
  ("NRL", "Natural Rubber Latex");
  ("NR", "Natural Rubber");
  ("PLA", "Polylactic Acid");
  ("PHA", "Polyhydroxyalkanoates");
  ("SBR", "Styrene-Butadiene Rubber");
  ("TPE", "Thermoplastic Elastomer");
  ("TPU", "Thermoplastic Polyurethane");
  ("PU", "Polyurethane");
  ("EPDM", "Ethylene Propylene Diene Monomer");
  ("SIC", "Strain-Induced Crystallization");
  ("DLVO", "Derjaguin-Landau-Verwey-Overbeek");
  ("SDS", "Sodium Dodecyl Sulfate");
  ("DLS", "Dynamic Light Scattering");
  ("PDI", "Polydispersity Index");
  ("DRC", "Dry Rubber Content");
  ("TSC", "Total Solids Content");
  ("AM", "Additive Manufacturing");
  ("VPP", "Vat Photopolymerization");
  ("SLA", "Stereolithography");
  ("DLP", "Digital Light Processing");
  ("FDM", "Fused Deposition Modeling");
  ("FFF", "Fused Filament Fabrication");
  ("DIW", "Direct Ink Writing");
  ("SLS", "Selective Laser Sintering");
  ("LOM", "Laminated Object Manufacturing");
  ("HDDA", "1,6-Hexanediol Diacrylate");
  ("TMPTA", "Trimethylolpropane Triacrylate");
  ("TPO", "Phenylbis(2,4,6-trimethylbenzoyl)-phosphine Oxide");
  ("PRE", "Photoresin Emulsion");
  ("DEPR", "Dual Emulsion Photoresin");
  ("JMRE", "Jammed Micro-Reinforced Elastomer");
  ("HLB", "Hydrophilic-Lipophilic Balance");
  ("HIPE", "High Internal Phase Emulsion");
  ("NMR", "Nuclear Magnetic Resonance");
  ("DOSY", "Diffusion-Ordered Spectroscopy");
  ("HSQC", "Heteronuclear Single Quantum Coherence");
  ("HMBC", "Heteronuclear Multiple Bond Correlation");
  ("COSY", "Correlation Spectroscopy");
  ("CPMG", "Carr-Purcell-Meiboom-Gill");
  ("FTIR", "Fourier Transform Infrared Spectroscopy");
  ("GPC", "Gel Permeation Chromatography");
  ("SEM", "Scanning Electron Microscopy");
  ("TEM", "Transmission Electron Microscopy");
  ("ASTM", "American Society for Testing and Materials");
  ("ISO", "International Organization for Standardization");
  ("OSHA", "Occupational Safety and Health Administration");
  ("DOE", "Design of Experiments");
  ("CFD", "Computational Fluid Dynamics");
  ("LVR", "Linear Viscoelastic Region");
  ("UV", "Ultraviolet");
  ("O/W", "Oil-in-Water");
  ("W/O", "Water-in-Oil");
  ("THF", "Tetrahydrofuran");
  ("TMS", "Tetramethylsilane");
  ("CoA", "Certificate of Analysis")
]%string.

Definition ASCII_LETTERS : list citem := [CRange 97 122; CRange 65 90].

(** "Full Form (SHORT)": the full form, optional whitespace, the short form
    in parentheses. *)
Definition full_form (short full : string) : regex :=
  Concat [Lit (text full); Star SPACES; Chr (One 40); Lit (text short); Chr (One 41)].

(** A standalone SHORT: not just after [\ac{], not after a letter, not
    before a letter or a closing brace. *)
Definition bare_short (short : string) : regex :=
  Concat [Behind true [One BACKSLASH; One 97; One 99; One 123];
       Behind true [Class false ASCII_LETTERS];
       Lit (text short);
       Ahead true (Chr (Class false (ASCII_LETTERS ++ [CChar 125])))].

(** The template written [\\ac{SHORT}]. *)
Definition ac_template (short : string) : str :=
  text "\\ac{" ++ text short ++ text "}".

(** One turn of the loop over the table.  [used_acronyms] is local to the
    call and is read only for the short form just tested, so the turn
    depends on the search alone. *)
Definition fold_acronym (content : str) (entry : string * string) : str :=
  let '(short, full) := entry in
  if bool_decide (is_Some (re_search true (full_form short full) content)) then
    let content := re_sub true (full_form short full) (ac_template short) content in
    re_sub false (bare_short short) (ac_template short) content
  else content.

Definition replace_acronyms (content : str) : str :=
  fold_left fold_acronym ACRONYMS content.

(** ** fix_headings *)

Definition FIRST_SECTION : str := text "Background and Significance".

Definition INTRODUCTION_TEMPLATE : str :=
  text "\\chapter{Introduction}\n\\label{ch:introduction}\n\n\\section{Background and Significance}\n\\label{sec:background-and-significance}".

(** Insert Chapter 1 before "Background and Significance". *)
Definition insert_introduction (content : str) : str :=
  if contains FIRST_SECTION content
     && negb (contains (text "\chapter{Introduction}") content)
  then re_sub_count 1 (Lit FIRST_SECTION) INTRODUCTION_TEMPLATE content
  else content.

Definition NEWLINE : cset := One LF.
Definition NOT_BRACE : cset := Class true [CChar 125].

(** The pattern "Chapter\s+2\s*\n+\s*Literature\s+review". *)
Definition chapter2_plain : regex :=
  Concat [Lit (text "Chapter"); Plus SPACES; Chr (One 50); Star SPACES; Plus NEWLINE;
       Star SPACES; Lit (text "Literature"); Plus SPACES; Lit (text "review")].

(** The pattern "\\textbf\{Chapter\s+3\}\s*\n+\s*\\textbf\{3\.\s*Research\s+Methodology\}". *)
Definition chapter3_bold : regex :=
  Concat [Lit (text "\textbf{Chapter"); Plus SPACES; Lit (text "3}"); Star SPACES;
       Plus NEWLINE; Star SPACES; Lit (text "\textbf{3."); Star SPACES;
       Lit (text "Research"); Plus SPACES; Lit (text "Methodology}")].

(** The pattern "Chapter\s+3\s*\n+.*?Research\s+Methodology". *)
Definition chapter3_plain : regex :=
  Concat [Lit (text "Chapter"); Plus SPACES; Chr (One 51); Star SPACES; Plus NEWLINE;
       StarLazy Dot; Lit (text "Research"); Plus SPACES; Lit (text "Methodology")].

Definition SECTION_PATTERNS : list string := [
  "Developing Circular Economies";
  "Meeting Global Demand and Feedstock Diversification";
  "Emerging Technological Interest";
  "Problem Statement and Research Motivation";
  "Research Objectives and Scope";
  "Molecular Structure and Colloidal Stabilization";
  "Colloids";
  "The Theory of Natural Rubber Latex";
  "Suspensions Rheology and Theoretical Models";
  "Additive Manufacturing";
  "Sourcing, Traceability, and Rationale";
  "Spectroscopic and Analytical Reagents";
  "Rheological Characterization";
  "Nuclear Magnetic Resonance";
  "Components and Protocols";
  "Material Characterizations";
  "Mechanical Characterizations";
  "DLP 3D Printing"
]%string.

Definition SUBSECTION_PATTERNS : list string := [
  "Preservation Chemistry";
  "Preservation-aware framework";
  "Primary Objectives";
  "Research scope";
  "Natural Rubber Latex";
  "Alternative Preservation Systems";
  "Surfactant Stabilization Mechanisms";
  "Structure-Process-Property";
  "Predictive Viscosity Models";
  "Yield Stress and Shear-Thinning";
  "Photoresins for Vat Photopolymerization";
  "Challenges of Elastomers";
  "Polyurethane and Silicone Elastomers";
  "Emulsion-Based 3D Printing";
  "Overview of Preservation Methods";
  "Ammoniated Latex System";
  "Eco-preserved Latex";
  "Reference and Synthetic Polymer";
  "Pre-receipt Specifications";
  "Incoming Verification";
  "Deuterated Solvents";
  "Photopolymerization and Surfactant";
  "Sample Preparation";
  "Rotational Rheometry";
  "Rheology Interpretation";
  "Viscosity and Volume Fraction";
  "Overview and General Conditions";
  "High-Resolution Solution-State";
  "Diffusion-Ordered Spectroscopy";
  "Time-Domain NMR";
  "Preparation of the UV-Curable";
  "Preparation of Photoresin Emulsion";
  "Preparation of Dual Emulsion";
  "Particle Size and Zeta Potential";
  "Photorheology Characterizations";
  "Uniaxial Tension Test";
  "Cyclic and Hysteresis";
  "Fracture Energy";
  "Puncture Tests";
  "Measurement of Curing Depth";
  "Gel Permeation Chromatography"
]%string.

(** The pattern "\\textbf\{TITLE[^}]*\}". *)
Definition bold_title (title : string) : regex :=
  Concat [Lit (text "\textbf{"); Lit (text title); Star NOT_BRACE; Chr (One 125)].

(** [re.sub] of "[^a-z0-9-]" by the empty text. *)
Definition slug_chars (label : str) : str :=
  re_sub false (Chr (Class true [CRange 97 122; CRange 48 57; CChar 45])) [] label.

(** The anchor of a title of the two lists. *)
Definition title_label (title : str) : str :=
  let label := str_lower title in
  let label := replace_char 32 (text "-") label in
  let label := replace_char 58 [] label in
  let label := replace_char 44 [] label in
  slug_chars label.

(** The anchor of a heading found by the line pass (no comma rule). *)
Definition line_label (title : str) : str :=
  let label := str_lower title in
  let label := replace_char 32 (text "-") label in
  let label := replace_char 58 [] label in
  slug_chars label.

(** The replacement built for one title: the command, a newline, the
    label, with every backslash doubled as the template needs it. *)
Definition heading_template (cmd prefix : string) (title : string) : str :=
  text "\\" ++ text cmd ++ text "{" ++ text title ++ text "}" ++ [LF]
  ++ text "\\label{" ++ text prefix ++ text ":" ++ title_label (text title) ++ text "}".

(** One turn of the loop over SECTION_PATTERNS. *)
Definition promote_section (content : str) (title : string) : str :=
  re_sub true (bold_title title) (heading_template "section" "sec" title) content.

(** One turn of the loop over SUBSECTION_PATTERNS. *)
Definition promote_subsection (content : str) (title : string) : str :=
  re_sub true (bold_title title) (heading_template "subsection" "subsec" title) content.

(** The pattern "\\hypertarget\{[^}]*\}\{%?\s*\\(chapter|section|subsection|subsubsection)\{(T)\}[^}]*\}"
    with "[^}]*" for T. *)
Definition hypertarget_heading : regex :=
  Concat [Lit (text "\hypertarget{"); Star NOT_BRACE; Lit (text "}{");
       Opt (Chr (One 37)); Star SPACES; Chr (One BACKSLASH);
       Group 1 (Alt (Lit (text "chapter")) (Alt (Lit (text "section"))
                (Alt (Lit (text "subsection")) (Lit (text "subsubsection")))));
       Chr (One 123); Group 2 (Star NOT_BRACE); Chr (One 125);
       Star NOT_BRACE; Chr (One 125)].

(** The pattern "^\\textbf\{([^}]+)\}$". *)
Definition bold_only_line : regex :=
  Concat [Bol; Lit (text "\textbf{"); Group 1 (Plus NOT_BRACE); Chr (One 125); Eol].

(** The lines one line of the buffer becomes in the line pass. *)
Definition fix_line (line : str) : list str :=
  let stripped := strip line in
  match re_match hypertarget_heading stripped with
  | Some (_, _, g) =>
      let cmd := group 1 g in
      let title := group 2 g in
      let label := line_label title in
      [ [BACKSLASH] ++ cmd ++ text "{" ++ title ++ text "}";
        if bool_decide (cmd = text "chapter")
        then text "\label{ch:" ++ label ++ text "}"
        else text "\label{sec:" ++ label ++ text "}" ]
  | None =>
      match re_match bold_only_line stripped with
      | Some (_, _, g) =>
          let title := group 1 g in
          if (length title <? 100)%nat && negb (ends_with_char 46 title) then
            [ text "\subsection*{" ++ title ++ text "}";
              text "\label{subsec:" ++ line_label title ++ text "}" ]
          else [line]
      | None => [line]
      end
  end.

Definition fix_headings (content : str) : str :=
  let content := insert_introduction content in
  let content :=
    re_sub true chapter2_plain
      (text "\\chapter{Literature Review}\n\\label{ch:literature-review}") content in
  let content :=
    re_sub true chapter3_bold
      (text "\\chapter{Research Methodology}\n\\label{ch:methodology}") content in
  let content :=
    re_sub true chapter3_plain
      (text "\\chapter{Research Methodology}\n\\label{ch:methodology}") content in
  let content := fold_left promote_section SECTION_PATTERNS content in
  let content := fold_left promote_subsection SUBSECTION_PATTERNS content in
  join_lines (flat_map fix_line (split_lines content)).

(** ** split_into_chapters *)

(** What the script prints. *)
Inductive message :=
| WarnNoChapter                    (* no \chapter{} command found *)
| InfoFrontmatter (n : nat)        (* n characters of frontmatter removed *)
| WarnNotConfigured (num : nat)    (* chapter num not in configuration, skipping *)
| OkSaved (file : string).         (* saved file *)

(** The pattern "\\chapter\{(T)\}" with "[^}]*" for T. *)
Definition chapter_pattern : regex :=
  Concat [Lit (text "\chapter{"); Group 1 (Star NOT_BRACE); Chr (One 125)].

(** The loop over [enumerate(matches)]: [i] is the index of the first match
    of [ms]. *)
Fixpoint chapter_entries (content : str) (i : nat) (ms : list match_obj)
  : list (nat * str) :=
  match ms with
  | [] => []
  | m :: ms' =>
      let chapter_num := (i + 1)%nat in
      let start := m_start m in
      let end_ := match ms' with
                  | m' :: _ => m_start m'
                  | [] => length content
                  end in
      (chapter_num, strip (slice start end_ content))
        :: chapter_entries content (S i) ms'
  end.

(** The dictionary the script returns is built in key order; it is kept as
    the list of its items in that order, with what was printed. *)
Definition split_into_chapters (content : str) : list (nat * str) * list message :=
  let matches := re_finditer chapter_pattern content in
  match matches with
  | [] => ([(1%nat, content)], [WarnNoChapter])
  | m0 :: _ =>
      let first_chapter_start := m_start m0 in
      let frontmatter := strip (slice 0 first_chapter_start content) in
      (chapter_entries content 0 matches,
       match frontmatter with
       | [] => []
       | _ :: _ => [InfoFrontmatter (length frontmatter)]
       end)
  end.

(** ** create_chapter_file and process_and_save *)

Record chapter_config := {
  title : string;
  label : string;
  file : string;
}.

(** The chapter registry. *)
Definition CHAPTERS : gmap nat chapter_config :=
  <[1%nat := {| title := "Introduction"; label := "ch:introduction";
                file := "chapter1.tex" |}]>
  (<[2%nat := {| title := "Literature Review"; label := "ch:literature-review";
                 file := "chapter2.tex" |}]>
  (<[3%nat := {| title := "Research Methodology"; label := "ch:methodology";
                 file := "chapter3.tex" |}]> ∅)).

Definition decimal (n : nat) : string := NilEmpty.string_of_uint (Nat.to_uint n).

(** The configuration [CHAPTERS.get] falls back to. *)
Definition default_config (chapter_num : nat) : chapter_config :=
  {| title := "Chapter " +:+ decimal chapter_num;
     label := "ch:chapter" +:+ decimal chapter_num;
     file := "chapter" +:+ decimal chapter_num +:+ ".tex" |}.

(** The header comment.  [now] is what [time.strftime] returns when the
    header is built. *)
Definition chapter_header (now : str) (chapter_num : nat) (config : chapter_config)
  : str :=
  text "% " ++ text (file config) ++ text " -- Chapter " ++ text (decimal chapter_num)
  ++ text ": " ++ text (title config) ++ [LF]
  ++ text "%" ++ [LF]
  ++ text "% Natural Rubber Latex Thesis" ++ [LF]
  ++ text "% Auto-generated from Word document - " ++ now ++ [LF; LF].

Definition create_chapter_file (now : str) (chapter_num : nat) (content : str) : str :=
  let config := default (default_config chapter_num) (CHAPTERS !! chapter_num) in
  chapter_header now chapter_num config ++ content.

(** [Path.with_suffix]: the part of the name from its last dot on is
    replaced when that dot is neither the first nor the last character. *)
Fixpoint dot_index (cs : list ascii) : option nat :=
  match cs with
  | [] => None
  | c :: cs' =>
      if Ascii.eqb c "."%char then Some O
      else match dot_index cs' with Some j => Some (S j) | None => None end
  end.

Definition with_suffix (name suffix : string) : string :=
  let cs := rev (list_ascii_of_string name) in
  match dot_index cs with
  | Some (S j) =>
      if (S (S j) <? length cs)%nat
      then string_of_list_ascii (rev (skipn (S (S j)) cs)) +:+ suffix
      else name +:+ suffix
  | _ => name +:+ suffix
  end.

(** The chapters directory (file name to the characters of the file) and
    the console.  [Path.write_text] stores the text it is given, a line
    feed as the line separator of the platform, which is taken to be the
    line feed itself. *)
Record world := {
  files : gmap string str;
  printed : list message;
}.

Definition print (m : message) (w : world) : world :=
  {| files := files w; printed := printed w ++ [m] |}.

Definition CR : N := 13.

(** [Path.read_text]: the file is read in text mode, so a carriage return,
    alone or followed by a line feed, comes out as one line feed. *)
Fixpoint read_text (chars : str) : str :=
  match chars with
  | [] => []
  | c :: rest =>
      if N.eqb c CR then
        LF :: match rest with
              | d :: rest' => if N.eqb d LF then read_text rest' else read_text rest
              | [] => []
              end
      else c :: read_text rest
  end.

(** One turn of the loop over [chapters.items()].  [now n] is the clock
    reading when the header of chapter [n] is built. *)
Definition save_chapter (now : nat -> str) (w : world) (entry : nat * str) : world :=
  let '(chapter_num, chapter_content) := entry in
  match CHAPTERS !! chapter_num with
  | None => print (WarnNotConfigured chapter_num) w
  | Some config =>
      let output_file := file config in
      let full_content :=
        create_chapter_file (now chapter_num) chapter_num chapter_content in
      (* Backup existing file *)
      let fs :=
        match files w !! output_file with
        | Some old =>
            <[with_suffix output_file ".tex.bak" := read_text old]> (files w)
        | None => files w
        end in
      print (OkSaved output_file)
        {| files := <[output_file := full_content]> fs; printed := printed w |}
  end.

Definition save_chapters (now : nat -> str) (chapters : list (nat * str)) (w : world)
  : world :=
  fold_left (save_chapter now) chapters w.

(** The three transformations, in the order [process_and_save] applies
    them. *)
Definition transform (content : str) : str :=
  fix_headings (replace_acronyms (fix_special_characters content)).

Definition process_and_save (now : nat -> str) (content : str) (w : world) : world :=
  let content := transform content in
  let '(chapters, msgs) := split_into_chapters content in
  save_chapters now chapters
    {| files := files w; printed := printed w ++ msgs |}.

(** An empty chapters directory and a silent console. *)
Definition empty_world : world := {| files := ∅; printed := [] |}.

(** Two clocks: every header of a run is built within the same second. *)
Definition clock_10h (n : nat) : str := text "2024-01-01 10:00:00".
Definition clock_11h (n : nat) : str := text "2024-01-01 11:00:00".

(** Sample buffers.  Two headed chapters behind a frontmatter, the first
    one titled as the registry titles its second entry; and a text without
    any heading. *)
Definition two_chapters : str :=
  text "Preface \chapter{Literature Review} Rubber. \chapter{Methods} Tests. ".

Definition no_heading : str := text "Preface only.".

(** * Properties *)

(** ** The file writer *)

Definition backup_name (cfg : chapter_config) : string :=
  with_suffix (file cfg) ".tex.bak".

Lemma registry_cases n cfg :
  CHAPTERS !! n = Some cfg ->
  (n = 1%nat /\ file cfg = "chapter1.tex"%string /\ title cfg = "Introduction"%string)
  \/ (n = 2%nat /\ file cfg = "chapter2.tex"%string /\ title cfg = "Literature Review"%string)
  \/ (n = 3%nat /\ file cfg = "chapter3.tex"%string /\ title cfg = "Research Methodology"%string).
Proof.
  unfold CHAPTERS. intros H.
  destruct n as [|[|[|[|n]]]].
  - rewrite !lookup_insert_ne, lookup_empty in H by lia. discriminate.
  - rewrite lookup_insert_eq in H. inversion H; subst. auto.
  - rewrite lookup_insert_ne, lookup_insert_eq in H by lia. inversion H; subst. auto.
  - rewrite !lookup_insert_ne, lookup_insert_eq in H by lia. inversion H; subst; auto.
  - rewrite !lookup_insert_ne, lookup_empty in H by lia. discriminate.
Qed.

Lemma file_inj n m c1 c2 :
  CHAPTERS !! n = Some c1 -> CHAPTERS !! m = Some c2 -> file c1 = file c2 -> n = m.
Proof.
  intros H1 H2 E.
  destruct (registry_cases _ _ H1) as [(-> & F1 & _)|[(-> & F1 & _)|(-> & F1 & _)]];
  destruct (registry_cases _ _ H2) as [(-> & F2 & _)|[(-> & F2 & _)|(-> & F2 & _)]];
  rewrite F1, F2 in E; first [reflexivity | discriminate].
Qed.

Lemma backup_ne_file n m c1 c2 :
  CHAPTERS !! n = Some c1 -> CHAPTERS !! m = Some c2 -> backup_name c1 <> file c2.
Proof.
  intros H1 H2 E. unfold backup_name in E.
  destruct (registry_cases _ _ H1) as [(-> & F1 & _)|[(-> & F1 & _)|(-> & F1 & _)]];
  destruct (registry_cases _ _ H2) as [(-> & F2 & _)|[(-> & F2 & _)|(-> & F2 & _)]];
  rewrite F1, F2 in E; vm_compute in E; discriminate.
Qed.

Lemma backup_inj n m c1 c2 :
  CHAPTERS !! n = Some c1 -> CHAPTERS !! m = Some c2 ->
  backup_name c1 = backup_name c2 -> n = m.
Proof.
  intros H1 H2 E. unfold backup_name in E.
  destruct (registry_cases _ _ H1) as [(-> & F1 & _)|[(-> & F1 & _)|(-> & F1 & _)]];
  destruct (registry_cases _ _ H2) as [(-> & F2 & _)|[(-> & F2 & _)|(-> & F2 & _)]];
  rewrite F1, F2 in E; vm_compute in E; first [reflexivity | discriminate].
Qed.

(** Text mode reads a text without carriage returns as it is. *)
Lemma read_text_plain (s : str) : mem CR s = false -> read_text s = s.
Proof.
  induction s as [|c s IH]; [reflexivity|].
  cbn [mem read_text]. intros H. apply orb_false_iff in H as [Hc Hs].
  rewrite N.eqb_sym, Hc, (IH Hs). reflexivity.
Qed.

Lemma mem_app c (x y : str) : mem c (x ++ y) = mem c x || mem c y.
Proof.
  induction x as [|d x IH]; [reflexivity|].
  cbn [app mem]. rewrite IH, orb_assoc. reflexivity.
Qed.

(** The header of a registered chapter holds no carriage return unless the
    clock reading does, so a chapter file holds none unless the clock
    reading or the chapter text does. *)
Lemma create_chapter_file_plain (now : str) (n : nat) (c : str) (cfg : chapter_config) :
  CHAPTERS !! n = Some cfg ->
  mem CR now = false -> mem CR c = false ->
  mem CR (create_chapter_file now n c) = false.
Proof.
  intros Hn Hnow Hc. unfold create_chapter_file.
  rewrite Hn. cbn [default from_option id]. unfold chapter_header.
  destruct (registry_cases _ _ Hn) as [(_ & Hf & Ht)|[(_ & Hf & Ht)|(_ & Hf & Ht)]];
    rewrite Hf, Ht, !mem_app, Hnow, Hc;
    destruct (registry_cases _ _ Hn) as [(-> & _)|[(-> & _)|(-> & _)]]; reflexivity.
Qed.

(** What one turn of the save loop leaves under a name. *)
Lemma save_chapter_lookup now w n c (f : string) :
  files (save_chapter now w (n, c)) !! f =
  match CHAPTERS !! n with
  | None => files w !! f
  | Some cfg =>
      if decide (f = file cfg) then Some (create_chapter_file (now n) n c)
      else if decide (f = backup_name cfg)
           then match files w !! file cfg with
                | Some old => Some (read_text old)
                | None => files w !! f
                end
           else files w !! f
  end.
Proof.
  unfold save_chapter.
  destruct (CHAPTERS !! n) as [cfg|] eqn:Hn; [|reflexivity].
  cbn [print files].
  destruct (decide (f = file cfg)) as [->|Hf].
  - apply lookup_insert_eq.
  - rewrite lookup_insert_ne by congruence.
    destruct (files w !! file cfg) as [old|] eqn:Hold.
    + fold (backup_name cfg).
      destruct (decide (f = backup_name cfg)) as [->|Hb].
      * apply lookup_insert_eq.
      * rewrite lookup_insert_ne by congruence. reflexivity.
    + destruct (decide (f = backup_name cfg)); reflexivity.
Qed.

(** A chapter the loop does not visit leaves its file and its backup as
    they were. *)
Lemma save_chapters_frame now chapters : forall w n cfg,
  CHAPTERS !! n = Some cfg ->
  n ∉ map fst chapters ->
  files (save_chapters now chapters w) !! file cfg = files w !! file cfg
  /\ files (save_chapters now chapters w) !! backup_name cfg
     = files w !! backup_name cfg.
Proof.
  induction chapters as [|[m c] chapters IH]; intros w n cfg Hn Hnotin; [split; reflexivity|].
  cbn [map fst] in Hnotin. apply not_elem_of_cons in Hnotin as [Hne Hnotin].
  unfold save_chapters in *. cbn [fold_left].
  destruct (IH (save_chapter now w (m, c)) n cfg Hn Hnotin) as [-> ->].
  rewrite !save_chapter_lookup.
  destruct (CHAPTERS !! m) as [cfg'|] eqn:Hm; [|split; reflexivity].
  assert (file cfg <> file cfg') by (intros E; apply Hne; eapply file_inj; eauto).
  assert (backup_name cfg <> file cfg') by (eapply backup_ne_file; eauto).
  assert (backup_name cfg <> backup_name cfg')
    by (intros E; apply Hne; eapply backup_inj; eauto).
  assert (file cfg <> backup_name cfg')
    by (intros E; symmetry in E; revert E; eapply backup_ne_file; eauto).
  repeat case_decide; try congruence. split; reflexivity.
Qed.

(** A chapter of the registry that the loop visits ends with the new file,
    and with the file that was there, as text mode reads it, as its
    backup. *)
Lemma save_chapters_written now chapters : forall w n c cfg,
  NoDup (map fst chapters) ->
  (n, c) ∈ chapters ->
  CHAPTERS !! n = Some cfg ->
  files (save_chapters now chapters w) !! file cfg
    = Some (create_chapter_file (now n) n c)
  /\ files (save_chapters now chapters w) !! backup_name cfg
     = match files w !! file cfg with
       | Some old => Some (read_text old)
       | None => files w !! backup_name cfg
       end.
Proof.
  induction chapters as [|[m c'] chapters IH]; intros w n c cfg Hnd Hin Hn.
  - inversion Hin.
  - cbn [map fst] in Hnd. apply NoDup_cons in Hnd as [Hm Hnd].
    unfold save_chapters in *. cbn [fold_left].
    apply elem_of_cons in Hin as [Heq|Hin].
    + inversion Heq; subst m c'.
      destruct (save_chapters_frame now chapters (save_chapter now w (n, c)) n cfg Hn Hm)
        as [E1 E2].
      unfold save_chapters in E1, E2. rewrite E1, E2, !save_chapter_lookup, Hn.
      assert (backup_name cfg <> file cfg) by (eapply backup_ne_file; eauto).
      repeat case_decide; try congruence. split; reflexivity.
    + assert (n <> m).
      { intros ->. apply Hm. apply list_elem_of_In, in_map_iff. exists (m, c).
        split; [reflexivity|]. apply list_elem_of_In. exact Hin. }
      destruct (IH (save_chapter now w (m, c')) n c cfg Hnd Hin Hn) as [-> ->].
      split; [reflexivity|].
      rewrite !save_chapter_lookup.
      destruct (CHAPTERS !! m) as [cfg'|] eqn:Hm'; [|reflexivity].
      assert (file cfg <> file cfg') by (intros E; apply H; eapply file_inj; eauto).
      assert (backup_name cfg <> file cfg') by (eapply backup_ne_file; eauto).
      assert (backup_name cfg <> backup_name cfg')
        by (intros E; apply H; eapply backup_inj; eauto).
      assert (file cfg <> backup_name cfg')
        by (intros E; symmetry in E; revert E; eapply backup_ne_file; eauto).
      repeat case_decide; congruence.
Qed.

(** ** The matcher *)

(** The longest prefix of [a] inside [p], and what follows it. *)
Fixpoint span (p : N -> bool) (a : str) : str * str :=
  match a with
  | c :: a' => if p c then let '(x, r) := span p a' in (c :: x, r) else ([], a)
  | [] => ([], [])
  end.

Fixpoint ci_prefix (w s : str) : bool :=
  match w, s with
  | [], _ => true
  | x :: w', c :: s' => ci_eq x c && ci_prefix w' s'
  | _ :: _, [] => false
  end.

Lemma span_app p a : (span p a).1 ++ (span p a).2 = a.
Proof.
  induction a as [|c a IH]; [reflexivity|].
  cbn. destruct (p c); [|reflexivity].
  destruct (span p a) as [x r]. cbn in *. congruence.
Qed.

Lemma span_all p a : forallb p (span p a).1 = true.
Proof.
  induction a as [|c a IH]; [reflexivity|].
  cbn. destruct (p c) eqn:E; [|reflexivity].
  destruct (span p a) as [x r]. cbn in *. rewrite E. exact IH.
Qed.

Lemma span_stop p a c r : (span p a).2 = c :: r -> p c = false.
Proof.
  induction a as [|d a IH]; [discriminate|].
  cbn. destruct (p d) eqn:E.
  - destruct (span p a) as [x r']. cbn in *. exact IH.
  - cbn. intros [= -> ->]. exact E.
Qed.

Lemma span_prefix p x c r :
  forallb p x = true -> p c = false -> span p (x ++ c :: r) = (x, c :: r).
Proof.
  induction x as [|d x IH]; cbn; intros Hx Hc.
  - rewrite Hc. reflexivity.
  - apply andb_true_iff in Hx as [-> Hx]. rewrite (IH Hx Hc). reflexivity.
Qed.

Lemma span_end p x : forallb p x = true -> span p x = (x, []).
Proof.
  induction x as [|d x IH]; cbn; intros Hx; [reflexivity|].
  apply andb_true_iff in Hx as [-> Hx]. rewrite (IH Hx). reflexivity.
Qed.

Lemma span_ext p q a : (forall c, p c = q c) -> span p a = span q a.
Proof.
  intros H. induction a as [|c a IH]; [reflexivity|].
  cbn. rewrite H, IH. reflexivity.
Qed.

Lemma firstn_consumed (x r : str) :
  firstn (length (x ++ r) - length r) (x ++ r) = x.
Proof.
  rewrite length_app. replace (length x + length r - length r)%nat with (length x) by lia.
  rewrite firstn_app, Nat.sub_diag, firstn_all. cbn. apply app_nil_r.
Qed.

Lemma is_prefix_spec w s : is_prefix w s = true <-> exists r, s = w ++ r.
Proof.
  revert s. induction w as [|x w IH]; intros s; cbn.
  - split; [intros _; exists s; reflexivity|reflexivity].
  - destruct s as [|c s].
    + split; [discriminate|intros [r Hr]; discriminate].
    + rewrite andb_true_iff, N.eqb_eq, IH. split.
      * intros [-> [r ->]]. exists r. reflexivity.
      * intros [r [= -> ->]]. split; [reflexivity|exists r; reflexivity].
Qed.

Lemma is_prefix_app_same w r : is_prefix w (w ++ r) = true.
Proof. apply is_prefix_spec. exists r. reflexivity. Qed.

Lemma rx_Seq ic r1 r2 b a g k :
  rx ic (Seq r1 r2) b a g k = rx ic r1 b a g (fun b' a' g' => rx ic r2 b' a' g' k).
Proof. reflexivity. Qed.

Lemma rx_Behind ic neg l b a g k :
  rx ic (Behind neg l) b a g k
  = if xorb neg (behind_rev ic (rev l) b) then k b a g else None.
Proof. reflexivity. Qed.

Lemma rx_Ahead ic neg r b a g k :
  rx ic (Ahead neg r) b a g k
  = if xorb neg (bool_decide (is_Some (rx ic r b a g accept))) then k b a g else None.
Proof. reflexivity. Qed.

(** A literal pattern matches where it is a prefix of the text ahead. *)
Lemma rx_Lit w : forall b a g k,
  rx false (Lit w) b a g k =
  if is_prefix w a then k (rev w ++ b) (skipn (length w) a) g else None.
Proof.
  induction w as [|x w IH]; intros b a g k; [reflexivity|].
  cbn [Lit rx is_prefix]. destruct a as [|c a]; [reflexivity|].
  cbn [in_cset]. rewrite (N.eqb_sym x c).
  destruct (c =? x) eqn:E; cbn [andb]; [|reflexivity].
  apply N.eqb_eq in E. subst c. rewrite IH. cbn [length skipn rev].
  rewrite <- app_assoc. reflexivity.
Qed.

(** The same under IGNORECASE. *)
Lemma rx_Lit_ci w : forall b a g k,
  rx true (Lit w) b a g k =
  if ci_prefix w a
  then k (rev (firstn (length w) a) ++ b) (skipn (length w) a) g else None.
Proof.
  induction w as [|x w IH]; intros b a g k; [reflexivity|].
  cbn [Lit rx ci_prefix]. destruct a as [|c a]; [reflexivity|].
  cbn [in_cset]. destruct (ci_eq x c); cbn [andb]; [|reflexivity].
  rewrite IH. cbn [length skipn firstn rev]. rewrite <- app_assoc. reflexivity.
Qed.

(** A greedy star whose continuation refuses every character of the class
    stops at the end of the longest run. *)
Lemma star_greedy_stop p k : 
  (forall b c a, p c = true -> k b (c :: a) = None) ->
  forall a b,
  star_greedy p b a k = k (rev (span p a).1 ++ b) (span p a).2.
Proof.
  intros Hk. induction a as [|c a IH]; intros b; [reflexivity|].
  cbn [star_greedy span]. destruct (p c) eqn:E; [|reflexivity].
  rewrite IH. destruct (span p a) as [x r]. cbn [fst snd rev].
  rewrite <- app_assoc. cbn [app].
  destruct (k (rev x ++ c :: b) r); [reflexivity|]. apply Hk. exact E.
Qed.

(** A greedy star in last position takes the longest run. *)
Lemma star_greedy_accept p g : forall a b,
  star_greedy p b a (fun b' a' => accept b' a' g)
  = Some (rev (span p a).1 ++ b, (span p a).2, g).
Proof.
  induction a as [|c a IH]; intros b; [reflexivity|].
  cbn [star_greedy span]. destruct (p c) eqn:E; [|reflexivity].
  rewrite IH. destruct (span p a) as [x r]. cbn [fst snd rev].
  rewrite <- app_assoc. reflexivity.
Qed.

Lemma star_greedy_inv p k : forall a b res,
  star_greedy p b a k = Some res ->
  exists x r, a = x ++ r /\ forallb p x = true /\ k (rev x ++ b) r = Some res.
Proof.
  induction a as [|c a IH]; intros b res H; cbn in H.
  - exists [], []. auto.
  - destruct (p c) eqn:E.
    + destruct (star_greedy p (c :: b) a k) eqn:E1.
      * injection H as <-. apply IH in E1 as (x & r & -> & Hx & Hk).
        exists (c :: x), r. cbn. rewrite E, Hx, <- app_assoc. auto.
      * exists [], (c :: a). auto.
    + exists [], (c :: a). auto.
Qed.

Lemma star_lazy_inv p k : forall a b res,
  star_lazy p b a k = Some res ->
  exists x r, a = x ++ r /\ forallb p x = true /\ k (rev x ++ b) r = Some res.
Proof.
  induction a as [|c a IH]; intros b res H; cbn in H.
  - destruct (k b []) eqn:E; [injection H as <-|discriminate]. exists [], []. auto.
  - destruct (k b (c :: a)) eqn:E.
    + injection H as <-. exists [], (c :: a). auto.
    + destruct (p c) eqn:Ec; [|discriminate].
      apply IH in H as (x & r & -> & Hx & Hk).
      exists (c :: x), r. cbn. rewrite Ec, Hx, <- app_assoc. auto.
Qed.

(** Whatever the pattern, a match consumes a prefix of the text ahead and
    hands the continuation the zipper moved over it. *)
Lemma rx_inv ic r : forall b a g k res,
  rx ic r b a g k = Some res ->
  exists x a' g', a = x ++ a' /\ k (rev x ++ b) a' g' = Some res.
Proof.
  induction r as [|cs|r1 IH1 r2 IH2|r1 IH1 r2 IH2|cs|cs|n r1 IH1|neg r1 IH1|neg l| | |];
    intros b a g k res H; cbn [rx] in H.
  - exists [], a, g. auto.
  - destruct a as [|c a]; [discriminate|].
    destruct (in_cset ic cs c); [|discriminate]. exists [c], a, g. auto.
  - apply IH1 in H as (x1 & a1 & g1 & -> & H).
    apply IH2 in H as (x2 & a2 & g2 & -> & H).
    exists (x1 ++ x2), a2, g2. rewrite rev_app_distr, <- !app_assoc. auto.
  - destruct (rx ic r1 b a g k) eqn:E.
    + injection H as <-. eapply IH1; eauto.
    + eapply IH2; eauto.
  - apply star_greedy_inv in H as (x & r & -> & _ & H). exists x, r, g. auto.
  - apply star_lazy_inv in H as (x & r & -> & _ & H). exists x, r, g. auto.
  - apply IH1 in H as (x & a' & g' & -> & H). eauto.
  - destruct (xorb neg _); [|discriminate]. exists [], a, g. auto.
  - destruct (xorb neg _); [|discriminate]. exists [], a, g. auto.
  - destruct (at_boundary b a); [|discriminate]. exists [], a, g. auto.
  - destruct b; [|discriminate]. exists [], a, g. auto.
  - destruct a as [|c [|d a]]; try discriminate.
    + exists [], [], g. auto.
    + destruct (c =? LF); [|discriminate]. exists [], [c], g. auto.
Qed.

Lemma match_at_inv ic r b a b1 a1 g :
  match_at ic r b a = Some (b1, a1, g) ->
  exists x, a = x ++ a1 /\ b1 = rev x ++ b.
Proof.
  intros H. apply rx_inv in H as (x & a' & g' & -> & H).
  injection H as <- <- <-. eauto.
Qed.

(** ** The scans *)

Section Scan.

Variables (ic : bool) (r : regex) (t : str).

(** No match of [r] starts inside [u] when [u] stands before [rest], the
    text [b] behind it. *)
Definition quiet (b u rest : str) : Prop :=
  forall u1 c u2, u = u1 ++ c :: u2 ->
  match_at ic r (rev u1 ++ b) (c :: u2 ++ rest) = None.

Lemma quiet_nil b rest : quiet b [] rest.
Proof. intros [|? ?] c u2 H; discriminate. Qed.

Lemma quiet_cons b c u rest :
  match_at ic r b (c :: u ++ rest) = None ->
  quiet (c :: b) u rest -> quiet b (c :: u) rest.
Proof.
  intros H0 Hq [|d u1] c' u2 E; cbn in E; injection E as <- ->.
  - exact H0.
  - cbn [rev]. rewrite <- app_assoc. apply Hq. reflexivity.
Qed.

Lemma quiet_inv b c u rest :
  quiet b (c :: u) rest ->
  match_at ic r b (c :: u ++ rest) = None /\ quiet (c :: b) u rest.
Proof.
  intros Hq. split.
  - apply (Hq [] c u). reflexivity.
  - intros u1 c' u2 E. subst u. specialize (Hq (c :: u1) c' u2 eq_refl).
    cbn [rev] in Hq. rewrite <- app_assoc in Hq. exact Hq.
Qed.

(** The scan copies a quiet stretch. *)
Lemma sub_loop_quiet limit u : forall b rest,
  quiet b u rest ->
  sub_loop ic r t limit 0 b (u ++ rest)
  = u ++ sub_loop ic r t limit 0 (rev u ++ b) rest.
Proof.
  induction u as [|c u IH]; intros b rest Hq; [reflexivity|].
  apply quiet_inv in Hq as [H0 Hq].
  cbn [app sub_loop]. destruct (exhausted limit) eqn:El.
  - destruct limit as [[|n]|]; try discriminate.
    f_equal. specialize (IH (c :: b) rest Hq).
    cbn [rev]. rewrite <- app_assoc. cbn [app]. rewrite <- IH.
    destruct (u ++ rest); reflexivity.
  - rewrite H0. f_equal. rewrite IH by exact Hq.
    cbn [rev]. rewrite <- app_assoc. reflexivity.
Qed.

(** The scan passes over the characters of a match. *)
Lemma sub_loop_skip limit x : forall b rest,
  sub_loop ic r t limit (length x) b (x ++ rest)
  = sub_loop ic r t limit 0 (rev x ++ b) rest.
Proof.
  induction x as [|c x IH]; intros b rest.
  - cbn [length app rev]. destruct rest; reflexivity.
  - cbn [length app sub_loop rev]. rewrite IH, <- app_assoc. reflexivity.
Qed.

(** Where a match starts, the scan emits the replacement and goes on after
    the match. *)
Lemma sub_loop_hit limit b x rest b1 g :
  exhausted limit = false ->
  x <> [] ->
  match_at ic r b (x ++ rest) = Some (b1, rest, g) ->
  sub_loop ic r t limit 0 b (x ++ rest)
  = expand t g ++ sub_loop ic r t (dec_limit limit) 0 (rev x ++ b) rest.
Proof.
  intros El Hx H. destruct x as [|c x]; [congruence|].
  cbn [app sub_loop] in *. rewrite El, H. f_equal.
  replace (length (c :: x ++ rest) - length rest)%nat with (S (length x))
    by (cbn [length]; rewrite length_app; lia).
  cbn [rev]. rewrite <- app_assoc. apply sub_loop_skip.
Qed.

(** Once the count is used up the rest of the text is copied. *)
Lemma sub_loop_exhausted b a : sub_loop ic r t (Some O) 0 b a = a.
Proof. destruct a; reflexivity. Qed.

End Scan.

Lemma finditer_loop_quiet r u : forall b rest,
  quiet false r b u rest ->
  finditer_loop r 0 b (u ++ rest) = finditer_loop r 0 (rev u ++ b) rest.
Proof.
  induction u as [|c u IH]; intros b rest Hq; [reflexivity|].
  apply quiet_inv in Hq as [H0 Hq].
  cbn [app finditer_loop]. rewrite H0, IH by exact Hq.
  cbn [rev]. rewrite <- app_assoc. reflexivity.
Qed.

Lemma finditer_loop_skip r x : forall b rest,
  finditer_loop r (length x) b (x ++ rest) = finditer_loop r 0 (rev x ++ b) rest.
Proof.
  induction x as [|c x IH]; intros b rest.
  - cbn [length app rev]. destruct rest; reflexivity.
  - cbn [length app finditer_loop rev]. rewrite IH, <- app_assoc. reflexivity.
Qed.

Lemma finditer_loop_hit r b x rest g :
  x <> [] ->
  match_at false r b (x ++ rest) = Some (rev x ++ b, rest, g) ->
  finditer_loop r 0 b (x ++ rest)
  = {| m_start := length b; m_end := length b + length x; m_groups := g |}
    :: finditer_loop r 0 (rev x ++ b) rest.
Proof.
  intros Hx H. destruct x as [|c x]; [congruence|].
  cbn [app finditer_loop] in *. rewrite H. f_equal.
  - f_equal. rewrite length_app, length_rev. cbn [length]. lia.
  - replace (Nat.pred (length (c :: x ++ rest) - length rest)) with (length x)
      by (cbn [length]; rewrite length_app; lia).
    cbn [rev]. rewrite <- app_assoc. apply finditer_loop_skip.
Qed.

Lemma search_loop_quiet ic r u : forall b rest,
  quiet ic r b u rest ->
  search_loop ic r b (u ++ rest) = search_loop ic r (rev u ++ b) rest.
Proof.
  induction u as [|c u IH]; intros b rest Hq; [reflexivity|].
  apply quiet_inv in Hq as [H0 Hq].
  cbn [app search_loop]. rewrite H0, IH by exact Hq.
  cbn [rev]. rewrite <- app_assoc. reflexivity.
Qed.

(** ** Occurrences of a literal *)

Lemma contains_false_prefix w s : contains w s = false -> is_prefix w s = false.
Proof. destruct s; cbn; intros H; apply orb_false_iff in H as [H _]; exact H. Qed.

Lemma contains_false_suffix w u v : contains w (u ++ v) = false -> contains w v = false.
Proof.
  induction u as [|c u IH]; [auto|].
  cbn [app contains]. intros H. apply orb_false_iff in H as [_ H]. auto.
Qed.

Lemma contains_app_r w u v : contains w v = true -> contains w (u ++ v) = true.
Proof.
  intros H. destruct (contains w (u ++ v)) eqn:E; [reflexivity|].
  apply contains_false_suffix in E. congruence.
Qed.

Lemma contains_app_l w u v : contains w u = true -> contains w (u ++ v) = true.
Proof.
  induction u as [|c u IH]; cbn [app contains].
  - destruct w; [destruct v; reflexivity|discriminate].
  - intros H. apply orb_true_iff in H as [H|H]; apply orb_true_iff.
    + left. apply is_prefix_spec in H as [r' Hr]. apply is_prefix_spec.
      exists (r' ++ v). rewrite app_assoc, <- Hr. reflexivity.
    + right. auto.
Qed.

Lemma contains_spec w s : contains w s = true <-> exists u v, s = u ++ w ++ v.
Proof.
  split.
  - induction s as [|c s IH]; cbn [contains]; intros H; apply orb_true_iff in H as [H|H].
    + apply is_prefix_spec in H as [r' ->]. exists [], r'. reflexivity.
    + discriminate.
    + apply is_prefix_spec in H as [r' ->]. exists [], r'. reflexivity.
    + destruct (IH H) as (u & v & ->). exists (c :: u), v. reflexivity.
  - intros (u & v & ->). apply contains_app_r.
    pose proof (is_prefix_app_same w v) as H.
    destruct (w ++ v); cbn [contains]; rewrite H; reflexivity.
Qed.

(** A prefix test over a concatenation: the literal lies in the first part,
    or runs out of it into the second. *)
Lemma is_prefix_app w : forall v rest,
  is_prefix w (v ++ rest) = true ->
  is_prefix w v = true
  \/ exists w2, w = v ++ w2 /\ w2 <> [] /\ is_prefix w2 rest = true.
Proof.
  induction w as [|x w IH]; intros v rest H; [left; reflexivity|].
  destruct v as [|c v].
  - right. exists (x :: w). auto.
  - cbn [app is_prefix] in *. apply andb_true_iff in H as [Hx H].
    rewrite Hx. cbn [andb]. apply N.eqb_eq in Hx. subst c.
    destruct (IH _ _ H) as [Hl|(w2 & -> & Hne & Hp)]; [left; exact Hl|].
    right. exists w2. auto.
Qed.

Lemma mem_spec c l : mem c l = true <-> In c l.
Proof.
  induction l as [|x l IH]; cbn; [split; [discriminate|tauto]|].
  rewrite orb_true_iff, N.eqb_eq, IH. split; intros [H|H]; auto.
Qed.

(** No occurrence of [w] starts inside [u], once [w] does not occur in [u]
    and cannot run out of [u] into what follows. *)
Definition cannot_enter (w rest : str) : Prop :=
  match rest with
  | [] => True
  | c :: _ => mem c (tl w) = false
  end.

Lemma no_start w u rest :
  contains w u = false -> cannot_enter w rest ->
  forall u1 c u2, u = u1 ++ c :: u2 -> is_prefix w (c :: u2 ++ rest) = false.
Proof.
  intros Hc Hrest u1 c u2 ->.
  destruct (is_prefix w (c :: u2 ++ rest)) eqn:E; [|reflexivity].
  apply contains_false_suffix, contains_false_prefix in Hc.
  apply (is_prefix_app w (c :: u2) rest) in E as [E|(w2 & -> & Hne & Hp)]; [congruence|].
  destruct w2 as [|d w2]; [congruence|]. destruct rest as [|e rest]; [discriminate|].
  cbn [is_prefix] in Hp. apply andb_true_iff in Hp as [Hd _]. apply N.eqb_eq in Hd. subst e.
  cbn [cannot_enter app tl] in Hrest.
  assert (mem d (u2 ++ d :: w2) = true) by (apply mem_spec, in_app_iff; right; left; reflexivity).
  congruence.
Qed.

(** A pattern that opens with the literal [w] is quiet where [w] does not
    start. *)
Lemma quiet_without ic r w b u rest :
  (forall b a, is_prefix w a = false -> match_at ic r b a = None) ->
  contains w u = false -> cannot_enter w rest ->
  quiet ic r b u rest.
Proof.
  intros Hr Hc Hrest u1 c u2 E. apply Hr. eapply no_start; eauto.
Qed.

(** ** str.strip *)

Lemma lstrip_app_nonspace l c r :
  is_space c = false -> lstrip (l ++ c :: r) = lstrip l ++ c :: r.
Proof.
  intros Hc. induction l as [|d l IH]; cbn [app lstrip].
  - rewrite Hc. reflexivity.
  - destruct (is_space d); [exact IH|reflexivity].
Qed.

Lemma rstrip_app_nonspace x c y :
  is_space c = false -> rstrip (x ++ c :: y) = x ++ c :: rstrip y.
Proof.
  intros Hc. unfold rstrip. rewrite rev_app_distr. cbn [rev].
  rewrite <- app_assoc. cbn [app]. rewrite (lstrip_app_nonspace _ _ _ Hc).
  rewrite rev_app_distr. cbn [rev]. rewrite rev_involutive, <- app_assoc.
  reflexivity.
Qed.

(** ** The chapter splitter *)

Definition CHAPTER_OPEN : str := text "\chapter{".

(** A top-level heading with title [t]. *)
Definition marker (t : str) : str := CHAPTER_OPEN ++ t ++ [125].

Definition not_brace (c : N) : bool := negb (c =? 125).

Lemma in_NOT_BRACE ic c : in_cset ic NOT_BRACE c = not_brace c.
Proof. cbn. rewrite orb_false_r. reflexivity. Qed.

Lemma chapter_match b a :
  match_at false chapter_pattern b a =
  if is_prefix CHAPTER_OPEN a then
    let rest := skipn (length CHAPTER_OPEN) a in
    match (span not_brace rest).2 with
    | c :: a' =>
        Some (c :: rev (span not_brace rest).1 ++ rev CHAPTER_OPEN ++ b, a',
              [(1%nat, (span not_brace rest).1)])
    | [] => None
    end
  else None.
Proof.
  unfold match_at, chapter_pattern. cbn [Concat rx]. fold CHAPTER_OPEN.
  rewrite rx_Lit. destruct (is_prefix CHAPTER_OPEN a); [|reflexivity].
  cbv zeta. set (rest := skipn (length CHAPTER_OPEN) a).
  rewrite star_greedy_stop.
  - rewrite (span_ext _ not_brace rest (in_NOT_BRACE false)).
    pose proof (span_app not_brace rest) as Happ.
    pose proof (span_stop not_brace rest) as Hstop.
    destruct (span not_brace rest) as [x r0]. cbn [fst snd] in *.
    destruct r0 as [|c a']; [reflexivity|].
    specialize (Hstop c a' eq_refl). cbn [in_cset].
    unfold not_brace in Hstop. apply negb_false_iff in Hstop. rewrite Hstop.
    unfold accept. rewrite <- Happ, firstn_consumed. reflexivity.
  - intros b' c a' Hc. rewrite in_NOT_BRACE in Hc. cbn [rx in_cset].
    apply negb_true_iff in Hc. rewrite Hc. reflexivity.
Qed.

Lemma chapter_match_marker b t rest :
  mem 125 t = false ->
  match_at false chapter_pattern b (marker t ++ rest)
  = Some (rev (marker t) ++ b, rest, [(1%nat, t)]).
Proof.
  intros Ht. rewrite chapter_match. unfold marker. rewrite <- app_assoc.
  rewrite is_prefix_app_same, drop_app_length. cbv zeta.
  assert (Hall : forallb not_brace t = true).
  { clear -Ht. induction t as [|c t IH]; [reflexivity|]. cbn [mem forallb] in *.
    apply orb_false_iff in Ht as [Hc Ht]. unfold not_brace at 1.
    rewrite N.eqb_sym, Hc. cbn [negb andb]. auto. }
  rewrite <- app_assoc. cbn [app].
  rewrite (span_prefix not_brace t 125 rest Hall eq_refl). cbn [fst snd].
  rewrite !rev_app_distr. cbn [rev app]. rewrite <- !app_assoc. reflexivity.
Qed.

Lemma chapter_quiet b u rest :
  contains CHAPTER_OPEN u = false -> cannot_enter CHAPTER_OPEN rest ->
  quiet false chapter_pattern b u rest.
Proof.
  apply quiet_without. intros b' a H. rewrite chapter_match, H. reflexivity.
Qed.

(** A buffer of headed chapters: each item is a title and the text up to
    the next heading. *)
Fixpoint chapters_text (chs : list (str * str)) : str :=
  match chs with
  | [] => []
  | (t, body) :: chs' => marker t ++ body ++ chapters_text chs'
  end.

Definition headed (ch : str * str) : Prop :=
  mem 125 ch.1 = false /\ contains CHAPTER_OPEN ch.2 = false.

(** The matches [re.finditer] yields over such a buffer, the first one at
    position [pos]. *)
Fixpoint markers_at (pos : nat) (chs : list (str * str)) : list match_obj :=
  match chs with
  | [] => []
  | (t, body) :: chs' =>
      {| m_start := pos; m_end := pos + length (marker t); m_groups := [(1%nat, t)] |}
      :: markers_at (pos + length (marker t) + length body) chs'
  end.

Lemma chapters_text_enter chs : cannot_enter CHAPTER_OPEN (chapters_text chs).
Proof. destruct chs as [|[t body] chs]; [exact I|reflexivity]. Qed.

Lemma marker_nonempty t : marker t <> [].
Proof. discriminate. Qed.

Lemma finditer_chapters chs : forall b,
  Forall headed chs ->
  finditer_loop chapter_pattern 0 b (chapters_text chs) = markers_at (length b) chs.
Proof.
  induction chs as [|[t body] chs IH]; intros b Hall; [reflexivity|].
  apply Forall_cons in Hall as [[Ht Hbody] Hall]. cbn [fst snd] in *.
  cbn [chapters_text markers_at].
  rewrite (finditer_loop_hit _ _ _ _ _ (marker_nonempty t)
             (chapter_match_marker b t (body ++ chapters_text chs) Ht)).
  f_equal.
  rewrite finditer_loop_quiet
    by (apply chapter_quiet; [exact Hbody|apply chapters_text_enter]).
  rewrite IH by exact Hall. f_equal.
  rewrite !length_app, !length_rev. lia.
Qed.

(** The entries the splitter builds for a buffer of headed chapters,
    numbered from [i + 1]. *)
Fixpoint entries_from (i : nat) (chs : list (str * str)) : list (nat * str) :=
  match chs with
  | [] => []
  | (t, body) :: chs' => (S i, marker t ++ rstrip body) :: entries_from (S i) chs'
  end.

Lemma slice_middle (pre x rest : str) :
  slice (length pre) (length pre + length x) (pre ++ x ++ rest) = x.
Proof.
  unfold slice. rewrite drop_app_length.
  replace (length pre + length x - length pre)%nat with (length x) by lia.
  apply take_app_length.
Qed.

Lemma marker_app t body : marker t ++ body = (CHAPTER_OPEN ++ t) ++ 125 :: body.
Proof. unfold marker. rewrite <- !app_assoc. reflexivity. Qed.

Lemma strip_marker t body : strip (marker t ++ body) = marker t ++ rstrip body.
Proof.
  unfold strip.
  assert (Hl : lstrip (marker t ++ body) = marker t ++ body) by reflexivity.
  rewrite Hl, !marker_app. apply rstrip_app_nonspace. reflexivity.
Qed.

Lemma chapter_entries_markers chs : forall pre i,
  chapter_entries (pre ++ chapters_text chs) i (markers_at (length pre) chs)
  = entries_from i chs.
Proof.
  induction chs as [|[t body] chs IH]; intros pre i; [reflexivity|].
  cbn [chapters_text markers_at chapter_entries entries_from m_start].
  f_equal.
  - f_equal; [lia|].
    replace (match markers_at (length pre + length (marker t) + length body) chs with
             | [] => length (pre ++ marker t ++ body ++ chapters_text chs)
             | m' :: _ => m_start m'
             end) with (length pre + length (marker t ++ body))%nat.
    + rewrite (app_assoc (marker t)), slice_middle. apply strip_marker.
    + destruct chs as [|[t' body'] chs]; cbn [markers_at m_start chapters_text];
        rewrite !length_app; cbn [length]; lia.
  - specialize (IH (pre ++ marker t ++ body) (S i)).
    rewrite <- !app_assoc in IH. rewrite !length_app in IH.
    rewrite Nat.add_assoc in IH. exact IH.
Qed.

(** The splitter on a buffer of headed chapters behind a frontmatter. *)
Lemma split_chapters front chs :
  contains CHAPTER_OPEN front = false ->
  Forall headed chs ->
  chs <> [] ->
  split_into_chapters (front ++ chapters_text chs)
  = (entries_from 0 chs,
     match strip front with
     | [] => []
     | _ :: _ => [InfoFrontmatter (length (strip front))]
     end).
Proof.
  intros Hfront Hall Hne. unfold split_into_chapters, re_finditer.
  rewrite finditer_loop_quiet
    by (apply chapter_quiet; [exact Hfront|apply chapters_text_enter]).
  rewrite finditer_chapters by exact Hall.
  rewrite app_nil_r, length_rev.
  destruct chs as [|[t body] chs]; [congruence|].
  cbn [markers_at m_start].
  change ({| m_start := length front; m_end := length front + length (marker t);
             m_groups := [(1%nat, t)] |}
          :: markers_at (length front + length (marker t) + length body) chs)
    with (markers_at (length front) ((t, body) :: chs)).
  rewrite chapter_entries_markers. f_equal.
  unfold slice. rewrite Nat.sub_0_r, drop_0, take_app_length. reflexivity.
Qed.

Lemma entries_from_keys chs : forall i,
  map fst (entries_from i chs) = seq (S i) (length chs).
Proof.
  induction chs as [|[t body] chs IH]; intros i; [reflexivity|].
  cbn [entries_from map fst length seq]. rewrite IH. reflexivity.
Qed.

Lemma entries_from_lookup chs : forall i j t body,
  chs !! j = Some (t, body) ->
  entries_from i chs !! j = Some (S (i + j), marker t ++ rstrip body).
Proof.
  induction chs as [|[t' body'] chs IH]; intros i j t body H; [discriminate|].
  destruct j as [|j]; cbn [entries_from].
  - injection H as -> ->. rewrite Nat.add_0_r. reflexivity.
  - change (entries_from (S i) chs !! j = Some (S (i + S j), marker t ++ rstrip body)).
    rewrite (IH (S i) j t body H). do 2 f_equal. lia.
Qed.

Lemma chapter_entries_keys content ms : forall i,
  map fst (chapter_entries content i ms) = seq (i + 1) (length ms).
Proof.
  induction ms as [|m ms IH]; intros i; [reflexivity|].
  cbn [chapter_entries map fst length seq]. rewrite IH.
  replace (S i + 1)%nat with (S (i + 1)) by lia. reflexivity.
Qed.

(** The keys of the dictionary the splitter returns are distinct. *)
Lemma split_keys_NoDup content : NoDup (map fst (split_into_chapters content).1).
Proof.
  unfold split_into_chapters.
  destruct (re_finditer chapter_pattern content) as [|m ms] eqn:E.
  - cbn. apply NoDup_singleton.
  - cbn [fst]. rewrite chapter_entries_keys. apply NoDup_seq.
Qed.

(** The files a turn of the save loop leaves depend on the files alone. *)
Lemma save_chapter_files_ext now e w w' :
  files w = files w' -> files (save_chapter now w e) = files (save_chapter now w' e).
Proof.
  intros E. destruct e as [n c]. unfold save_chapter.
  destruct (CHAPTERS !! n) as [cfg|]; cbn [print files]; rewrite E; reflexivity.
Qed.

Lemma save_chapters_files_ext now chapters : forall w w',
  files w = files w' ->
  files (save_chapters now chapters w) = files (save_chapters now chapters w').
Proof.
  induction chapters as [|e chapters IH]; intros w w' E; [exact E|].
  unfold save_chapters in *. cbn [fold_left].
  apply IH, save_chapter_files_ext, E.
Qed.

Lemma process_and_save_files now content w :
  files (process_and_save now content w)
  = files (save_chapters now (split_into_chapters (transform content)).1 w).
Proof.
  unfold process_and_save.
  destruct (split_into_chapters (transform content)) as [chapters msgs]. cbn [fst].
  apply save_chapters_files_ext. reflexivity.
Qed.

(** ** A run up to a closing character *)

Lemma ci_eq_nonletter p c : is_ascii_letter p = false -> ci_eq p c = (c =? p).
Proof. intros H. unfold ci_eq. rewrite H. apply orb_false_r. Qed.

Lemma in_One_nonletter ic p c :
  is_ascii_letter p = false -> in_cset ic (One p) c = (c =? p).
Proof.
  intros H. destruct ic; cbn [in_cset]; [apply ci_eq_nonletter, H|reflexivity].
Qed.

Lemma in_not_char ic x c : in_cset ic (Class true [CChar x]) c = negb (c =? x).
Proof. cbn. rewrite orb_false_r. reflexivity. Qed.

Lemma forallb_not_char x t :
  mem x t = false -> forallb (fun c => negb (c =? x)) t = true.
Proof.
  induction t as [|c t IH]; [reflexivity|]. cbn [mem forallb].
  intros H. apply orb_false_iff in H as [Hc Ht].
  rewrite N.eqb_sym, Hc. cbn [negb andb]. auto.
Qed.

(** The pattern "[^x]*x" on a text whose first [x] comes after [t]. *)
Lemma rx_until ic x r t rest b g k :
  is_ascii_letter x = false ->
  mem x t = false ->
  rx ic (Seq (Star (Class true [CChar x])) (Seq (Chr (One x)) r)) b (t ++ x :: rest) g k
  = rx ic r (x :: rev t ++ b) rest g k.
Proof.
  intros Hx Ht. cbn [rx]. rewrite star_greedy_stop.
  - rewrite (span_ext _ (fun c => negb (c =? x)) _ (in_not_char ic x)).
    rewrite (span_prefix _ t x rest (forallb_not_char x t Ht))
      by (rewrite N.eqb_refl; reflexivity).
    cbn [fst snd]. rewrite in_One_nonletter, N.eqb_refl by exact Hx. reflexivity.
  - intros b' c a' Hc. rewrite in_not_char in Hc. apply negb_true_iff in Hc.
    rewrite in_One_nonletter, Hc by exact Hx. reflexivity.
Qed.

(** The same with the run captured as group [n]. *)
Lemma rx_until_group ic x n r t rest b g k :
  is_ascii_letter x = false ->
  mem x t = false ->
  rx ic (Seq (Group n (Star (Class true [CChar x]))) (Seq (Chr (One x)) r))
     b (t ++ x :: rest) g k
  = rx ic r (x :: rev t ++ b) rest ((n, t) :: g) k.
Proof.
  intros Hx Ht. cbn [rx]. rewrite star_greedy_stop.
  - rewrite (span_ext _ (fun c => negb (c =? x)) _ (in_not_char ic x)).
    rewrite (span_prefix _ t x rest (forallb_not_char x t Ht))
      by (rewrite N.eqb_refl; reflexivity).
    cbn [fst snd]. rewrite in_One_nonletter, N.eqb_refl by exact Hx.
    rewrite firstn_consumed. reflexivity.
  - intros b' c a' Hc. rewrite in_not_char in Hc. apply negb_true_iff in Hc.
    rewrite in_One_nonletter, Hc by exact Hx. reflexivity.
Qed.

(** ** The quote rule *)

Lemma quoted_span_match b inner rest :
  mem DQUOTE inner = false ->
  match_at false quoted_span b (DQUOTE :: inner ++ DQUOTE :: rest)
  = Some (DQUOTE :: rev inner ++ DQUOTE :: b, rest, [(1%nat, inner)]).
Proof.
  intros H. unfold match_at, quoted_span. cbn [Concat].
  change (rx false (Seq (Chr (One DQUOTE)) ?r) b (DQUOTE :: ?a) [] accept)
    with (rx false r (DQUOTE :: b) a [] accept).
  rewrite rx_until_group by (reflexivity || exact H). reflexivity.
Qed.

(** Whatever stands between two straight quotes, the rule writes the
    same seven characters for the span: the template's [\\1] is a
    backslash and the digit 1, not the first group. *)
Lemma quoted_span_content_dropped inner :
  mem DQUOTE inner = false ->
  re_sub false quoted_span (text "``\\1''") (DQUOTE :: inner ++ [DQUOTE])
  = text "``\1''".
Proof.
  intros H. unfold re_sub.
  rewrite <- (app_nil_r (DQUOTE :: inner ++ [DQUOTE])).
  erewrite sub_loop_hit; [reflexivity|reflexivity|discriminate|].
  rewrite app_nil_r. apply quoted_span_match, H.
Qed.

(** ** The first-section rule *)

Definition INTRODUCTION_TEXT : str :=
  text "\chapter{Introduction}" ++ [LF] ++ text "\label{ch:introduction}" ++ [LF; LF]
  ++ text "\section{Background and Significance}" ++ [LF]
  ++ text "\label{sec:background-and-significance}".

Lemma literal_match w b rest :
  match_at false (Lit w) b (w ++ rest) = Some (rev w ++ b, rest, []).
Proof.
  unfold match_at. rewrite rx_Lit, is_prefix_app_same, drop_app_length. reflexivity.
Qed.

Lemma literal_quiet w b u rest :
  contains w u = false -> cannot_enter w rest -> quiet false (Lit w) b u rest.
Proof.
  apply quiet_without. intros b' a H. unfold match_at. rewrite rx_Lit, H. reflexivity.
Qed.

Lemma insert_introduction_first pre post :
  contains FIRST_SECTION pre = false ->
  contains (text "\chapter{Introduction}") (pre ++ FIRST_SECTION ++ post) = false ->
  insert_introduction (pre ++ FIRST_SECTION ++ post) = pre ++ INTRODUCTION_TEXT ++ post.
Proof.
  intros Hpre Hintro. unfold insert_introduction. rewrite Hintro.
  assert (Hc : contains FIRST_SECTION (pre ++ FIRST_SECTION ++ post) = true)
    by (apply contains_spec; eauto).
  rewrite Hc. cbn [andb negb]. unfold re_sub_count.
  rewrite sub_loop_quiet by (apply literal_quiet; [exact Hpre|reflexivity]).
  f_equal.
  rewrite (sub_loop_hit false (Lit FIRST_SECTION) INTRODUCTION_TEMPLATE (Some 1%nat)
             _ FIRST_SECTION post _ [] eq_refl ltac:(discriminate)
             (literal_match FIRST_SECTION _ post)).
  cbn [dec_limit Nat.pred]. rewrite sub_loop_exhausted. reflexivity.
Qed.

(** ** Occurrences under IGNORECASE *)

Fixpoint ci_contains (w s : str) : bool :=
  ci_prefix w s || match s with [] => false | _ :: s' => ci_contains w s' end.

Lemma ci_contains_false_prefix w s : ci_contains w s = false -> ci_prefix w s = false.
Proof. destruct s; cbn; intros H; apply orb_false_iff in H as [H _]; exact H. Qed.

Lemma ci_contains_false_suffix w u v :
  ci_contains w (u ++ v) = false -> ci_contains w v = false.
Proof.
  induction u as [|c u IH]; [auto|].
  cbn [app ci_contains]. intros H. apply orb_false_iff in H as [_ H]. auto.
Qed.

Lemma ci_prefix_app w1 : forall w2 a,
  ci_prefix (w1 ++ w2) a = ci_prefix w1 a && ci_prefix w2 (skipn (length w1) a).
Proof.
  induction w1 as [|x w1 IH]; intros w2 a; [reflexivity|].
  destruct a as [|c a]; [reflexivity|].
  cbn [app ci_prefix length skipn]. rewrite IH, andb_assoc. reflexivity.
Qed.

Lemma ci_prefix_refl w r :
  (forall c, In c w -> (c <? 128) = true) -> ci_prefix w (w ++ r) = true.
Proof.
  induction w as [|x w IH]; intros H; [reflexivity|].
  cbn [app ci_prefix]. rewrite IH by (intros c Hc; apply H; right; exact Hc).
  unfold ci_eq. rewrite N.eqb_refl. reflexivity.
Qed.

(** The literal lies in the first part of a concatenation, or runs out of
    it into the second. *)
Lemma ci_prefix_split w : forall v rest,
  ci_prefix w (v ++ rest) = true ->
  ci_prefix w v = true
  \/ exists w1 w2, w = w1 ++ w2 /\ length w1 = length v /\ w2 <> []
                   /\ ci_prefix w2 rest = true.
Proof.
  induction w as [|x w IH]; intros v rest H; [left; reflexivity|].
  destruct v as [|c v].
  - right. exists [], (x :: w). auto.
  - cbn [app ci_prefix] in *. apply andb_true_iff in H as [Hx H].
    rewrite Hx. cbn [andb].
    destruct (IH _ _ H) as [Hl|(w1 & w2 & -> & Hlen & Hne & Hp)]; [left; exact Hl|].
    right. exists (x :: w1), w2. cbn [length app]. auto.
Qed.

Definition cannot_enter_ci (w rest : str) : Prop :=
  match rest with
  | [] => True
  | c :: _ => existsb (fun p => ci_eq p c) (tl w) = false
  end.

Lemma no_start_ci w u rest :
  ci_contains w u = false -> cannot_enter_ci w rest ->
  forall u1 c u2, u = u1 ++ c :: u2 -> ci_prefix w (c :: u2 ++ rest) = false.
Proof.
  intros Hc Hrest u1 c u2 ->.
  destruct (ci_prefix w (c :: u2 ++ rest)) eqn:E; [|reflexivity].
  apply ci_contains_false_suffix, ci_contains_false_prefix in Hc.
  apply (ci_prefix_split w (c :: u2) rest) in E
    as [E|(w1 & w2 & -> & Hlen & Hne & Hp)]; [congruence|].
  destruct w2 as [|d w2]; [congruence|]. destruct rest as [|e rest]; [discriminate|].
  cbn [ci_prefix] in Hp. apply andb_true_iff in Hp as [Hd _].
  destruct w1 as [|p w1]; [discriminate|].
  cbn [cannot_enter_ci app tl] in Hrest.
  assert (existsb (fun p => ci_eq p e) (w1 ++ d :: w2) = true).
  { apply existsb_exists. exists d. split; [|exact Hd].
    apply in_app_iff. right. left. reflexivity. }
  congruence.
Qed.

Lemma quiet_without_ci ic r w b u rest :
  (forall b a, ci_prefix w a = false -> match_at ic r b a = None) ->
  ci_contains w u = false -> cannot_enter_ci w rest ->
  quiet ic r b u rest.
Proof.
  intros Hr Hc Hrest u1 c u2 E. apply Hr. eapply no_start_ci; eauto.
Qed.

Lemma quiet_app ic r b u v rest :
  quiet ic r b u (v ++ rest) -> quiet ic r (rev u ++ b) v rest ->
  quiet ic r b (u ++ v) rest.
Proof.
  revert b. induction u as [|c u IH]; intros b Hu Hv; [exact Hv|].
  apply quiet_inv in Hu as [H0 Hu]. cbn [app]. apply quiet_cons.
  - rewrite <- app_assoc. exact H0.
  - apply IH; [exact Hu|]. cbn [rev] in Hv. rewrite <- app_assoc in Hv. exact Hv.
Qed.

(** The scan returns a text in which the pattern is quiet as it is. *)
Lemma re_sub_quiet ic r t s :
  quiet ic r [] s [] -> match_at ic r (rev s) [] = None -> re_sub ic r t s = s.
Proof.
  intros H Hend. unfold re_sub. rewrite <- (app_nil_r s) at 1.
  rewrite sub_loop_quiet by exact H. cbn [sub_loop exhausted].
  rewrite app_nil_r, Hend. apply app_nil_r.
Qed.

(** Where the pattern matches somewhere, a template without group
    references leaves its text in the result. *)
Lemma sub_loop_some_match ic r t T :
  (forall g, expand t g = T) ->
  forall u b v,
  match_at ic r (rev u ++ b) v <> None ->
  exists s1 s2, sub_loop ic r t None 0 b (u ++ v) = s1 ++ T ++ s2.
Proof.
  intros HT. induction u as [|c u IH]; intros b v Hm.
  - cbn [rev app] in *. destruct v as [|c v]; cbn [sub_loop exhausted].
    + destruct (match_at ic r b []) as [[[b1 a1] g]|]; [|congruence].
      exists [], []. rewrite HT. reflexivity.
    + destruct (match_at ic r b (c :: v)) as [[[b1 a1] g]|]; [|congruence].
      rewrite HT. exists []. eexists. reflexivity.
  - cbn [rev] in Hm. rewrite <- app_assoc in Hm. cbn [app] in Hm.
    cbn [app sub_loop exhausted].
    destruct (match_at ic r b (c :: u ++ v)) as [[[b1 a1] g]|].
    + rewrite HT. exists []. eexists. reflexivity.
    + destruct (IH (c :: b) v Hm) as (s1 & s2 & ->). exists (c :: s1), s2. reflexivity.
Qed.

(** ** The promotion of bold titles *)

Definition BOLD_OPEN : str := text "\textbf{".

Lemma bold_title_needs title b a :
  ci_prefix (BOLD_OPEN ++ text title) a = false ->
  match_at true (bold_title title) b a = None.
Proof.
  intros H. rewrite ci_prefix_app in H.
  unfold match_at, bold_title. cbn [Concat rx]. fold BOLD_OPEN.
  rewrite rx_Lit_ci. destruct (ci_prefix BOLD_OPEN a); [|reflexivity].
  cbn [andb] in H. rewrite rx_Lit_ci, H. reflexivity.
Qed.

Lemma bold_title_opens title b a :
  ci_prefix BOLD_OPEN a = false -> match_at true (bold_title title) b a = None.
Proof.
  intros H. apply bold_title_needs. rewrite ci_prefix_app, H. reflexivity.
Qed.

Lemma bold_title_match title b x rest :
  forallb (fun c => c <? 128) (text title) = true ->
  mem 125 x = false ->
  match_at true (bold_title title) b ((BOLD_OPEN ++ text title) ++ x ++ 125 :: rest)
  = Some (125 :: rev x ++ rev (BOLD_OPEN ++ text title) ++ b, rest, []).
Proof.
  intros Hascii Hx. unfold match_at, bold_title. cbn [Concat]. fold BOLD_OPEN.
  rewrite <- !app_assoc, rx_Seq, rx_Lit_ci.
  rewrite ci_prefix_refl by (intros c Hc; repeat destruct Hc as [<-|Hc]; easy).
  rewrite take_app_length, drop_app_length. cbv beta.
  rewrite rx_Seq, rx_Lit_ci.
  rewrite ci_prefix_refl by (intros c Hc; eapply forallb_forall in Hascii; eauto).
  rewrite take_app_length, drop_app_length. cbv beta.
  unfold NOT_BRACE. rewrite rx_until by (reflexivity || exact Hx).
  cbn [rx accept]. rewrite rev_app_distr, <- !app_assoc. reflexivity.
Qed.

Definition COLLOIDS_BOLD : str := text "\textbf{Colloids".

Definition COLLOIDS_HEADING : str :=
  text "\section{Colloids}" ++ [LF] ++ text "\label{sec:colloids}".

Lemma colloids_template g :
  expand (heading_template "section" "sec" "Colloids") g = COLLOIDS_HEADING.
Proof. reflexivity. Qed.

(** ** The acronym patterns *)

Lemma in_SPACES ic c : in_cset ic SPACES c = is_space c.
Proof. cbn. rewrite orb_false_r. reflexivity. Qed.

Lemma ci_prefix_length w : forall a, ci_prefix w a = true -> (length w <= length a)%nat.
Proof.
  induction w as [|x w IH]; intros a H; cbn [length]; [lia|].
  destruct a as [|c a]; [discriminate|]. cbn [ci_prefix length] in *.
  apply andb_true_iff in H as [_ H]. apply IH in H. lia.
Qed.

Lemma mem_skipn c n : forall u, mem c u = false -> mem c (skipn n u) = false.
Proof.
  induction n as [|n IH]; intros u H; [exact H|].
  destruct u as [|x u]; [reflexivity|]. cbn [skipn]. cbn [mem] in H.
  apply orb_false_iff in H as [_ H]. auto.
Qed.

(** Where the run of [p] ends in [v ++ rest], with [rest] not opening with
    a character of [p]. *)
Lemma span_head_in p v rest c a' :
  match rest with [] => True | e :: _ => p e = false end ->
  (span p (v ++ rest)).2 = c :: a' ->
  In c v \/ (exists r, rest = c :: r).
Proof.
  intros Hrest. induction v as [|d v IH]; cbn [app].
  - destruct rest as [|e r']; [discriminate|]. cbn [span]. rewrite Hrest. cbn [snd].
    intros [= -> ->]. right. eauto.
  - cbn [span]. destruct (p d).
    + destruct (span p (v ++ rest)) as [x r0]. cbn [snd] in *. intros H.
      destruct (IH H) as [Hin|Hr]; [left; right; exact Hin|right; exact Hr].
    + cbn [snd]. intros [= -> _]. left. left. reflexivity.
Qed.

(** What may follow a stretch without an opening parenthesis for the
    full form not to reach over it. *)
Definition blocked (full rest : str) : Prop :=
  match rest with
  | [] => True
  | e :: _ => cannot_enter_ci full rest /\ is_space e = false /\ (e =? 40) = false
  end.

(** The full-form pattern needs an opening parenthesis: it finds no match
    that starts in a stretch without one. *)
Lemma full_form_none short full b v rest :
  mem 40 v = false ->
  blocked (text full) rest ->
  v <> [] \/ rest = [] ->
  match_at true (full_form short full) b (v ++ rest) = None.
Proof.
  intros Hv Hrest Hne. unfold match_at, full_form. cbn [Concat].
  rewrite rx_Seq, rx_Lit_ci.
  destruct (ci_prefix (text full) (v ++ rest)) eqn:E; [|reflexivity].
  apply ci_prefix_split in E as [E|(w1 & w2 & Hw & Hlen & Hw2 & Hp)].
  - apply ci_prefix_length in E. cbv beta.
    rewrite skipn_app. replace (length (text full) - length v)%nat with 0%nat by lia.
    rewrite drop_0, rx_Seq. cbn [rx]. rewrite star_greedy_stop.
    + rewrite (span_ext _ is_space _ (in_SPACES true)).
      destruct (span is_space (skipn (length (text full)) v ++ rest)).2 as [|c a'] eqn:Es;
        [reflexivity|].
      rewrite in_One_nonletter by reflexivity.
      replace (c =? 40) with false; [reflexivity|]. symmetry.
      apply span_head_in in Es as [Hin|[r ->]].
      * destruct (c =? 40) eqn:Ec; [|reflexivity]. apply N.eqb_eq in Ec. subst c.
        apply mem_spec in Hin. rewrite (mem_skipn _ _ _ Hv) in Hin. discriminate.
      * apply Hrest.
      * destruct rest; [exact I|apply Hrest].
    + intros b' c a' Hc. rewrite in_SPACES in Hc. rewrite in_One_nonletter by reflexivity.
      destruct (c =? 40) eqn:Ec; [|reflexivity]. apply N.eqb_eq in Ec. subst c. discriminate.
  - exfalso. destruct rest as [|e rest].
    + destruct w2; [congruence|discriminate].
    + destruct Hne as [Hne|Hne]; [|discriminate].
      destruct v as [|d v]; [congruence|]. destruct w1 as [|p w1]; [discriminate|].
      destruct w2 as [|q w2]; [congruence|].
      cbn [ci_prefix] in Hp. apply andb_true_iff in Hp as [Hq _].
      destruct Hrest as [Hce _]. cbn [cannot_enter_ci] in Hce. rewrite Hw in Hce.
      cbn [app tl] in Hce.
      assert (existsb (fun p => ci_eq p e) (w1 ++ q :: w2) = true).
      { apply existsb_exists. exists q. split; [|exact Hq].
        apply in_app_iff. right. left. reflexivity. }
      congruence.
Qed.

Lemma full_form_quiet short full b u rest :
  mem 40 u = false -> blocked (text full) rest ->
  quiet true (full_form short full) b u rest.
Proof.
  intros Hu Hrest u1 c u2 ->. rewrite app_comm_cons.
  apply full_form_none; [|exact Hrest|left; discriminate].
  rewrite mem_app in Hu. apply orb_false_iff in Hu as [_ Hu]. exact Hu.
Qed.

(** A text without an opening parenthesis introduces no acronym. *)
Lemma search_full_form_none short full s :
  mem 40 s = false -> re_search true (full_form short full) s = None.
Proof.
  intros H. unfold re_search. rewrite <- (app_nil_r s) at 1.
  rewrite search_loop_quiet by (apply full_form_quiet; [exact H|exact I]).
  cbn [search_loop].
  rewrite (full_form_none short full _ [] [] eq_refl I (or_intror eq_refl)). reflexivity.
Qed.

Lemma fold_acronym_no_paren s entry : mem 40 s = false -> fold_acronym s entry = s.
Proof.
  intros H. destruct entry as [short full]. unfold fold_acronym.
  rewrite search_full_form_none by exact H. reflexivity.
Qed.

Lemma fold_acronyms_no_paren l s :
  mem 40 s = false -> fold_left fold_acronym l s = s.
Proof.
  intros H. induction l as [|e l IH]; [reflexivity|].
  cbn [fold_left]. rewrite fold_acronym_no_paren by exact H. exact IH.
Qed.

Definition NRL : str := text "NRL".
Definition NRL_FULL : str := text "Natural Rubber Latex (NRL)".
Definition NRL_TAG : str := text "\ac{NRL}".

Lemma nrl_full_match b rest :
  match_at true (full_form "NRL" "Natural Rubber Latex") b (NRL_FULL ++ rest)
  = Some (rev NRL_FULL ++ b, rest, []).
Proof. reflexivity. Qed.

Lemma nrl_template g : expand (ac_template "NRL") g = NRL_TAG.
Proof. reflexivity. Qed.

(** [s] ends with [w]. *)
Definition ends_with (w s : str) : bool := is_prefix (rev w) (rev s).

Definition last_is_letter (s : str) : bool :=
  match rev s with
  | c :: _ => is_ascii_letter c
  | [] => false
  end.

(** What the two lookbehinds of the bare pattern ask of the text [s] that
    stands before a short form: it does not end with the opening of a tag,
    nor with a letter. *)
Definition free_before (s : str) : bool :=
  negb (ends_with (text "\ac{") s) && negb (last_is_letter s).

(** What its lookahead asks of the text that follows: no letter and no
    closing brace comes next. *)
Definition token_end (s : str) : bool :=
  match s with
  | [] => true
  | e :: _ => negb (is_ascii_letter e || (e =? 125))
  end.

Lemma behind_rev_literal w : forall bk,
  behind_rev false (map One w) bk = is_prefix w bk.
Proof.
  induction w as [|x w IH]; intros bk; [reflexivity|].
  destruct bk as [|c bk]; [reflexivity|].
  cbn [map behind_rev is_prefix in_cset]. rewrite IH, (N.eqb_sym c x). reflexivity.
Qed.

Lemma in_letters_or_brace c :
  in_cset false (Class false (ASCII_LETTERS ++ [CChar 125])) c
  = is_ascii_letter c || (c =? 125).
Proof.
  cbn [in_cset ASCII_LETTERS app existsb in_item xorb].
  unfold is_ascii_letter, is_ascii_upper, is_ascii_lower.
  destruct (between 65 90 c), (between 97 122 c), (c =? 125); reflexivity.
Qed.

Lemma in_letters c : in_cset false (Class false ASCII_LETTERS) c = is_ascii_letter c.
Proof.
  cbn [in_cset ASCII_LETTERS existsb in_item xorb].
  unfold is_ascii_letter, is_ascii_upper, is_ascii_lower.
  destruct (between 65 90 c), (between 97 122 c); reflexivity.
Qed.

(** The bare pattern as a test of the text behind, the literal and the
    character ahead. *)
Lemma bare_short_match short bk a :
  match_at false (bare_short short) bk a =
  if negb (is_prefix (rev (text "\ac{")) bk)
     && negb (match bk with c :: _ => is_ascii_letter c | [] => false end)
     && is_prefix (text short) a
     && token_end (skipn (length (text short)) a)
  then Some (rev (text short) ++ bk, skipn (length (text short)) a, [])
  else None.
Proof.
  unfold match_at, bare_short. cbn [Concat]. rewrite rx_Seq, rx_Behind.
  change (rev [One BACKSLASH; One 97; One 99; One 123])
    with (map One (rev (text "\ac{"))).
  rewrite behind_rev_literal.
  destruct (is_prefix (rev (text "\ac{")) bk); cbn [xorb negb andb]; [reflexivity|].
  rewrite rx_Seq, rx_Behind. cbn [rev app].
  replace (behind_rev false [Class false ASCII_LETTERS] bk)
    with (match bk with c :: _ => is_ascii_letter c | [] => false end)
    by (destruct bk as [|c bk]; [reflexivity|];
        cbn [behind_rev]; rewrite in_letters, andb_true_r; reflexivity).
  destruct (match bk with c :: _ => is_ascii_letter c | [] => false end);
    cbn [xorb negb andb]; [reflexivity|].
  rewrite rx_Seq, rx_Lit. destruct (is_prefix (text short) a); cbn [andb]; [|reflexivity].
  rewrite rx_Seq, rx_Ahead.
  destruct (skipn (length (text short)) a) as [|e a'] eqn:Ea; cbn [token_end rx].
  - reflexivity.
  - rewrite in_letters_or_brace.
    destruct (is_ascii_letter e || (e =? 125)); reflexivity.
Qed.

Lemma bare_short_needs short bk a :
  is_prefix (text short) a = false -> match_at false (bare_short short) bk a = None.
Proof.
  intros H. rewrite bare_short_match, H, andb_false_r. reflexivity.
Qed.

Lemma bare_short_quiet short bk u rest :
  contains (text short) u = false -> cannot_enter (text short) rest ->
  quiet false (bare_short short) bk u rest.
Proof. apply quiet_without. intros. apply bare_short_needs. assumption. Qed.

(** The test of the text behind, when that text is [s] after [x], and [x],
    if not empty, ends with a closing brace. *)
Definition closes (x : str) : Prop :=
  match x with
  | [] => True
  | e :: _ => e = 125
  end.

Lemma free_before_behind s x :
  free_before s = true -> closes x ->
  negb (is_prefix (rev (text "\ac{")) (rev s ++ x))
  && negb (match rev s ++ x with c :: _ => is_ascii_letter c | [] => false end)
  = true.
Proof.
  unfold free_before, ends_with, last_is_letter. intros H Hx.
  apply andb_true_iff in H as [H1 H2]. apply andb_true_iff. split.
  - apply negb_true_iff. apply negb_true_iff in H1.
    destruct (is_prefix (rev (text "\ac{")) (rev s ++ x)) eqn:E; [|reflexivity].
    apply is_prefix_app in E as [E|(w2 & Hw & Hne & Hp)]; [congruence|].
    destruct x as [|e x]; [destruct w2; [congruence|discriminate]|].
    cbn [closes] in Hx. subst e. exfalso.
    destruct w2 as [|d w2]; [congruence|]. cbn [is_prefix] in Hp.
    apply andb_true_iff in Hp as [Hd _]. apply N.eqb_eq in Hd. subst d.
    assert (Hin : In 125 (rev (text "\ac{")))
      by (rewrite Hw; apply in_app_iff; right; left; reflexivity).
    cbn in Hin. repeat destruct Hin as [Hin|Hin]; try discriminate. exact Hin.
  - destruct (rev s) as [|c r]; cbn [app]; [|exact H2].
    destruct x as [|e x]; [reflexivity|]. cbn [closes] in Hx. subst e. reflexivity.
Qed.

Lemma nrl_bare_match s x rest :
  free_before s = true -> closes x -> token_end rest = true ->
  match_at false (bare_short "NRL") (rev s ++ x) (NRL ++ rest)
  = Some (rev NRL ++ rev s ++ x, rest, []).
Proof.
  intros Hs Hx Hrest. rewrite bare_short_match.
  rewrite (free_before_behind s x Hs Hx).
  change (text "NRL") with NRL. rewrite is_prefix_app_same, drop_app_length, Hrest.
  reflexivity.
Qed.

Lemma search_loop_hit ic r b a res :
  match_at ic r b a = Some res -> search_loop ic r b a = Some res.
Proof. intros H. destruct a; cbn [search_loop]; rewrite H; reflexivity. Qed.

Lemma sub_loop_end ic r t limit b :
  match_at ic r b [] = None -> sub_loop ic r t limit 0 b [] = [].
Proof.
  intros H. cbn [sub_loop]. rewrite H. destruct (exhausted limit); reflexivity.
Qed.

(** The scan over a last stretch in which the pattern is quiet. *)
Lemma sub_loop_quiet_end ic r t limit b u :
  quiet ic r b u [] -> match_at ic r (rev u ++ b) [] = None ->
  sub_loop ic r t limit 0 b u = u.
Proof.
  intros Hq Hend. rewrite <- (app_nil_r u) at 1.
  rewrite sub_loop_quiet by exact Hq. rewrite sub_loop_end by exact Hend.
  apply app_nil_r.
Qed.

Lemma fold_left_cons {A B : Type} (f : A -> B -> A) x l s :
  fold_left f (x :: l) s = fold_left f l (f s x).
Proof. reflexivity. Qed.

Lemma replace_acronyms_head s :
  replace_acronyms s
  = fold_left fold_acronym (tl ACRONYMS) (fold_acronym s ("NRL", "Natural Rubber Latex")%string).
Proof.
  unfold replace_acronyms.
  change ACRONYMS with (("NRL", "Natural Rubber Latex")%string :: tl ACRONYMS) at 1.
  apply fold_left_cons.
Qed.

(** ** Substitution as rewriting

    What [re.sub] does to a text, told without the matcher: characters
    where the pattern finds nothing are kept ([K] holds there), and each
    match [x] ([M] holds of it, the text behind it and the text after it)
    gives way to the replacement [R]. *)

Section Rewriting.

Variables (K : str -> str -> Prop) (M : str -> str -> str -> Prop) (R : str).

Inductive rw : str -> str -> str -> Prop :=
| rw_nil b : rw b [] []
| rw_keep b c a o : K b (c :: a) -> rw (c :: b) a o -> rw b (c :: a) (c :: o)
| rw_hit b x a o : M b x a -> x <> [] -> rw (rev x ++ b) a o -> rw b (x ++ a) (R ++ o).

End Rewriting.

Lemma rw_impl (K K' : str -> str -> Prop) (M M' : str -> str -> str -> Prop) R b a o :
  (forall b s, K b s -> K' b s) -> (forall b x a, M b x a -> x <> [] -> M' b x a) ->
  rw K M R b a o -> rw K' M' R b a o.
Proof.
  intros HK HM H. induction H; [apply rw_nil|apply rw_keep; auto|apply rw_hit; auto].
Qed.

(** The pattern [r] never matches the empty text. *)
Definition consumes (ic : bool) (r : regex) : Prop :=
  forall b a b1 g, match_at ic r b a <> Some (b1, a, g).

(** [re.sub] with a template without group references is such a
    rewriting. *)
Lemma sub_loop_rw ic r t R :
  (forall g, expand t g = R) -> consumes ic r ->
  forall n a b, (length a <= n)%nat ->
  rw (fun b s => match_at ic r b s = None)
     (fun b x a => exists g, match_at ic r b (x ++ a) = Some (rev x ++ b, a, g))
     R b a (sub_loop ic r t None 0 b a).
Proof.
  intros Ht Hc. induction n as [|n IH]; intros a b Hn.
  - destruct a; [|cbn in Hn; lia]. cbn [sub_loop exhausted].
    destruct (match_at ic r b []) as [[[b1 a1] g]|] eqn:E; [|apply rw_nil].
    destruct (match_at_inv _ _ _ _ _ _ _ E) as (x & Hx & _).
    destruct x; [|discriminate]. cbn in Hx. subst a1. destruct (Hc _ _ _ _ E).
  - destruct (match_at ic r b a) as [[[b1 a1] g]|] eqn:E.
    + destruct (match_at_inv _ _ _ _ _ _ _ E) as (x & -> & ->).
      assert (Hx : x <> []) by (intros ->; apply (Hc _ _ _ _ E)).
      rewrite (sub_loop_hit ic r t None b x a1 _ g eq_refl Hx E), Ht. cbn [dec_limit].
      apply rw_hit; [eauto|exact Hx|].
      apply IH. rewrite length_app in Hn. destruct x; [congruence|cbn in Hn; lia].
    + destruct a as [|c a].
      * cbn [sub_loop exhausted]. rewrite E. apply rw_nil.
      * cbn [sub_loop exhausted]. rewrite E. apply rw_keep; [exact E|].
        apply IH. cbn in Hn. lia.
Qed.

Lemma re_sub_rw ic r t R s :
  (forall g, expand t g = R) -> consumes ic r ->
  rw (fun b s => match_at ic r b s = None)
     (fun b x a => exists g, match_at ic r b (x ++ a) = Some (rev x ++ b, a, g))
     R [] s (re_sub ic r t s).
Proof. intros Ht Hc. apply (sub_loop_rw ic r t R Ht Hc (length s)). lia. Qed.

(** The characters of the result come from the text or from the
    replacement. *)
Lemma rw_mem K M R b a o c :
  rw K M R b a o -> mem c a = false -> mem c R = false -> mem c o = false.
Proof.
  intros H Ha HR. induction H as [b|b d a o HK H IH|b x a o HM Hx H IH].
  - reflexivity.
  - cbn [mem] in *. apply orb_false_iff in Ha as [Hd Ha]. rewrite Hd. auto.
  - rewrite mem_app in *. apply orb_false_iff in Ha as [_ Ha]. rewrite HR. auto.
Qed.

(** ** Windows

    The patterns of the normalizer, the quoted span apart, look at a
    window of the text: the character behind ([w_prev]), a fixed number of
    characters ahead ([w_body]) and the character after those ([w_next]). *)

Record window := {
  w_prev : option N -> bool;
  w_body : list (N -> bool);
  w_next : option N -> bool;
}.

Fixpoint wmatch (T : list (N -> bool)) (nx : option N -> bool) (s : str) : bool :=
  match T with
  | [] => nx (head s)
  | P :: T' =>
      match s with
      | c :: s' => P c && wmatch T' nx s'
      | [] => false
      end
  end.

(** The window fits at a position: [p] is the character behind, [s] the
    text ahead. *)
Definition site (w : window) (p : option N) (s : str) : bool :=
  w_prev w p && wmatch (w_body w) (w_next w) s.

(** The window fits nowhere in [s], [p] being the character behind. *)
Fixpoint nosites (w : window) (p : option N) (s : str) : Prop :=
  site w p s = false /\
  match s with
  | [] => True
  | c :: s' => nosites w (Some c) s'
  end.

(** A mismatch between [T] and [r] inside [r]. *)
Fixpoint decided (T : list (N -> bool)) (r : str) : bool :=
  match T, r with
  | P :: T', c :: r' => negb (P c) || decided T' r'
  | _, _ => false
  end.

Lemma decided_wmatch T nx : forall r z, decided T r = true -> wmatch T nx (r ++ z) = false.
Proof.
  induction T as [|P T IH]; intros r z H; [discriminate|].
  destruct r as [|c r]; [discriminate|]. cbn [decided app wmatch] in *.
  apply orb_true_iff in H as [H|H].
  - apply negb_true_iff in H. rewrite H. reflexivity.
  - rewrite (IH _ _ H). apply andb_false_r.
Qed.

(** No window fits at a position inside the replacement: the character
    behind it rules it out, or the characters up to the end of the
    replacement do. *)
Fixpoint inner_ok (w : window) (prev : N) (r : str) : bool :=
  match r with
  | [] => true
  | c :: r' =>
      (negb (w_prev w (Some prev)) || decided (w_body w) r) && inner_ok w c r'
  end.

Definition R_ok (w : window) (R : str) : bool :=
  match R with
  | [] => false
  | c :: r => decided (w_body w) R && inner_ok w c r
  end.

Lemma last_cons_cons {A : Type} (x y : A) l : last (x :: y :: l) = last (y :: l).
Proof. reflexivity. Qed.

Lemma nosites_inner w o : forall r prev,
  inner_ok w prev r = true ->
  nosites w (last (prev :: r)) o ->
  nosites w (Some prev) (r ++ o).
Proof.
  induction r as [|c r IH]; intros prev Hr Ho; [exact Ho|].
  cbn [inner_ok] in Hr. apply andb_true_iff in Hr as [H1 H2].
  cbn [app nosites]. split.
  - unfold site. apply orb_true_iff in H1 as [H1|H1].
    + apply negb_true_iff in H1. rewrite H1. reflexivity.
    + rewrite (decided_wmatch _ _ (c :: r) o H1). apply andb_false_r.
  - rewrite last_cons_cons in Ho. exact (IH c H2 Ho).
Qed.

Lemma nosites_R w R o p :
  R_ok w R = true -> nosites w (last R) o -> nosites w p (R ++ o).
Proof.
  destruct R as [|c r]; [discriminate|]. cbn [R_ok]. intros H Ho.
  apply andb_true_iff in H as [H1 H2]. cbn [app nosites]. split.
  - unfold site. rewrite (decided_wmatch _ _ (c :: r) o H1). apply andb_false_r.
  - exact (nosites_inner w o r c H2 Ho).
Qed.

Lemma head_rev_last (x b : str) : x <> [] -> head (rev x ++ b) = last x.
Proof.
  intros Hx. destruct (exists_last Hx) as (x' & c & ->).
  rewrite rev_app_distr, last_snoc. reflexivity.
Qed.

Lemma nosites_drop w : forall x p a,
  x <> [] -> nosites w p (x ++ a) -> nosites w (last x) a.
Proof.
  induction x as [|c x IH]; intros p a Hx H; [congruence|].
  cbn [app nosites] in H. destruct H as [_ H].
  destruct x as [|d x]; [exact H|].
  rewrite last_cons_cons. apply (IH (Some c)); [discriminate|exact H].
Qed.

Section Window.

Variables (w : window) (K : str -> str -> Prop) (M : str -> str -> str -> Prop) (R : str).
Variables (P0 : N -> bool) (T0 : list (N -> bool)).

Hypothesis body : w_body w = P0 :: T0.
Hypothesis HR : R_ok w R = true.

(** A window that starts on kept characters cannot run into a
    replacement. *)
Hypothesis Hleft : forall pre P T b x a c,
  w_body w = pre ++ P :: T -> T <> [] ->
  M b x a -> head b = Some c -> P c = true -> decided T R = true.

(** If the replacement may follow a window, so may the match. *)
Hypothesis Hnext : forall b x a,
  M b x a -> w_next w (head R) = true -> w_next w (head x) = true.

(** If the replacement may stand behind a window, so may the match. *)
Hypothesis Hprev : forall b x a c a',
  M b x a -> a = c :: a' -> P0 c = true ->
  w_prev w (last R) = true -> w_prev w (last x) = true.

Lemma R_nonempty : R <> [].
Proof. intros ->. discriminate. Qed.

Lemma wmatch_back b a o :
  rw K M R b a o ->
  forall pre P T c,
  w_body w = pre ++ P :: T -> head b = Some c -> P c = true ->
  wmatch T (w_next w) o = true -> wmatch T (w_next w) a = true.
Proof.
  induction 1 as [b|b d a o HK H IH|b x a o HM Hx H IH]; intros pre P T c Hw Hb HP Ho.
  - exact Ho.
  - destruct T as [|P' T]; [exact Ho|]. cbn [wmatch] in *.
    apply andb_true_iff in Ho as [Hd Ho]. rewrite Hd. cbn [andb].
    apply (IH (pre ++ [P]) P' T d); [rewrite <- app_assoc; exact Hw|reflexivity|exact Hd|exact Ho].
  - destruct T as [|P' T].
    + cbn [wmatch] in *. pose proof R_nonempty as HRne.
      destruct R as [|r0 R']; [congruence|]. destruct x as [|x0 x']; [congruence|].
      cbn [app head] in *. apply (Hnext b (x0 :: x') a HM Ho).
    + rewrite (decided_wmatch _ _ R o) in Ho; [discriminate|].
      apply (Hleft pre P (P' :: T) b x a c Hw ltac:(discriminate) HM Hb HP).
Qed.

(** The window fits nowhere in the result of a rewriting that keeps only
    characters at which it does not fit. *)
Lemma rw_nosites b a o :
  (forall b s, K b s -> site w (head b) s = false) ->
  rw K M R b a o ->
  forall p,
  (forall c a', a = c :: a' -> P0 c = true -> w_prev w p = true ->
                w_prev w (head b) = true) ->
  nosites w p o.
Proof.
  intros HK. induction 1 as [b|b d a o Hd H IH|b x a o HM Hx H IH]; intros p Hp.
  - cbn [nosites]. split; [|exact I]. unfold site. rewrite body. apply andb_false_r.
  - cbn [nosites]. split.
    + destruct (site w p (d :: o)) eqn:E; [|reflexivity]. exfalso.
      unfold site in E. rewrite body in E. cbn [wmatch] in E.
      apply andb_true_iff in E as [E1 E2]. apply andb_true_iff in E2 as [E2 E3].
      specialize (HK _ _ Hd). unfold site in HK. rewrite body in HK. cbn [wmatch] in HK.
      rewrite (Hp d a eq_refl E2 E1), E2 in HK.
      rewrite (wmatch_back _ _ _ H [] P0 T0 d body eq_refl E2 E3) in HK. discriminate.
    + apply IH. intros c a' _ _ Hc. exact Hc.
  - apply nosites_R; [exact HR|]. apply IH. intros c a' Ha Hc Hl.
    rewrite head_rev_last by exact Hx. apply (Hprev b x a c a' HM Ha Hc Hl).
Qed.

End Window.

(** [M] holds of every match of [r], and [r] never matches the empty
    text. *)
Definition pass (r : regex) (M : str -> str -> str -> Prop) : Prop :=
  consumes false r
  /\ (forall b x a g,
        match_at false r b (x ++ a) = Some (rev x ++ b, a, g) -> M b x a).

(** The window [w] tells where the pattern [r] matches. *)
Definition fits (r : regex) (w : window) : Prop :=
  forall b a, match_at false r b a = None <-> site w (head b) a = false.

(** The window [w] cannot come to fit when matches of which [M] holds give
    way to [R]. *)
Definition safe (w : window) (M : str -> str -> str -> Prop) (R : str) : Prop :=
  exists P0 T0,
    w_body w = P0 :: T0
    /\ R_ok w R = true
    /\ (forall pre P T b x a c,
          w_body w = pre ++ P :: T -> T <> [] ->
          M b x a -> head b = Some c -> P c = true -> decided T R = true)
    /\ (forall b x a, M b x a -> w_next w (head R) = true -> w_next w (head x) = true)
    /\ (forall b x a c a',
          M b x a -> a = c :: a' -> P0 c = true ->
          w_prev w (last R) = true -> w_prev w (last x) = true).

Lemma rw_of_pass r M t R s :
  pass r M -> (forall g, expand t g = R) ->
  rw (fun b s => match_at false r b s = None) M R [] s (re_sub false r t s).
Proof.
  intros (Hc & HM) Ht.
  eapply rw_impl; [| |apply (re_sub_rw false r t R s Ht Hc)].
  - intros b a H. exact H.
  - intros b x a [g H] Hx. eapply HM; eauto.
Qed.

Lemma rw_input_nosites w K M R b a o :
  rw K M R b a o -> nosites w (head b) a ->
  rw (fun b s => site w (head b) s = false) M R b a o.
Proof.
  induction 1 as [b|b d a o HK H IH|b x a o HM Hx H IH]; intros Hn.
  - apply rw_nil.
  - destruct Hn as [H1 H2]. apply rw_keep; [exact H1|]. apply IH, H2.
  - apply rw_hit; [exact HM|exact Hx|]. apply IH.
    rewrite head_rev_last by exact Hx. eapply nosites_drop; eauto.
Qed.

(** After its own pass a window fits nowhere. *)
Lemma window_eliminated r w M t R s :
  pass r M -> fits r w -> (forall g, expand t g = R) -> safe w M R ->
  nosites w None (re_sub false r t s).
Proof.
  intros Hm Hf Ht (P0 & T0 & Hb & HR & Hl & Hn & Hp).
  eapply (rw_nosites w _ M R P0 T0 Hb HR Hl Hn Hp [] s).
  - intros b a H. exact H.
  - eapply rw_impl; [| |apply (rw_of_pass r M t R s Hm Ht)].
    + intros b a H. apply Hf, H.
    + intros b x a H _. exact H.
  - intros c a' _ _ H. exact H.
Qed.

(** A later pass leaves it so. *)
Lemma window_preserved r M t R w s :
  pass r M -> (forall g, expand t g = R) -> safe w M R ->
  nosites w None s -> nosites w None (re_sub false r t s).
Proof.
  intros Hm Ht (P0 & T0 & Hb & HR & Hl & Hn & Hp) Hs.
  eapply (rw_nosites w _ M R P0 T0 Hb HR Hl Hn Hp [] s).
  - intros b a H. exact H.
  - apply (rw_input_nosites w _ M R [] s _ (rw_of_pass r M t R s Hm Ht) Hs).
  - intros c a' _ _ H. exact H.
Qed.

Lemma nosites_quiet r w :
  fits r w ->
  forall u b, nosites w (head b) u ->
  quiet false r b u [] /\ match_at false r (rev u ++ b) [] = None.
Proof.
  intros Hs. induction u as [|c u IH]; intros b [H1 H2].
  - split; [apply quiet_nil|]. apply Hs, H1.
  - destruct (IH (c :: b) H2) as [Hq He]. split.
    + apply quiet_cons; [|exact Hq]. rewrite app_nil_r. apply Hs, H1.
    + cbn [rev]. rewrite <- app_assoc. exact He.
Qed.

(** Where its window fits nowhere, a pass changes nothing. *)
Lemma pass_identity r w t s :
  fits r w -> nosites w None s -> re_sub false r t s = s.
Proof.
  intros Hm Hs. destruct (nosites_quiet r w Hm s [] Hs) as [Hq He].
  rewrite app_nil_r in He. apply re_sub_quiet; assumption.
Qed.

(** The window at a position of a text. *)
Lemma nosites_at w : forall u p s,
  nosites w p (u ++ s) ->
  site w (match last u with Some c => Some c | None => p end) s = false.
Proof.
  induction u as [|c u IH]; intros p s H.
  - destruct s; apply H.
  - cbn [app nosites] in H. destruct H as [_ H]. specialize (IH _ _ H).
    destruct u as [|d u]; [exact IH|]. rewrite last_cons_cons.
    destruct (last (d :: u)) eqn:E; [exact IH|].
    apply last_None in E. discriminate.
Qed.

(** ** Windows of literal characters *)

Definition any : option N -> bool := fun _ => true.

Definition not_word (p : option N) : bool :=
  match p with Some c => negb (is_word c) | None => true end.

Definition not_backslash (p : option N) : bool :=
  match p with Some c => negb (c =? BACKSLASH) | None => true end.

Definition digit_next (p : option N) : bool :=
  match p with Some c => is_digit c | None => false end.

Definition chars_window (pv : option N -> bool) (l : str) (nx : option N -> bool)
  : window :=
  {| w_prev := pv; w_body := map N.eqb l; w_next := nx |}.

Lemma wmatch_chars nx : forall l s,
  wmatch (map N.eqb l) nx s = is_prefix l s && nx (head (skipn (length l) s)).
Proof.
  induction l as [|x l IH]; intros s; [reflexivity|].
  destruct s as [|c s]; [reflexivity|]. cbn [map wmatch is_prefix length skipn].
  rewrite IH. apply andb_assoc.
Qed.

(** What is known of a match: its first and last character, the character
    behind it and the character after it. *)
Definition hit (hx lx : N) (pv nx : option N -> bool) : str -> str -> str -> Prop :=
  fun b x a =>
    head x = Some hx /\ last x = Some lx /\ pv (head b) = true /\ nx (head a) = true.

(** A window that has begun on kept characters: the replacement breaks it,
    or the last kept character cannot stand behind a match. *)
Fixpoint left_ok (mpv : option N -> bool) (l : str) (R : str) : bool :=
  match l with
  | [] => true
  | k :: l' =>
      match l' with
      | [] => true
      | _ :: _ =>
          (decided (map N.eqb l') R || negb (mpv (Some k))) && left_ok mpv l' R
      end
  end.

Lemma left_ok_spec mpv R : forall l pre P T c,
  left_ok mpv l R = true ->
  map N.eqb l = pre ++ P :: T -> T <> [] ->
  P c = true -> mpv (Some c) = true -> decided T R = true.
Proof.
  induction l as [|k l IH]; intros pre P T c Hl E HT HP Hc.
  - destruct pre; discriminate.
  - cbn [left_ok] in Hl. destruct l as [|k' l].
    + destruct pre as [|p pre]; cbn in E.
      * injection E as _ <-. congruence.
      * injection E as _ E. destruct pre; discriminate.
    + apply andb_true_iff in Hl as [H1 H2].
      destruct pre as [|p pre]; cbn [map app] in E.
      * injection E as <- <-. apply N.eqb_eq in HP. subst c.
        rewrite Hc in H1. cbn in H1. rewrite orb_false_r in H1. exact H1.
      * injection E as _ E. apply (IH pre P T c H2 E HT HP Hc).
Qed.

Definition safe_check (pv : option N -> bool) (l : str) (nx : option N -> bool)
    (hx lx : N) (mpv mnx : option N -> bool) (R : str) : bool :=
  match l with
  | [] => false
  | k0 :: _ =>
      R_ok (chars_window pv l nx) R
      && left_ok mpv l R
      && (negb (nx (head R)) || nx (Some hx))
      && (negb (pv (last R)) || pv (Some lx) || negb (mnx (Some k0)))
  end.

Lemma safe_check_sound pv l nx hx lx mpv mnx R :
  safe_check pv l nx hx lx mpv mnx R = true ->
  safe (chars_window pv l nx) (hit hx lx mpv mnx) R.
Proof.
  unfold safe_check. destruct l as [|k0 l]; [discriminate|]. intros H.
  apply andb_true_iff in H as [H H4]. apply andb_true_iff in H as [H H3].
  apply andb_true_iff in H as [H1 H2].
  exists (N.eqb k0), (map N.eqb l). split; [reflexivity|]. split; [exact H1|].
  split; [|split].
  - intros pre P T b x a c E HT (_ & _ & Hb & _) Hc HP.
    rewrite Hc in Hb. apply (left_ok_spec mpv R (k0 :: l) pre P T c H2 E HT HP Hb).
  - intros b x a (Hh & _) Hn. cbn [chars_window w_next] in *.
    rewrite Hn in H3. cbn in H3. rewrite Hh. exact H3.
  - intros b x a c a' (_ & Hl & _ & Ha) -> Hc Hp. cbn [chars_window w_prev] in *.
    rewrite Hp in H4. cbn [negb orb] in H4. rewrite Hl.
    apply N.eqb_eq in Hc. subst c. cbn [head] in Ha. rewrite Ha in H4.
    cbn in H4. rewrite orb_false_r in H4. exact H4.
Qed.

(** A window that looks at neither side. *)
Lemma safe_unguarded l R M :
  match l with [] => false | _ :: _ => true end = true ->
  R_ok (chars_window any l any) R = true ->
  left_ok any l R = true ->
  safe (chars_window any l any) M R.
Proof.
  destruct l as [|k0 l]; [discriminate|]. intros _ H1 H2.
  exists (N.eqb k0), (map N.eqb l). split; [reflexivity|]. split; [exact H1|].
  split; [|split].
  - intros pre P T b x a c E HT _ _ HP.
    apply (left_ok_spec any R (k0 :: l) pre P T c H2 E HT HP eq_refl).
  - reflexivity.
  - reflexivity.
Qed.

(** The pattern [r] matches exactly the characters [l], looking at the
    character behind with [pv] and at the character after with [nx]. *)
Definition exact (r : regex) (pv : option N -> bool) (l : str) (nx : option N -> bool)
  : Prop :=
  forall b s,
    match_at false r b s
    = if site (chars_window pv l nx) (head b) s
      then Some (rev l ++ b, skipn (length l) s, []) else None.

Lemma exact_fits r pv l nx : exact r pv l nx -> fits r (chars_window pv l nx).
Proof.
  intros H b a. rewrite H. destruct (site _ _ _); split; congruence.
Qed.

Lemma skipn_app_same (l a : str) : skipn (length l) (l ++ a) = a.
Proof. induction l; [reflexivity|assumption]. Qed.

Lemma exact_pass r pv l nx h e :
  exact r pv l nx -> head l = Some h -> last l = Some e ->
  pass r (hit h e pv nx).
Proof.
  intros H Hh He. split.
  - intros b a b1 g E. rewrite H in E.
    destruct (site _ _ _) eqn:Es; [|discriminate]. injection E as _ E _.
    unfold site in Es. cbn [chars_window w_prev w_body w_next] in Es.
    rewrite wmatch_chars in Es.
    apply andb_true_iff in Es as [_ Es]. apply andb_true_iff in Es as [Es _].
    apply is_prefix_spec in Es as [r0 ->]. rewrite skipn_app_same in E.
    apply (f_equal (@length N)) in E. rewrite length_app in E.
    destruct l; [discriminate|cbn in E; lia].
  - intros b x a g E. rewrite H in E.
    destruct (site _ _ _) eqn:Es; [|discriminate]. injection E as E _.
    apply app_inv_tail in E. apply (f_equal (@rev N)) in E.
    rewrite !rev_involutive in E. subst x.
    unfold site in Es. cbn [chars_window w_prev w_body w_next] in Es.
    rewrite wmatch_chars, skipn_app_same in Es.
    apply andb_true_iff in Es as [E1 Es]. apply andb_true_iff in Es as [_ E2].
    repeat split; assumption.
Qed.

(** ** The patterns of the normalizer *)

Lemma exact_char c : exact (Chr (One c)) any [c] any.
Proof.
  intros b [|d s]; [reflexivity|]. unfold match_at, site.
  cbn [rx in_cset chars_window w_prev w_body w_next map wmatch any andb].
  rewrite andb_true_r, (N.eqb_sym c d).
  destruct (d =? c) eqn:E; [|reflexivity]. apply N.eqb_eq in E. subst d. reflexivity.
Qed.

Lemma exact_tilde_digit : exact tilde_digit any [126] digit_next.
Proof.
  intros b [|d s]; [reflexivity|]. unfold match_at, site, tilde_digit.
  rewrite rx_Seq. cbn [rx in_cset chars_window w_prev w_body w_next map wmatch any andb].
  rewrite (N.eqb_sym 126 d).
  destruct (d =? 126) eqn:E; [|reflexivity]. apply N.eqb_eq in E. subst d.
  destruct s as [|e s]; [reflexivity|].
  cbn [existsb in_item xorb orb head digit_next andb]. rewrite orb_false_r.
  destruct (is_digit e); reflexivity.
Qed.

Lemma word_before_head b : negb (word_before b) = not_word (head b).
Proof. destruct b; reflexivity. Qed.

Lemma rx_WordB ic b a g k :
  rx ic WordB b a g k = if at_boundary b a then k b a g else None.
Proof. reflexivity. Qed.

Lemma exact_formula (s : string) h e :
  head (text s) = Some h -> is_word h = true ->
  last (text s) = Some e -> is_word e = true ->
  exact (formula s) not_word (text s) not_word.
Proof.
  intros Hh Hwh He Hwe b a. unfold formula, match_at, site.
  cbn [Concat chars_window w_prev w_body w_next].
  rewrite wmatch_chars, rx_Seq.
  rewrite rx_WordB, rx_Seq, rx_Lit.
  destruct (is_prefix (text s) a) eqn:Ep.
  - apply is_prefix_spec in Ep as [r0 ->]. rewrite skipn_app_same.
    rewrite rx_Seq, rx_WordB. cbn [rx accept andb].
    assert (H1 : at_boundary b (text s ++ r0) = not_word (head b)).
    { unfold at_boundary. destruct (text s) as [|c l]; [discriminate|].
      injection Hh as ->. cbn [app word_before]. rewrite Hwh.
      rewrite xorb_true_r. apply word_before_head. }
    assert (H2 : at_boundary (rev (text s) ++ b) r0 = not_word (head r0)).
    { unfold at_boundary.
      assert (Hx : text s <> []) by (intros E; rewrite E in Hh; discriminate).
      pose proof (head_rev_last (text s) b Hx) as Hr. rewrite He in Hr.
      destruct (rev (text s) ++ b) as [|c l]; [discriminate|].
      injection Hr as ->. cbn [word_before]. rewrite Hwe. cbn [xorb].
      apply word_before_head. }
    rewrite H1, H2. destruct (not_word (head b)), (not_word (head r0)); reflexivity.
  - cbn [andb]. rewrite andb_false_r. destruct (at_boundary b a); reflexivity.
Qed.

Lemma behind_backslash b :
  xorb true (behind_rev false (rev [One BACKSLASH]) b) = not_backslash (head b).
Proof. destruct b as [|c b]; [reflexivity|]. cbn. rewrite andb_true_r. reflexivity. Qed.

Lemma exact_bare_percent : exact bare_percent not_backslash [37] any.
Proof.
  intros b s. unfold match_at, site, bare_percent.
  rewrite rx_Seq, rx_Behind, behind_backslash.
  cbn [chars_window w_prev w_body w_next map wmatch].
  destruct (not_backslash (head b)); [|reflexivity]. cbn [andb].
  destruct s as [|d s]; [reflexivity|]. cbn [rx in_cset any]. rewrite andb_true_r.
  rewrite (N.eqb_sym 37 d).
  destruct (d =? 37) eqn:E; [|reflexivity]. apply N.eqb_eq in E. subst d. reflexivity.
Qed.

Lemma exact_bare_ampersand : exact bare_ampersand not_backslash [38] not_backslash.
Proof.
  intros b s. unfold match_at, site, bare_ampersand. cbn [Concat].
  rewrite rx_Seq, rx_Behind, behind_backslash.
  cbn [chars_window w_prev w_body w_next map wmatch].
  destruct (not_backslash (head b)); [|reflexivity]. cbn [andb].
  destruct s as [|d s]; [reflexivity|]. rewrite rx_Seq. cbn [rx in_cset].
  rewrite (N.eqb_sym 38 d).
  destruct (d =? 38) eqn:E; [|reflexivity]. apply N.eqb_eq in E. subst d.
  cbn [andb]. destruct s as [|e s]; [reflexivity|].
  cbn [head not_backslash]. unfold BACKSLASH.
  destruct (e =? 92); reflexivity.
Qed.

Definition TILDE_COMMAND : str := text "\textasciitilde".

Lemma tilde_command_match b s :
  match_at false tilde_command b s
  = if is_prefix TILDE_COMMAND s
    then let a := skipn (length TILDE_COMMAND) s in
         Some (rev (span (in_cset false SPACES) a).1 ++ rev TILDE_COMMAND ++ b,
               (span (in_cset false SPACES) a).2, [])
    else None.
Proof.
  unfold match_at, tilde_command. rewrite rx_Seq, rx_Lit. fold TILDE_COMMAND.
  destruct (is_prefix TILDE_COMMAND s); [|reflexivity].
  cbn [rx]. apply star_greedy_accept.
Qed.

Lemma fits_tilde_command : fits tilde_command (chars_window any TILDE_COMMAND any).
Proof.
  intros b s. rewrite tilde_command_match. unfold site.
  cbn [chars_window w_prev w_body w_next]. rewrite wmatch_chars. unfold any.
  rewrite andb_true_r. cbn [andb].
  destruct (is_prefix TILDE_COMMAND s); split; intros H; congruence.
Qed.

Lemma pass_tilde_command : pass tilde_command (fun _ _ _ => True).
Proof.
  split; [|intros; exact I].
  intros b a b1 g E. rewrite tilde_command_match in E.
  destruct (is_prefix TILDE_COMMAND a) eqn:Ep; [|discriminate].
  apply is_prefix_spec in Ep as [r0 ->]. cbv zeta in E.
  rewrite skipn_app_same in E. injection E as _ E.
  pose proof (span_app (in_cset false SPACES) r0) as Hs.
  apply (f_equal (@length N)) in E. apply (f_equal (@length N)) in Hs.
  rewrite !length_app in *. cbn in E. lia.
Qed.

(** *** The quoted span *)

Lemma mem_split c : forall l,
  mem c l = true -> exists u v, l = u ++ c :: v /\ mem c u = false.
Proof.
  induction l as [|d l IH]; [discriminate|]. cbn [mem]. intros H.
  destruct (c =? d) eqn:E.
  - apply N.eqb_eq in E. subst d. exists [], l. split; reflexivity.
  - destruct (IH H) as (u & v & -> & Hu). exists (d :: u), v. split; [reflexivity|].
    cbn [mem]. rewrite E. exact Hu.
Qed.

Lemma quoted_span_open b a :
  mem DQUOTE a = false -> match_at false quoted_span b (DQUOTE :: a) = None.
Proof.
  intros Ha. unfold match_at, quoted_span. cbn [Concat]. rewrite rx_Seq.
  cbn [rx in_cset]. rewrite N.eqb_refl.
  rewrite star_greedy_stop.
  - rewrite (span_ext _ (fun c => negb (c =? DQUOTE))) by (intros c; apply in_not_char).
    rewrite (span_end _ _ (forallb_not_char _ _ Ha)). reflexivity.
  - intros b' c a' Hc. rewrite in_not_char in Hc. apply negb_true_iff in Hc.
    cbn [rx in_cset]. rewrite Hc. reflexivity.
Qed.

Lemma quoted_span_other b s :
  match s with c :: _ => (c =? DQUOTE) = false | [] => True end ->
  match_at false quoted_span b s = None.
Proof.
  unfold match_at, quoted_span. cbn [Concat]. rewrite rx_Seq. cbn [rx in_cset].
  destruct s as [|c s]; [reflexivity|]. intros ->. reflexivity.
Qed.

Lemma quoted_span_inv b s b1 a1 g :
  match_at false quoted_span b s = Some (b1, a1, g) ->
  exists inner, s = DQUOTE :: inner ++ DQUOTE :: a1
                /\ b1 = DQUOTE :: rev inner ++ DQUOTE :: b.
Proof.
  intros E. destruct s as [|c s].
  - rewrite quoted_span_other in E by exact I. discriminate.
  - destruct (c =? DQUOTE) eqn:Ec.
    + apply N.eqb_eq in Ec. subst c. destruct (mem DQUOTE s) eqn:Em.
      * destruct (mem_split _ _ Em) as (u & v & -> & Hu).
        rewrite (quoted_span_match b u v Hu) in E. injection E as <- <- _.
        exists u. split; reflexivity.
      * rewrite quoted_span_open in E by exact Em. discriminate.
    + rewrite quoted_span_other in E by exact Ec. discriminate.
Qed.

Lemma pass_quoted_span : pass quoted_span (hit DQUOTE DQUOTE any any).
Proof.
  split.
  - intros b a b1 g E. apply quoted_span_inv in E as (inner & E & _).
    apply (f_equal (@length N)) in E. cbn [length] in E. rewrite length_app in E.
    cbn [length] in E. lia.
  - intros b x a g E. apply quoted_span_inv in E as (inner & _ & E).
    replace (DQUOTE :: rev inner ++ DQUOTE :: b)
      with (rev (DQUOTE :: inner ++ [DQUOTE]) ++ b) in E.
    2:{ cbn [rev]. rewrite rev_app_distr. cbn [rev app]. rewrite <- !app_assoc. reflexivity. }
    apply app_inv_tail in E. apply (f_equal (@rev N)) in E.
    rewrite !rev_involutive in E. subst x.
    split; [reflexivity|]. split; [|split; reflexivity].
    change (DQUOTE :: inner ++ [DQUOTE]) with ((DQUOTE :: inner) ++ [DQUOTE]).
    apply last_snoc.
Qed.

(** No straight quote of the text has another one after it. *)
Fixpoint unpaired (s : str) : Prop :=
  match s with
  | [] => True
  | c :: s' => (c = DQUOTE -> mem DQUOTE s' = false) /\ unpaired s'
  end.

Lemma unpaired_drop : forall x a, unpaired (x ++ a) -> unpaired a.
Proof. induction x as [|c x IH]; intros a H; [exact H|]. apply IH, H. Qed.

Lemma unpaired_app : forall r o,
  mem DQUOTE r = false -> unpaired o -> unpaired (r ++ o).
Proof.
  induction r as [|c r IH]; intros o Hr Ho; [exact Ho|].
  cbn [mem] in Hr. apply orb_false_iff in Hr as [Hc Hr]. cbn [app unpaired]. split.
  - intros ->. rewrite N.eqb_refl in Hc. discriminate.
  - apply IH; assumption.
Qed.

(** The quote pass leaves no pair of straight quotes. *)
Lemma rw_unpaired M R b a o :
  mem DQUOTE R = false ->
  rw (fun b s => match_at false quoted_span b s = None) M R b a o -> unpaired o.
Proof.
  intros HR H. induction H as [b|b d a o HK H IH|b x a o HM Hx H IH].
  - exact I.
  - cbn [unpaired]. split; [|exact IH]. intros ->.
    apply (rw_mem _ _ _ _ _ _ _ H); [|exact HR].
    destruct (mem DQUOTE a) eqn:Em; [|reflexivity].
    destruct (mem_split _ _ Em) as (u & v & -> & Hu).
    rewrite (quoted_span_match b u v Hu) in HK. discriminate.
  - apply unpaired_app; assumption.
Qed.

(** A pass that writes no straight quote keeps it so. *)
Lemma rw_unpaired_kept K M R b a o :
  mem DQUOTE R = false -> rw K M R b a o -> unpaired a -> unpaired o.
Proof.
  intros HR H. induction H as [b|b d a o HK H IH|b x a o HM Hx H IH]; intros Ha.
  - exact I.
  - destruct Ha as [H1 H2]. cbn [unpaired]. split; [|exact (IH H2)].
    intros E. apply (rw_mem _ _ _ _ _ _ _ H); [exact (H1 E)|exact HR].
  - apply unpaired_app; [exact HR|]. apply IH. apply (unpaired_drop _ _ Ha).
Qed.

Lemma unpaired_eliminated t R s :
  (forall g, expand t g = R) -> mem DQUOTE R = false ->
  unpaired (re_sub false quoted_span t s).
Proof.
  intros Ht HR.
  apply (rw_unpaired _ R [] s _ HR (rw_of_pass _ _ t R s pass_quoted_span Ht)).
Qed.

Lemma unpaired_preserved r M t R s :
  pass r M -> (forall g, expand t g = R) -> mem DQUOTE R = false ->
  unpaired s -> unpaired (re_sub false r t s).
Proof.
  intros Hp Ht HR Hs.
  apply (rw_unpaired_kept _ M R [] s _ HR (rw_of_pass r M t R s Hp Ht) Hs).
Qed.

Lemma unpaired_quiet : forall u b,
  unpaired u ->
  quiet false quoted_span b u [] /\ match_at false quoted_span (rev u ++ b) [] = None.
Proof.
  induction u as [|c u IH]; intros b Hu.
  - split; [apply quiet_nil|]. apply quoted_span_other. exact I.
  - destruct Hu as [H1 H2]. destruct (IH (c :: b) H2) as [Hq He]. split.
    + apply quiet_cons; [|exact Hq]. rewrite app_nil_r.
      destruct (c =? DQUOTE) eqn:Ec.
      * apply N.eqb_eq in Ec. subst c. apply quoted_span_open. apply H1. reflexivity.
      * apply quoted_span_other. exact Ec.
    + cbn [rev]. rewrite <- app_assoc. exact He.
Qed.

Lemma quote_pass_identity t s :
  unpaired s -> re_sub false quoted_span t s = s.
Proof.
  intros Hs. destruct (unpaired_quiet s [] Hs) as [Hq He].
  rewrite app_nil_r in He. apply re_sub_quiet; assumption.
Qed.

(** ** The normalizer pass by pass *)

Lemma exact_CO2 : exact (formula "CO2") not_word (text "CO2") not_word.
Proof. apply (exact_formula "CO2" 67 50); reflexivity. Qed.

Lemma exact_CH4 : exact (formula "CH4") not_word (text "CH4") not_word.
Proof. apply (exact_formula "CH4" 67 52); reflexivity. Qed.

Lemma exact_H2O : exact (formula "H2O") not_word (text "H2O") not_word.
Proof. apply (exact_formula "H2O" 72 79); reflexivity. Qed.

Lemma exact_O2 : exact (formula "O2") not_word (text "O2") not_word.
Proof. apply (exact_formula "O2" 79 50); reflexivity. Qed.

Lemma pass_char c : pass (Chr (One c)) (hit c c any any).
Proof. apply (exact_pass _ _ _ _ c c (exact_char c)); reflexivity. Qed.

Lemma pass_tilde_digit : pass tilde_digit (hit 126 126 any digit_next).
Proof. apply (exact_pass _ _ _ _ 126 126 exact_tilde_digit); reflexivity. Qed.

Lemma pass_CO2 : pass (formula "CO2") (hit 67 50 not_word not_word).
Proof. apply (exact_pass _ _ _ _ 67 50 exact_CO2); reflexivity. Qed.

Lemma pass_CH4 : pass (formula "CH4") (hit 67 52 not_word not_word).
Proof. apply (exact_pass _ _ _ _ 67 52 exact_CH4); reflexivity. Qed.

Lemma pass_H2O : pass (formula "H2O") (hit 72 79 not_word not_word).
Proof. apply (exact_pass _ _ _ _ 72 79 exact_H2O); reflexivity. Qed.

Lemma pass_O2 : pass (formula "O2") (hit 79 50 not_word not_word).
Proof. apply (exact_pass _ _ _ _ 79 50 exact_O2); reflexivity. Qed.

Lemma pass_bare_percent : pass bare_percent (hit 37 37 not_backslash any).
Proof. apply (exact_pass _ _ _ _ 37 37 exact_bare_percent); reflexivity. Qed.

Lemma pass_bare_ampersand :
  pass bare_ampersand (hit 38 38 not_backslash not_backslash).
Proof. apply (exact_pass _ _ _ _ 38 38 exact_bare_ampersand); reflexivity. Qed.

Ltac the_pass :=
  first [ exact pass_tilde_command | exact pass_tilde_digit | exact pass_CO2
        | exact pass_CH4 | exact pass_H2O | exact pass_O2 | exact pass_quoted_span
        | exact pass_bare_percent | exact pass_bare_ampersand | apply pass_char ].

Ltac the_window :=
  first [ exact fits_tilde_command
        | apply exact_fits;
          first [ exact exact_tilde_digit | exact exact_CO2 | exact exact_CH4
                | exact exact_H2O | exact exact_O2 | exact exact_bare_percent
                | exact exact_bare_ampersand | apply exact_char ] ].

Ltac the_template := intros ?; cbv; reflexivity.

Ltac is_safe :=
  first [ apply safe_check_sound; vm_compute; reflexivity
        | apply safe_unguarded; vm_compute; reflexivity ].

(** A window is followed from the result back to its own pass. *)
Ltac follow :=
  first [ eapply window_eliminated; [the_pass|the_window|the_template|is_safe]
        | eapply window_preserved; [the_pass|the_template|is_safe|follow] ].

Ltac follow_quotes :=
  first [ eapply unpaired_eliminated; [the_template|reflexivity]
        | eapply unpaired_preserved; [the_pass|the_template|reflexivity|follow_quotes] ].

Lemma normal_tilde_command s :
  nosites (chars_window any TILDE_COMMAND any) None (fix_special_characters s).
Proof. unfold fix_special_characters. cbv zeta. follow. Qed.

Lemma normal_tilde_digit s :
  nosites (chars_window any [126] digit_next) None (fix_special_characters s).
Proof. unfold fix_special_characters. cbv zeta. follow. Qed.

Lemma normal_degree s :
  nosites (chars_window any [DEGREE] any) None (fix_special_characters s).
Proof. unfold fix_special_characters. cbv zeta. follow. Qed.

Lemma normal_CO2 s :
  nosites (chars_window not_word (text "CO2") not_word) None (fix_special_characters s).
Proof. unfold fix_special_characters. cbv zeta. follow. Qed.

Lemma normal_CH4 s :
  nosites (chars_window not_word (text "CH4") not_word) None (fix_special_characters s).
Proof. unfold fix_special_characters. cbv zeta. follow. Qed.

Lemma normal_H2O s :
  nosites (chars_window not_word (text "H2O") not_word) None (fix_special_characters s).
Proof. unfold fix_special_characters. cbv zeta. follow. Qed.

Lemma normal_O2 s :
  nosites (chars_window not_word (text "O2") not_word) None (fix_special_characters s).
Proof. unfold fix_special_characters. cbv zeta. follow. Qed.

Lemma normal_times s :
  nosites (chars_window any [TIMES] any) None (fix_special_characters s).
Proof. unfold fix_special_characters. cbv zeta. follow. Qed.

Lemma normal_quotes s : unpaired (fix_special_characters s).
Proof. unfold fix_special_characters. cbv zeta. follow_quotes. Qed.

Lemma normal_em_dash s :
  nosites (chars_window any [EM_DASH] any) None (fix_special_characters s).
Proof. unfold fix_special_characters. cbv zeta. follow. Qed.

Lemma normal_en_dash s :
  nosites (chars_window any [EN_DASH] any) None (fix_special_characters s).
Proof. unfold fix_special_characters. cbv zeta. follow. Qed.

Lemma normal_percent s :
  nosites (chars_window not_backslash [37] any) None (fix_special_characters s).
Proof. unfold fix_special_characters. cbv zeta. follow. Qed.

Lemma normal_ampersand s :
  nosites (chars_window not_backslash [38] not_backslash) None (fix_special_characters s).
Proof. unfold fix_special_characters. cbv zeta. follow. Qed.

(** On a text in which no pattern of the normalizer matches, the
    normalizer changes nothing. *)
Lemma fix_special_characters_normal o :
  nosites (chars_window any TILDE_COMMAND any) None o ->
  nosites (chars_window any [126] digit_next) None o ->
  nosites (chars_window any [DEGREE] any) None o ->
  nosites (chars_window not_word (text "CO2") not_word) None o ->
  nosites (chars_window not_word (text "CH4") not_word) None o ->
  nosites (chars_window not_word (text "H2O") not_word) None o ->
  nosites (chars_window not_word (text "O2") not_word) None o ->
  nosites (chars_window any [TIMES] any) None o ->
  unpaired o ->
  nosites (chars_window any [EM_DASH] any) None o ->
  nosites (chars_window any [EN_DASH] any) None o ->
  nosites (chars_window not_backslash [37] any) None o ->
  nosites (chars_window not_backslash [38] not_backslash) None o ->
  fix_special_characters o = o.
Proof.
  intros H1 H2 H3 H4 H5 H6 H7 H8 H9 H10 H11 H12 H13.
  unfold fix_special_characters. cbv zeta.
  rewrite (pass_identity _ _ _ o fits_tilde_command H1).
  rewrite (pass_identity _ _ _ o (exact_fits _ _ _ _ exact_tilde_digit) H2).
  rewrite (pass_identity _ _ _ o (exact_fits _ _ _ _ (exact_char DEGREE)) H3).
  rewrite (pass_identity _ _ _ o (exact_fits _ _ _ _ exact_CO2) H4).
  rewrite (pass_identity _ _ _ o (exact_fits _ _ _ _ exact_CH4) H5).
  rewrite (pass_identity _ _ _ o (exact_fits _ _ _ _ exact_H2O) H6).
  rewrite (pass_identity _ _ _ o (exact_fits _ _ _ _ exact_O2) H7).
  rewrite (pass_identity _ _ _ o (exact_fits _ _ _ _ (exact_char TIMES)) H8).
  rewrite (quote_pass_identity _ o H9).
  rewrite (pass_identity _ _ _ o (exact_fits _ _ _ _ (exact_char EM_DASH)) H10).
  rewrite (pass_identity _ _ _ o (exact_fits _ _ _ _ (exact_char EN_DASH)) H11).
  rewrite (pass_identity _ _ _ o (exact_fits _ _ _ _ exact_bare_percent) H12).
  apply (pass_identity _ _ _ o (exact_fits _ _ _ _ exact_bare_ampersand) H13).
Qed.

Lemma last_snoc_inv (u : str) c : last u = Some c -> exists u', u = u' ++ [c].
Proof.
  intros H. destruct (decide (u = [])) as [->|Hu]; [discriminate|].
  destruct (exists_last Hu) as (u' & d & ->). rewrite last_snoc in H.
  injection H as ->. eauto.
Qed.

(** ** The loop over the section titles *)

(** The bold opening of a title, as the rule of the title looks for it. *)
Definition bold_opening (title : string) : str := BOLD_OPEN ++ text title.

(** The match of a title rule read off the text ahead: the opening in any
    case, the text up to the first closing brace, and that brace.  The
    result is the matched text and what follows it. *)
Definition bold_span (title : string) (a : str) : option (str * str) :=
  if ci_prefix (bold_opening title) a then
    match span not_brace (skipn (length (bold_opening title)) a) with
    | (x, e :: rest) => Some (firstn (length (bold_opening title)) a ++ x ++ [e], rest)
    | (_, []) => None
    end
  else None.

Lemma rx_Lit_app ic w1 : forall w2 r b a g k,
  rx ic (Seq (Lit w1) (Seq (Lit w2) r)) b a g k = rx ic (Seq (Lit (w1 ++ w2)) r) b a g k.
Proof.
  induction w1 as [|p w1 IH]; intros w2 r b a g k; [reflexivity|].
  cbn [Lit app rx]. destruct a as [|c a]; [reflexivity|].
  destruct (in_cset ic (One p) c); [|reflexivity].
  apply (IH w2 r (c :: b) a g k).
Qed.

Lemma bold_title_span title b a :
  match_at true (bold_title title) b a
  = match bold_span title a with
    | Some (x, rest) => Some (rev x ++ b, rest, [])
    | None => None
    end.
Proof.
  unfold match_at, bold_title, bold_span. cbn [Concat]. fold BOLD_OPEN.
  rewrite rx_Lit_app. fold (bold_opening title).
  rewrite rx_Seq, rx_Lit_ci.
  destruct (ci_prefix (bold_opening title) a); [|reflexivity]. cbv beta.
  set (n := length (bold_opening title)).
  cbn [rx]. rewrite star_greedy_stop.
  - rewrite (span_ext _ not_brace _ (in_NOT_BRACE true)).
    destruct (span not_brace (skipn n a)) as [x [|e rest]] eqn:Es; cbn [fst snd];
      [reflexivity|].
    assert (He : not_brace e = false).
    { apply (span_stop not_brace (skipn n a) e rest). rewrite Es. reflexivity. }
    apply negb_false_iff, N.eqb_eq in He. subst e.
    rewrite in_One_nonletter, N.eqb_refl by reflexivity. unfold accept.
    rewrite !rev_app_distr. cbn [rev app]. rewrite <- !app_assoc. reflexivity.
  - intros b' c a' Hc. rewrite in_NOT_BRACE in Hc. apply negb_true_iff in Hc.
    rewrite in_One_nonletter, Hc by reflexivity. reflexivity.
Qed.

Lemma bold_span_split title a x rest :
  bold_span title a = Some (x, rest) -> a = x ++ rest /\ x <> [].
Proof.
  unfold bold_span. destruct (ci_prefix (bold_opening title) a); [|discriminate].
  destruct (span not_brace (skipn (length (bold_opening title)) a)) as [y [|e r]] eqn:Es;
    [discriminate|].
  intros [= <- <-]. split.
  - rewrite <- (firstn_skipn (length (bold_opening title)) a) at 1.
    rewrite <- (span_app not_brace (skipn (length (bold_opening title)) a)), Es.
    cbn [fst snd]. rewrite <- !app_assoc. reflexivity.
  - intros E. apply (f_equal (@length N)) in E.
    rewrite !length_app in E. cbn [length] in E. lia.
Qed.

Lemma bold_title_consumes title : consumes true (bold_title title).
Proof.
  intros b a b1 g E. rewrite bold_title_span in E.
  destruct (bold_span title a) as [[x rest]|] eqn:Es; [|discriminate].
  injection E as _ E _. apply bold_span_split in Es as [Ea Hx]. subst rest.
  apply Hx. apply (f_equal (@length N)) in Ea. rewrite length_app in Ea.
  destruct x; [reflexivity|cbn in Ea; lia].
Qed.

(** A title that holds, in no case, a closing brace or a backslash. *)
Definition plain_title (title : string) : bool :=
  forallb (fun p => negb (ci_eq p 125) && negb (ci_eq p BACKSLASH)) (text title).

Lemma opening_no_brace title :
  plain_title title = true ->
  forallb (fun p => negb (ci_eq p 125)) (bold_opening title) = true.
Proof.
  intros H. unfold bold_opening. rewrite forallb_app. apply andb_true_iff. split;
    [reflexivity|].
  unfold plain_title in H. rewrite forallb_forall in *. intros p Hp.
  specialize (H p Hp). apply andb_true_iff in H as [H _]. exact H.
Qed.

Lemma opening_tail title :
  plain_title title = true ->
  forallb (fun p => negb (ci_eq p BACKSLASH)) (tl (bold_opening title)) = true.
Proof.
  intros H. unfold bold_opening, BOLD_OPEN. cbn [text list_ascii_of_string map app tl].
  cbn [forallb]. unfold plain_title in H.
  repeat (apply andb_true_iff; split; [reflexivity|]).
  rewrite forallb_forall in *. intros p Hp.
  specialize (H p Hp). apply andb_true_iff in H as [_ H]. exact H.
Qed.

(** A literal that holds no [e] in any case lies before the first [e]. *)
Lemma ci_prefix_before e w :
  forallb (fun p => negb (ci_eq p e)) w = true ->
  forall u rest, ci_prefix w (u ++ e :: rest) = true -> (length w <= length u)%nat.
Proof.
  induction w as [|p w IH]; intros Hw u rest H; cbn [length]; [lia|].
  cbn [forallb] in Hw. apply andb_true_iff in Hw as [Hp Hw].
  destruct u as [|c u]; cbn [app ci_prefix] in H; apply andb_true_iff in H as [Hc H].
  - rewrite Hc in Hp. discriminate.
  - cbn [length]. specialize (IH Hw u rest H). lia.
Qed.

Lemma ci_prefix_short w : forall u rest,
  (length w <= length u)%nat -> ci_prefix w (u ++ rest) = ci_prefix w u.
Proof.
  induction w as [|p w IH]; intros u rest H; [reflexivity|].
  destruct u as [|c u]; cbn [length] in H; [lia|].
  cbn [app ci_prefix]. rewrite IH by lia. reflexivity.
Qed.

Lemma ci_prefix_app_r w : forall u rest,
  ci_prefix w u = true -> ci_prefix w (u ++ rest) = true.
Proof.
  intros u rest H. rewrite ci_prefix_short; [exact H|]. apply ci_prefix_length, H.
Qed.

(** The rule sees in [P ++ rest] what it sees in [P], where an opening in
    [P] meets its closing brace in [P]. *)
Lemma bold_span_app title P rest :
  plain_title title = true ->
  (ci_prefix (bold_opening title) (P ++ rest) = true -> mem 125 P = true) ->
  bold_span title (P ++ rest)
  = match bold_span title P with
    | Some (x, r) => Some (x, r ++ rest)
    | None => None
    end.
Proof.
  intros Ht Hc. unfold bold_span.
  destruct (ci_prefix (bold_opening title) (P ++ rest)) eqn:E.
  - destruct (mem_split 125 P (Hc eq_refl)) as (u & v & -> & Hu).
    rewrite <- app_assoc in E. cbn [app] in E.
    pose proof (ci_prefix_before 125 _ (opening_no_brace title Ht) u _ E) as Hlen.
    rewrite ci_prefix_short in E by exact Hlen.
    rewrite (ci_prefix_app_r _ u (125 :: v) E).
    set (n := length (bold_opening title)) in *.
    assert (Hs : forall z, skipn n ((u ++ 125 :: v) ++ z) = skipn n u ++ 125 :: v ++ z).
    { intros z. rewrite <- app_assoc, skipn_app.
      replace (n - length u)%nat with 0%nat by lia. reflexivity. }
    assert (Hs' : skipn n (u ++ 125 :: v) = skipn n u ++ 125 :: v).
    { rewrite skipn_app. replace (n - length u)%nat with 0%nat by lia. reflexivity. }
    assert (Hf : forall z, firstn n ((u ++ 125 :: v) ++ z) = firstn n u).
    { intros z. rewrite <- app_assoc, firstn_app.
      replace (n - length u)%nat with 0%nat by lia. cbn [firstn]. apply app_nil_r. }
    rewrite (Hs rest), (Hf rest).
    pose proof (Hf []) as Hf0.
    rewrite !app_nil_r in Hf0. rewrite Hs', Hf0.
    assert (Hall : forallb not_brace (skipn n u) = true).
    { apply forallb_not_char, mem_skipn, Hu. }
    rewrite !(span_prefix not_brace _ 125 _ Hall eq_refl). reflexivity.
  - destruct (ci_prefix (bold_opening title) P) eqn:E'; [|reflexivity].
    rewrite (ci_prefix_app_r _ P rest E') in E. discriminate.
Qed.

(** An opening that starts in [P] meets a closing brace in [P]. *)
Definition closes_in (title : string) (P rest : str) : Prop :=
  forall p1 c p2, P = p1 ++ c :: p2 ->
  ci_prefix (bold_opening title) (c :: p2 ++ rest) = true -> mem 125 (c :: p2) = true.

Lemma closes_in_suffix title p P rest :
  closes_in title (p ++ P) rest -> closes_in title P rest.
Proof.
  intros H p1 c p2 E. apply (H (p ++ p1) c p2). rewrite E, app_assoc. reflexivity.
Qed.

Lemma bold_span_nil title : bold_span title [] = None.
Proof. reflexivity. Qed.

Section TitleRule.

Variables (title : string) (tpl : str).
Hypothesis Hplain : plain_title title = true.

Let scan := sub_loop true (bold_title title) tpl None 0.

(** The scan does not look behind. *)
Lemma bold_scan_behind : forall n a b b',
  (length a <= n)%nat -> scan b a = scan b' a.
Proof.
  unfold scan. induction n as [|n IH]; intros a b b' Hn.
  - destruct a; [|cbn in Hn; lia]. cbn [sub_loop exhausted].
    rewrite !bold_title_span, bold_span_nil. reflexivity.
  - destruct (bold_span title a) as [[x rest]|] eqn:Es.
    + destruct (bold_span_split _ _ _ _ Es) as [-> Hx].
      rewrite !(sub_loop_hit true _ _ None _ x rest _ [] eq_refl Hx)
        by (rewrite bold_title_span, Es; reflexivity).
      f_equal. apply IH. rewrite length_app in Hn.
      destruct x; [congruence|cbn in Hn; lia].
    + destruct a as [|c a]; cbn [sub_loop exhausted];
        rewrite !bold_title_span, Es; [reflexivity|].
      f_equal. apply IH. cbn in Hn. lia.
Qed.

(** The scan of [P ++ rest] is the scan of [P] followed by the scan of
    [rest], where the openings of [P] are closed in [P]. *)
Lemma bold_scan_app : forall n P b rest,
  (length P <= n)%nat -> closes_in title P rest ->
  scan b (P ++ rest) = scan b P ++ scan (rev P ++ b) rest.
Proof.
  unfold scan. induction n as [|n IH]; intros P b rest Hn Hc.
  - destruct P; [|cbn in Hn; lia]. cbn [app rev].
    rewrite (sub_loop_end true _ _ None b)
      by (rewrite bold_title_span; reflexivity).
    reflexivity.
  - destruct P as [|c P].
    + cbn [app rev].
      rewrite (sub_loop_end true _ _ None b)
        by (rewrite bold_title_span; reflexivity).
      reflexivity.
    + assert (Hspan := bold_span_app title (c :: P) rest Hplain (Hc [] c P eq_refl)).
      destruct (bold_span title (c :: P)) as [[x r]|] eqn:Es.
      * destruct (bold_span_split _ _ _ _ Es) as [E Hx]. rewrite E.
        rewrite E in Hspan, Hc, Hn.
        rewrite <- app_assoc.
        rewrite (sub_loop_hit true _ _ None b x (r ++ rest) (rev x ++ b) [] eq_refl Hx)
          by (rewrite bold_title_span, app_assoc, Hspan; reflexivity).
        rewrite (sub_loop_hit true _ _ None b x r (rev x ++ b) [] eq_refl Hx)
          by (rewrite bold_title_span, <- E, Es; reflexivity).
        rewrite <- app_assoc. f_equal. cbn [dec_limit].
        rewrite IH.
        -- rewrite rev_app_distr, <- app_assoc. reflexivity.
        -- rewrite length_app in Hn. destruct x; [congruence|cbn in Hn; lia].
        -- apply (closes_in_suffix _ x), Hc.
      * cbn [app sub_loop exhausted]. rewrite !bold_title_span.
        change (c :: P ++ rest) with ((c :: P) ++ rest). rewrite Hspan, Es.
        cbn [app]. f_equal. rewrite IH.
        -- cbn [rev]. rewrite <- app_assoc. reflexivity.
        -- cbn in Hn. lia.
        -- apply (closes_in_suffix _ [c]), Hc.
Qed.

End TitleRule.

(** *** The titles of the list *)

(** What the rule of a section title puts in place of a match. *)
Definition SECTION_HEADING (title : string) : str :=
  expand (heading_template "section" "sec" title) [].

(** What the loop relies on for a title: it holds no closing brace and no
    backslash, and its replacement, which refers to no group, opens with a
    backslash and ends with a closing brace. *)
Definition listed (title : string) : Prop :=
  plain_title title = true
  /\ (forall g, expand (heading_template "section" "sec" title) g = SECTION_HEADING title)
  /\ head (SECTION_HEADING title) = Some BACKSLASH
  /\ last (SECTION_HEADING title) = Some 125.

Lemma section_titles_listed : Forall listed SECTION_PATTERNS.
Proof.
  unfold SECTION_PATTERNS.
  repeat (apply List.Forall_cons;
          [split; [|split; [|split]];
           [vm_compute; reflexivity|intros g; vm_compute; reflexivity
           |vm_compute; reflexivity|vm_compute; reflexivity]|]).
  apply List.Forall_nil.
Qed.

Lemma section_title_listed title : In title SECTION_PATTERNS -> listed title.
Proof. apply (proj1 (List.Forall_forall _ _) section_titles_listed). Qed.

(** A bold command opens at the start of [s] with a title of the list. *)
Definition opens_title (s : str) : bool :=
  existsb (fun title => ci_prefix (bold_opening title) s) SECTION_PATTERNS.

(** Such a command starts somewhere in [s] and meets no closing brace in
    [s]: it is still open where [s] ends. *)
Fixpoint open_title (s : str) : bool :=
  match s with
  | [] => false
  | _ :: s' => opens_title s && negb (mem 125 s) || open_title s'
  end.

(** Such a command starts somewhere in [s]. *)
Fixpoint title_opens (s : str) : bool :=
  match s with
  | [] => false
  | _ :: s' => opens_title s || title_opens s'
  end.

Definition closed (P : str) : Prop :=
  forall title, In title SECTION_PATTERNS -> closes_in title P [].

Lemma open_title_closed P : open_title P = false -> closed P.
Proof.
  intros H title Hin p1 c p2 -> Hp. rewrite app_nil_r in Hp.
  induction p1 as [|d p1 IH].
  - cbn [app open_title] in H. apply orb_false_iff in H as [H _].
    apply andb_false_iff in H as [H|H].
    + assert (opens_title (c :: p2) = true); [|congruence].
      apply existsb_exists. exists title. split; assumption.
    + apply negb_false_iff in H. exact H.
  - apply IH. cbn [app open_title] in H. apply orb_false_iff in H as [_ H]. exact H.
Qed.

Lemma closed_suffix p P : closed (p ++ P) -> closed P.
Proof. intros H title Hin. apply (closes_in_suffix _ p), H, Hin. Qed.

(** An opening does not run from [v] into a text that starts with a
    backslash. *)
Lemma opening_no_straddle title v rest :
  plain_title title = true ->
  v <> [] ->
  match rest with [] => True | e :: _ => e = BACKSLASH end ->
  ci_prefix (bold_opening title) (v ++ rest) = true ->
  ci_prefix (bold_opening title) v = true.
Proof.
  intros Ht Hv Hrest H.
  apply ci_prefix_split in H as [H|(w1 & w2 & Hw & Hlen & Hw2 & Hp)]; [exact H|].
  exfalso. destruct w2 as [|q w2]; [congruence|].
  destruct rest as [|e rest]; [discriminate|]. subst e.
  cbn [ci_prefix] in Hp. apply andb_true_iff in Hp as [Hq _].
  destruct w1 as [|p w1]; [destruct v; [congruence|discriminate]|].
  pose proof (opening_tail title Ht) as Htl. rewrite Hw in Htl. cbn [app tl] in Htl.
  rewrite forallb_app in Htl. apply andb_true_iff in Htl as [_ Htl].
  cbn [forallb] in Htl. rewrite Hq in Htl. discriminate.
Qed.

Lemma closed_closes_in title P rest :
  In title SECTION_PATTERNS -> closed P ->
  match rest with [] => True | e :: _ => e = BACKSLASH end ->
  closes_in title P rest.
Proof.
  intros Hin Hc Hrest p1 c p2 E Hp.
  apply (Hc title Hin p1 c p2 E). rewrite app_nil_r.
  apply (opening_no_straddle title (c :: p2) rest); try assumption; [|discriminate].
  apply section_title_listed, Hin.
Qed.

(** *** What a rule keeps *)

Lemma rw_mem_true K M R b a o c :
  rw K M R b a o -> mem c R = true -> mem c a = true -> mem c o = true.
Proof.
  intros H HR. induction H as [b|b d a o HK H IH|b x a o HM Hx H IH]; intros Ha.
  - discriminate.
  - cbn [mem] in *. apply orb_true_iff in Ha as [Hd|Ha];
      [rewrite Hd; reflexivity|rewrite (IH Ha); apply orb_true_r].
  - rewrite mem_app, HR. reflexivity.
Qed.

(** A literal without backslash that the result opens with, the text
    opened with: the replacement starts with a backslash. *)
Lemma rw_ci_prefix_back K M R b a o :
  rw K M R b a o -> head R = Some BACKSLASH ->
  forall w, forallb (fun p => negb (ci_eq p BACKSLASH)) w = true ->
  ci_prefix w o = true -> ci_prefix w a = true.
Proof.
  intros H HR. induction H as [b|b d a o HK H IH|b x a o HM Hx H IH]; intros w Hw Hp.
  - exact Hp.
  - destruct w as [|p w]; [reflexivity|]. cbn [ci_prefix forallb] in *.
    apply andb_true_iff in Hw as [_ Hw]. apply andb_true_iff in Hp as [-> Hp].
    apply (IH w Hw Hp).
  - destruct w as [|p w]; [reflexivity|]. exfalso.
    destruct R as [|e R]; [discriminate|]. injection HR as ->.
    cbn [app ci_prefix forallb] in *.
    apply andb_true_iff in Hw as [Hw _]. apply andb_true_iff in Hp as [Hp _].
    rewrite Hp in Hw. discriminate.
Qed.

Lemma last_mem (s : str) c : last s = Some c -> mem c s = true.
Proof.
  intros H. apply last_snoc_inv in H as (u & ->).
  rewrite mem_app. cbn [mem]. rewrite N.eqb_refl. apply orb_true_r.
Qed.

(** The rules keep the openings closed. *)
Lemma rw_closed K M R b a o :
  rw K M R b a o -> head R = Some BACKSLASH -> last R = Some 125 ->
  closed a -> closed o.
Proof.
  intros H HR1 HR2.
  induction H as [b|b d a o HK H IH|b x a o HM Hx H IH]; intros Hc.
  - exact Hc.
  - specialize (IH (closed_suffix [d] a Hc)).
    intros title Hin p1 c p2 E Hp. rewrite app_nil_r in Hp.
    destruct p1 as [|e p1]; cbn [app] in E; injection E as <- E.
    + subst o. pose proof (section_title_listed title Hin) as (Ht & _).
      assert (Ha : ci_prefix (bold_opening title) (d :: a) = true).
      { unfold bold_opening, BOLD_OPEN in *.
        cbn [text list_ascii_of_string map app ci_prefix] in *.
        apply andb_true_iff in Hp as [-> Hp]. cbn [andb].
        apply (rw_ci_prefix_back _ _ _ _ _ _ H HR1 _ (opening_tail title Ht) Hp). }
      specialize (Hc title Hin [] d a eq_refl). rewrite app_nil_r in Hc.
      specialize (Hc Ha). cbn [mem] in *.
      apply orb_true_iff in Hc as [Hd|Hc]; [rewrite Hd; reflexivity|].
      rewrite (rw_mem_true _ _ _ _ _ _ _ H (last_mem _ _ HR2) Hc). apply orb_true_r.
    + apply (IH title Hin p1 c p2 E). rewrite app_nil_r. exact Hp.
  - specialize (IH (closed_suffix x a Hc)).
    intros title Hin p1 c p2 E Hp.
    apply app_eq_app in E as [l [[E1 E2]|[E1 E2]]].
    + destruct l as [|e l].
      * cbn [app] in E2. apply (IH title Hin [] c p2); [symmetry; exact E2|exact Hp].
      * cbn [app] in E2. injection E2 as -> ->.
        rewrite E1 in HR2. rewrite last_app_cons in HR2.
        change (e :: l ++ o) with ((e :: l) ++ o). rewrite mem_app.
        rewrite (last_mem _ _ HR2). reflexivity.
    + apply (IH title Hin l c p2); [exact E2|exact Hp].
Qed.

Lemma promote_section_rw title s :
  In title SECTION_PATTERNS ->
  rw (fun b s => match_at true (bold_title title) b s = None)
     (fun b x a => exists g, match_at true (bold_title title) b (x ++ a)
                             = Some (rev x ++ b, a, g))
     (SECTION_HEADING title) [] s (promote_section s title).
Proof.
  intros Hin. destruct (section_title_listed title Hin) as (_ & Ht & _).
  apply (re_sub_rw true _ _ _ s Ht (bold_title_consumes title)).
Qed.

Lemma promote_closed title P :
  In title SECTION_PATTERNS -> closed P -> closed (promote_section P title).
Proof.
  intros Hin. destruct (section_title_listed title Hin) as (_ & _ & H1 & H2).
  apply (rw_closed _ _ _ _ _ _ (promote_section_rw title P Hin) H1 H2).
Qed.

Lemma promote_mem title y :
  In title SECTION_PATTERNS -> mem 125 y = true -> mem 125 (promote_section y title) = true.
Proof.
  intros Hin. destruct (section_title_listed title Hin) as (_ & _ & _ & H2).
  apply (rw_mem_true _ _ _ _ _ _ _ (promote_section_rw title y Hin) (last_mem _ _ H2)).
Qed.

(** *** One turn of the loop, piece by piece *)

Lemma promote_app title P rest :
  plain_title title = true -> closes_in title P rest ->
  promote_section (P ++ rest) title
  = promote_section P title ++ promote_section rest title.
Proof.
  intros Ht Hc. unfold promote_section, re_sub.
  rewrite (bold_scan_app title _ Ht (length P) P [] rest (le_n _) Hc). f_equal.
  apply (bold_scan_behind title _ (length rest)). lia.
Qed.

Lemma promote_keeps title u rest :
  quiet true (bold_title title) [] u rest ->
  promote_section (u ++ rest) title = u ++ promote_section rest title.
Proof.
  intros Hq. unfold promote_section, re_sub.
  rewrite sub_loop_quiet by exact Hq. f_equal.
  apply (bold_scan_behind title _ (length rest)). lia.
Qed.

(** The rule of another title passes over the opening of the marker. *)
Lemma promote_marker_other title y :
  (forall r, ci_prefix (bold_opening title) (COLLOIDS_BOLD ++ r) = false) ->
  promote_section (COLLOIDS_BOLD ++ y) title = COLLOIDS_BOLD ++ promote_section y title.
Proof.
  intros Hmis. apply promote_keeps.
  unfold COLLOIDS_BOLD. cbn [text list_ascii_of_string map].
  apply quiet_cons; [apply bold_title_needs; exact (Hmis y)|].
  repeat (apply quiet_cons; [apply bold_title_opens; reflexivity|]).
  apply quiet_nil.
Qed.

(** The rule of "Colloids" replaces the marker up to its closing brace. *)
Lemma promote_marker x y :
  mem 125 x = false ->
  promote_section (COLLOIDS_BOLD ++ x ++ 125 :: y) "Colloids"
  = COLLOIDS_HEADING ++ promote_section y "Colloids".
Proof.
  intros Hx. unfold promote_section, re_sub.
  assert (Hm := bold_title_match "Colloids" [] x y eq_refl Hx).
  change (BOLD_OPEN ++ text "Colloids") with COLLOIDS_BOLD in Hm.
  replace (COLLOIDS_BOLD ++ x ++ 125 :: y) with ((COLLOIDS_BOLD ++ x ++ [125]) ++ y)
    by (rewrite <- !app_assoc; reflexivity).
  rewrite (sub_loop_hit true _ _ None _ (COLLOIDS_BOLD ++ x ++ [125]) y _ [] eq_refl)
    by (discriminate || (rewrite <- !app_assoc; exact Hm)).
  rewrite colloids_template. f_equal. cbn [dec_limit].
  apply (bold_scan_behind "Colloids" _ (length y)). lia.
Qed.

(** Every rule passes over the heading. *)
Lemma promote_heading title z :
  promote_section (COLLOIDS_HEADING ++ z) title
  = COLLOIDS_HEADING ++ promote_section z title.
Proof.
  apply promote_keeps.
  unfold COLLOIDS_HEADING. cbn [text list_ascii_of_string map app].
  repeat (apply quiet_cons; [apply bold_title_opens; reflexivity|]).
  apply quiet_nil.
Qed.

(** A stretch in which no title opens, up to a closing brace, is kept. *)
Lemma title_opens_none title : forall x x1 c x2,
  In title SECTION_PATTERNS -> title_opens x = false -> x = x1 ++ c :: x2 ->
  ci_prefix (bold_opening title) (c :: x2) = false.
Proof.
  intros x x1 c x2 Hin H ->. induction x1 as [|d x1 IH].
  - cbn [app title_opens] in H. apply orb_false_iff in H as [H _].
    destruct (ci_prefix (bold_opening title) (c :: x2)) eqn:E; [|reflexivity].
    assert (opens_title (c :: x2) = true); [|congruence].
    apply existsb_exists. exists title. split; assumption.
  - apply IH. cbn [app title_opens] in H. apply orb_false_iff in H as [_ H]. exact H.
Qed.

Lemma promote_closed_stretch title x post :
  In title SECTION_PATTERNS -> title_opens x = false ->
  promote_section (x ++ 125 :: post) title = x ++ 125 :: promote_section post title.
Proof.
  intros Hin Hx.
  replace (x ++ 125 :: post) with ((x ++ [125]) ++ post)
    by (rewrite <- app_assoc; reflexivity).
  rewrite promote_keeps; [rewrite <- app_assoc; reflexivity|].
  pose proof (section_title_listed title Hin) as (Ht & _).
  intros u1 c u2 E. rewrite app_nil_r.
  destruct u2 as [|d u2 _] using rev_ind.
  - assert (c = 125) by (apply app_inj_tail in E as [_ E]; congruence). subst c.
    apply bold_title_opens. reflexivity.
  - rewrite app_comm_cons, app_assoc in E. apply app_inj_tail in E as [E <-].
    apply bold_title_needs. fold (bold_opening title).
    destruct (ci_prefix (bold_opening title) (c :: (u2 ++ [125]) ++ post)) eqn:Ep;
      [|reflexivity].
    rewrite <- app_assoc in Ep. cbn [app] in Ep.
    change (c :: u2 ++ 125 :: post) with ((c :: u2) ++ 125 :: post) in Ep.
    pose proof (ci_prefix_before 125 _ (opening_no_brace title Ht) _ _ Ep) as Hlen.
    rewrite ci_prefix_short in Ep by exact Hlen.
    rewrite (title_opens_none title x u1 c u2 Hin Hx E) in Ep. discriminate.
Qed.

(** *** The loop *)

Lemma loop_closed titles : forall P,
  incl titles SECTION_PATTERNS -> closed P ->
  closed (fold_left promote_section titles P).
Proof.
  induction titles as [|t titles IH]; intros P Hin Hc; [exact Hc|].
  cbn [fold_left]. apply IH; [intros u Hu; apply Hin; right; exact Hu|].
  apply promote_closed; [apply Hin; left; reflexivity|exact Hc].
Qed.

Lemma loop_mem titles : forall y,
  incl titles SECTION_PATTERNS -> mem 125 y = true ->
  mem 125 (fold_left promote_section titles y) = true.
Proof.
  induction titles as [|t titles IH]; intros y Hin Hy; [exact Hy|].
  cbn [fold_left]. apply IH; [intros u Hu; apply Hin; right; exact Hu|].
  apply promote_mem; [apply Hin; left; reflexivity|exact Hy].
Qed.

Lemma loop_closed_stretch titles x : forall post,
  incl titles SECTION_PATTERNS -> title_opens x = false ->
  fold_left promote_section titles (x ++ 125 :: post)
  = x ++ 125 :: fold_left promote_section titles post.
Proof.
  induction titles as [|t titles IH]; intros post Hin Hx; [reflexivity|].
  cbn [fold_left].
  rewrite promote_closed_stretch by (exact Hx || apply Hin; left; reflexivity).
  apply IH; [intros u Hu; apply Hin; right; exact Hu|exact Hx].
Qed.

(** The turns before the one of "Colloids". *)
Lemma loop_before titles : forall P y,
  incl titles SECTION_PATTERNS ->
  Forall (fun t => forall r, ci_prefix (bold_opening t) (COLLOIDS_BOLD ++ r) = false)
    titles ->
  closed P ->
  fold_left promote_section titles (P ++ COLLOIDS_BOLD ++ y)
  = fold_left promote_section titles P ++ COLLOIDS_BOLD
    ++ fold_left promote_section titles y.
Proof.
  induction titles as [|t titles IH]; intros P y Hin Hmis Hc; [reflexivity|].
  cbn [fold_left]. apply Forall_cons_iff in Hmis as [Ht Hmis].
  assert (Hl : In t SECTION_PATTERNS) by (apply Hin; left; reflexivity).
  rewrite promote_app.
  - rewrite promote_marker_other by exact Ht.
    apply IH; [intros u Hu; apply Hin; right; exact Hu|exact Hmis|].
    apply promote_closed; assumption.
  - apply section_title_listed, Hl.
  - apply closed_closes_in; [exact Hl|exact Hc|reflexivity].
Qed.

(** The turns after it. *)
Lemma loop_after titles : forall P z,
  incl titles SECTION_PATTERNS -> closed P ->
  fold_left promote_section titles (P ++ COLLOIDS_HEADING ++ z)
  = fold_left promote_section titles P ++ COLLOIDS_HEADING
    ++ fold_left promote_section titles z.
Proof.
  induction titles as [|t titles IH]; intros P z Hin Hc; [reflexivity|].
  cbn [fold_left].
  assert (Hl : In t SECTION_PATTERNS) by (apply Hin; left; reflexivity).
  rewrite promote_app.
  - rewrite promote_heading.
    apply IH; [intros u Hu; apply Hin; right; exact Hu|].
    apply promote_closed; assumption.
  - apply section_title_listed, Hl.
  - apply closed_closes_in; [exact Hl|exact Hc|reflexivity].
Qed.

Definition TITLES_BEFORE : list string := firstn 6 SECTION_PATTERNS.
Definition TITLES_AFTER : list string := skipn 7 SECTION_PATTERNS.

Lemma section_patterns_split :
  SECTION_PATTERNS = TITLES_BEFORE ++ "Colloids"%string :: TITLES_AFTER.
Proof. reflexivity. Qed.

Lemma titles_before_listed : incl TITLES_BEFORE SECTION_PATTERNS.
Proof.
  intros t H. rewrite section_patterns_split. apply in_app_iff. left. exact H.
Qed.

Lemma titles_after_listed : incl TITLES_AFTER SECTION_PATTERNS.
Proof.
  intros t H. rewrite section_patterns_split. apply in_app_iff. right. right. exact H.
Qed.

Lemma titles_before_differ :
  Forall (fun t => forall r, ci_prefix (bold_opening t) (COLLOIDS_BOLD ++ r) = false)
    TITLES_BEFORE.
Proof. repeat constructor. Qed.

(** The whole loop around the marker, for any way the turns before the one
    of "Colloids" leave the text after the opening of the marker. *)
Lemma loop_around_marker pre y x' y2 :
  closed pre ->
  fold_left promote_section TITLES_BEFORE y = x' ++ 125 :: y2 ->
  mem 125 x' = false ->
  fold_left promote_section SECTION_PATTERNS (pre ++ COLLOIDS_BOLD ++ y)
  = fold_left promote_section SECTION_PATTERNS pre ++ COLLOIDS_HEADING
    ++ fold_left promote_section TITLES_AFTER (promote_section y2 "Colloids").
Proof.
  intros Hc Hy Hx'. rewrite section_patterns_split, !fold_left_app. cbn [fold_left].
  rewrite (loop_before TITLES_BEFORE pre y titles_before_listed titles_before_differ Hc).
  rewrite Hy.
  assert (Hc6 := loop_closed TITLES_BEFORE pre titles_before_listed Hc).
  assert (Hl : In "Colloids"%string SECTION_PATTERNS)
    by (rewrite section_patterns_split; apply in_app_iff; right; left; reflexivity).
  rewrite promote_app.
  - rewrite promote_marker by exact Hx'.
    apply loop_after; [apply titles_after_listed|].
    apply promote_closed; assumption.
  - reflexivity.
  - apply closed_closes_in; [exact Hl|exact Hc6|reflexivity].
Qed.

(** The first [c] of a text is where it is. *)
Lemma first_split_unique c (u u' v v' : str) :
  u ++ c :: v = u' ++ c :: v' -> mem c u = false -> mem c u' = false ->
  u = u' /\ v = v'.
Proof.
  revert u'. induction u as [|d u IH]; intros [|d' u'] E Hu Hu'; cbn [app mem] in *.
  - injection E as <-. split; reflexivity.
  - injection E as <- _. rewrite N.eqb_refl in Hu'. discriminate.
  - injection E as -> _. rewrite N.eqb_refl in Hu. discriminate.
  - injection E as <- E. apply orb_false_iff in Hu as [_ Hu].
    apply orb_false_iff in Hu' as [_ Hu'].
    destruct (IH u' E Hu Hu') as [-> ->]. split; reflexivity.
Qed.

(** ** Acronym folding around the tags it has written *)

(** The tag [\ac{SHORT}]. *)
Definition ac_tag (short : string) : str := text "\ac{" ++ text short ++ text "}".

(** [x] is [w] character by character when case is ignored. *)
Definition same_ci (w x : str) : Prop := ci_prefix w x = true /\ length x = length w.

(** An introduction of an acronym: the full form, white space, and the
    short form in parentheses, case ignored. *)
Definition introduces (short full : string) (x : str) : Prop :=
  exists f sp sh,
    x = f ++ sp ++ 40 :: sh ++ [41]
    /\ same_ci (text full) f /\ forallb is_space sp = true /\ same_ci (text short) sh.

(** One pass of folding, told without the matcher: some places where an
    acronym of the table is introduced or where its short form stands are
    rewritten to the tag of the acronym, the other characters are kept. *)
Inductive tagging : str -> str -> Prop :=
| tagging_nil : tagging [] []
| tagging_keep c s o : tagging s o -> tagging (c :: s) (c :: o)
| tagging_fold short full x s o :
    In (short, full) ACRONYMS ->
    x = text short \/ introduces short full x ->
    tagging s o ->
    tagging (x ++ s) (ac_tag short ++ o).

(** Any number of passes. *)
Inductive folded : str -> str -> Prop :=
| folded_refl s : folded s s
| folded_step s o o' : tagging s o -> folded o o' -> folded s o'.

Lemma tagging_refl s : tagging s s.
Proof. induction s; constructor; assumption. Qed.

Lemma folded_once s o : tagging s o -> folded s o.
Proof. intros H. eapply folded_step; [exact H|apply folded_refl]. Qed.

Lemma folded_trans s o o' : folded s o -> folded o o' -> folded s o'.
Proof.
  induction 1 as [|s o1 o2 H1 H2 IH]; [auto|].
  intros H. eapply folded_step; [exact H1|auto].
Qed.

Lemma folded_snoc s o o' : folded s o -> tagging o o' -> folded s o'.
Proof. intros H1 H2. eapply folded_trans; [exact H1|apply folded_once, H2]. Qed.

(** *** The introduction pattern read off the text ahead *)

Definition full_span (short full : string) (a : str) : option (str * str) :=
  if ci_prefix (text full) a then
    let '(sp, r) := span is_space (skipn (length (text full)) a) in
    match r with
    | c :: r' =>
        if (c =? 40) && ci_prefix (text short) r' then
          match skipn (length (text short)) r' with
          | d :: rest =>
              if d =? 41
              then Some (firstn (length (text full)) a ++ sp
                         ++ c :: firstn (length (text short)) r' ++ [d], rest)
              else None
          | [] => None
          end
        else None
    | [] => None
    end
  else None.

Lemma is_space_not_paren c : is_space c = true -> (c =? 40) = false.
Proof.
  intros H. destruct (c =? 40) eqn:E; [|reflexivity].
  apply N.eqb_eq in E. subst c. discriminate.
Qed.

Lemma full_form_span short full b a :
  match_at true (full_form short full) b a
  = match full_span short full a with
    | Some (x, rest) => Some (rev x ++ b, rest, [])
    | None => None
    end.
Proof.
  unfold match_at, full_form, full_span. cbn [Concat].
  rewrite rx_Seq, rx_Lit_ci.
  destruct (ci_prefix (text full) a); [|reflexivity]. cbv beta.
  set (n := length (text full)). set (f := firstn n a).
  cbn [rx]. rewrite star_greedy_stop.
  - rewrite (span_ext _ is_space _ (in_SPACES true)).
    destruct (span is_space (skipn n a)) as [sp [|c r']]; cbn [fst snd]; [reflexivity|].
    rewrite in_One_nonletter by reflexivity.
    destruct (c =? 40) eqn:Ec; cbn [andb]; [|reflexivity].
    rewrite rx_Lit_ci.
    destruct (ci_prefix (text short) r'); [|reflexivity].
    set (m := length (text short)).
    destruct (skipn m r') as [|d rest]; [reflexivity|].
    rewrite in_One_nonletter by reflexivity.
    destruct (d =? 41); [|reflexivity]. unfold accept.
    rewrite !rev_app_distr. cbn [rev app]. rewrite !rev_app_distr. cbn [rev app].
    rewrite <- !app_assoc. reflexivity.
  - intros b' c a' Hc. rewrite in_SPACES in Hc.
    rewrite in_One_nonletter, (is_space_not_paren c Hc) by reflexivity. reflexivity.
Qed.

Lemma ci_prefix_firstn w : forall a,
  ci_prefix w a = true -> same_ci w (firstn (length w) a).
Proof.
  induction w as [|p w IH]; intros a H; [split; reflexivity|].
  destruct a as [|c a]; [discriminate|]. cbn [ci_prefix] in H.
  apply andb_true_iff in H as [Hc H]. destruct (IH a H) as [H1 H2].
  split; cbn [length firstn ci_prefix]; [rewrite Hc, H1; reflexivity|].
  cbn [length]. rewrite H2. reflexivity.
Qed.

Lemma full_span_split short full a x rest :
  full_span short full a = Some (x, rest) -> a = x ++ rest /\ introduces short full x.
Proof.
  unfold full_span. destruct (ci_prefix (text full) a) eqn:Ef; [|discriminate].
  destruct (span is_space (skipn (length (text full)) a)) as [sp r] eqn:Es.
  destruct r as [|c r']; [discriminate|].
  destruct (c =? 40) eqn:Ec; cbn [andb]; [|discriminate].
  destruct (ci_prefix (text short) r') eqn:Eh; [|discriminate].
  destruct (skipn (length (text short)) r') as [|d rest'] eqn:Er; [discriminate|].
  destruct (d =? 41) eqn:Ed; [|discriminate].
  intros [= <- <-]. apply N.eqb_eq in Ec, Ed. subst c d. split.
  - rewrite <- (firstn_skipn (length (text full)) a) at 1.
    rewrite <- (span_app is_space (skipn (length (text full)) a)), Es. cbn [fst snd].
    rewrite <- (firstn_skipn (length (text short)) r') at 1. rewrite Er.
    rewrite <- !app_assoc. cbn [app]. rewrite <- !app_assoc. reflexivity.
  - exists (firstn (length (text full)) a), sp, (firstn (length (text short)) r').
    split; [reflexivity|]. split; [apply ci_prefix_firstn, Ef|].
    split; [|apply ci_prefix_firstn, Eh].
    pose proof (span_all is_space (skipn (length (text full)) a)) as H.
    rewrite Es in H. exact H.
Qed.

Lemma introduces_length short full x :
  introduces short full x -> (length (text full) + length (text short) + 2 <= length x)%nat.
Proof.
  intros (f & sp & sh & -> & [_ Hf] & _ & [_ Hs]).
  rewrite !length_app. cbn [length]. rewrite length_app. cbn [length]. lia.
Qed.

Lemma introduces_nonempty short full x : introduces short full x -> x <> [].
Proof. intros H ->. apply introduces_length in H. cbn in H. lia. Qed.

Lemma full_form_consumes short full : consumes true (full_form short full).
Proof.
  intros b a b1 g E. rewrite full_form_span in E.
  destruct (full_span short full a) as [[x rest]|] eqn:Es; [|discriminate].
  injection E as _ E _. apply full_span_split in Es as [Ea Hx]. subst rest.
  apply (introduces_nonempty _ _ _ Hx). apply (f_equal (@length N)) in Ea.
  rewrite length_app in Ea. destruct x; [reflexivity|cbn in Ea; lia].
Qed.

(** What a match of the introduction pattern is. *)
Lemma full_form_hit short full b x a g :
  match_at true (full_form short full) b (x ++ a) = Some (rev x ++ b, a, g) ->
  full_span short full (x ++ a) = Some (x, a) /\ introduces short full x.
Proof.
  intros E. rewrite full_form_span in E.
  destruct (full_span short full (x ++ a)) as [[x' rest]|] eqn:Es; [|discriminate].
  injection E as E1 E2 _. subst rest.
  apply app_inv_tail in E1. apply (f_equal (@rev N)) in E1. rewrite !rev_involutive in E1.
  subst x'. split; [reflexivity|]. apply (full_span_split _ _ _ _ _ Es).
Qed.

(** What a match of the bare pattern is. *)
Lemma bare_short_hit short b x a g :
  match_at false (bare_short short) b (x ++ a) = Some (rev x ++ b, a, g) ->
  x = text short
  /\ is_prefix (rev (text "\ac{")) b = false
  /\ match b with c :: _ => is_ascii_letter c | [] => false end = false
  /\ token_end a = true.
Proof.
  rewrite bare_short_match.
  destruct (is_prefix (rev (text "\ac{")) b); cbn [negb andb]; [discriminate|].
  destruct (match b with c :: _ => is_ascii_letter c | [] => false end);
    cbn [negb andb]; [discriminate|].
  destruct (is_prefix (text short) (x ++ a)) eqn:Ep; cbn [andb]; [|discriminate].
  destruct (token_end (skipn (length (text short)) (x ++ a))) eqn:Et; [|discriminate].
  intros [= E1 E2]. rewrite E2 in Et.
  apply app_inv_tail in E1. apply (f_equal (@rev N)) in E1. rewrite !rev_involutive in E1.
  subst x. auto.
Qed.

Lemma bare_short_consumes short : text short <> [] -> consumes false (bare_short short).
Proof.
  intros Hs b a b1 g E.
  destruct (match_at_inv _ _ _ _ _ _ _ E) as (x & Ha & ->).
  assert (x = []).
  { apply (f_equal (@length N)) in Ha. rewrite length_app in Ha.
    destruct x; [reflexivity|cbn in Ha; lia]. }
  subst x. apply (bare_short_hit short b [] a g) in E as [E _]. congruence.
Qed.

(** *** The entries of the table *)

(** The characters the tags are made of and the texts of the table are
    not: backslash and the two braces. *)
Definition special (c : N) : bool := mem c [BACKSLASH; 123; 125].

Definition plain (x : str) : bool := forallb (fun c => negb (special c)) x.

(** A pattern character that matches no special character in any case. *)
Definition usual (p : N) : bool :=
  negb (ci_eq p BACKSLASH || ci_eq p 123 || ci_eq p 125).

Definition entry_ok (entry : string * string) : bool :=
  let '(short, full) := entry in
  forallb usual (text full) && forallb usual (text short)
  && negb (length (text full) =? 0)%nat
  && match text short with
     | c :: _ => negb (mem c [97; 99])
     | [] => false
     end.

Lemma entries_ok : forallb entry_ok ACRONYMS = true.
Proof. vm_compute. reflexivity. Qed.

Lemma templates_ok :
  Forall (fun entry => forall g, expand (ac_template entry.1) g = ac_tag entry.1) ACRONYMS.
Proof.
  unfold ACRONYMS.
  repeat (apply List.Forall_cons; [intros g; vm_compute; reflexivity|]).
  apply List.Forall_nil.
Qed.

Lemma entry_facts short full :
  In (short, full) ACRONYMS ->
  forallb usual (text full) = true /\ forallb usual (text short) = true
  /\ text full <> []
  /\ (exists c s, text short = c :: s /\ mem c [97; 99] = false)
  /\ (forall g, expand (ac_template short) g = ac_tag short).
Proof.
  intros Hin.
  pose proof (proj1 (forallb_forall _ _) entries_ok _ Hin) as H. cbn [entry_ok] in H.
  apply andb_true_iff in H as [H H3]. apply andb_true_iff in H as [H H0].
  apply andb_true_iff in H as [H1 H2].
  repeat split; try assumption.
  - intros E. rewrite E in H0. discriminate.
  - destruct (text short) as [|c s]; [discriminate|]. exists c, s.
    split; [reflexivity|]. apply negb_true_iff, H3.
  - apply (proj1 (List.Forall_forall _ _) templates_ok _ Hin).
Qed.

Lemma special_cases c : special c = true -> c = BACKSLASH \/ c = 123 \/ c = 125.
Proof.
  unfold special. cbn [mem]. intros H.
  repeat (apply orb_true_iff in H as [H|H]; [apply N.eqb_eq in H; auto|]).
  discriminate.
Qed.

Lemma usual_plain w : forallb usual w = true ->
  forall x, ci_prefix w x = true -> length x = length w -> plain x = true.
Proof.
  induction w as [|p w IH]; intros Hw x Hx Hlen.
  - destruct x; [reflexivity|discriminate].
  - destruct x as [|c x]; [discriminate|]. cbn [forallb ci_prefix length plain] in *.
    apply andb_true_iff in Hw as [Hp Hw]. apply andb_true_iff in Hx as [Hc Hx].
    fold (plain x). rewrite (IH Hw x Hx) by lia. rewrite andb_true_r.
    unfold usual in Hp. apply negb_true_iff in Hp.
    apply orb_false_iff in Hp as [Hp H3]. apply orb_false_iff in Hp as [H1 H2].
    destruct (special c) eqn:E; [|reflexivity].
    apply special_cases in E as [-> | [-> | ->]]; congruence.
Qed.

Lemma spaces_plain sp : forallb is_space sp = true -> plain sp = true.
Proof.
  induction sp as [|c sp IH]; [reflexivity|]. cbn [forallb plain].
  intros H. apply andb_true_iff in H as [Hc H]. fold (plain sp). rewrite (IH H), andb_true_r.
  destruct (special c) eqn:E; [|reflexivity].
  apply special_cases in E as [-> | [-> | ->]]; discriminate.
Qed.

Lemma plain_app x y : plain (x ++ y) = plain x && plain y.
Proof. apply forallb_app. Qed.

Lemma introduces_plain short full x :
  In (short, full) ACRONYMS -> introduces short full x -> plain x = true.
Proof.
  intros Hin (f & sp & sh & -> & [Hf Lf] & Hsp & [Hs Ls]).
  destruct (entry_facts short full Hin) as (H1 & H2 & _).
  rewrite plain_app, (usual_plain _ H1 f Hf Lf), plain_app, (spaces_plain sp Hsp).
  cbn [andb plain forallb]. fold (plain (sh ++ [41])).
  rewrite plain_app, (usual_plain _ H2 sh Hs Ls). reflexivity.
Qed.

Lemma short_plain short full :
  In (short, full) ACRONYMS -> plain (text short) = true.
Proof.
  intros Hin. destruct (entry_facts short full Hin) as (_ & H2 & _).
  apply (usual_plain _ H2).
  - clear. induction (text short) as [|c s IH]; [reflexivity|].
    cbn [ci_prefix]. rewrite IH, andb_true_r. unfold ci_eq. rewrite N.eqb_refl. reflexivity.
  - reflexivity.
Qed.

(** *** A pass over a text that holds the tag *)

Lemma plain_prefix x : forall p a' q,
  x ++ a' = p ++ BACKSLASH :: q -> plain x = true ->
  exists p2, p = x ++ p2 /\ a' = p2 ++ BACKSLASH :: q.
Proof.
  induction x as [|d x IH]; intros p a' q E Hx.
  - exists p. split; [reflexivity|exact E].
  - cbn [plain forallb] in Hx. apply andb_true_iff in Hx as [Hd Hx].
    destruct p as [|e p]; cbn [app] in E; injection E as -> E.
    + discriminate.
    + destruct (IH p a' q E Hx) as (p2 & -> & ->). exists p2. split; reflexivity.
Qed.

Section Pass.

Variables (K : str -> str -> Prop) (M : str -> str -> str -> Prop).
Variables (short full : string).
Hypothesis Hentry : In (short, full) ACRONYMS.

(** The matches of the pass are introductions of the acronym, or its short
    form where neither the opening of a tag nor a letter stands before. *)
Hypothesis Hhit : forall b x a, M b x a ->
  introduces short full x
  \/ (x = text short
      /\ is_prefix (rev (text "\ac{")) b = false
      /\ match b with c :: _ => is_ascii_letter c | [] => false end = false).

Let R := ac_tag short.

Lemma hit_names b x a : M b x a -> x = text short \/ introduces short full x.
Proof. intros H. destruct (Hhit b x a H) as [H1|(H1 & _)]; auto. Qed.

Lemma hit_plain b x a : M b x a -> plain x = true.
Proof.
  intros H. destruct (Hhit b x a H) as [H1|(-> & _)].
  - apply (introduces_plain short full x Hentry H1).
  - apply (short_plain short full Hentry).
Qed.

Lemma hit_facts b x a :
  M b x a ->
  plain x = true
  /\ ((4 <= length x)%nat
      \/ (exists c s, x = c :: s /\ mem c [97; 99] = false)
         /\ is_prefix (rev (text "\ac{")) b = false
         /\ match b with c :: _ => is_ascii_letter c | [] => false end = false).
Proof.
  intros H. split; [apply (hit_plain b x a H)|].
  destruct (entry_facts short full Hentry) as (_ & _ & Hf & Hs & _).
  destruct (Hhit b x a H) as [H1|(-> & H1 & H2)].
  - left. apply introduces_length in H1.
    destruct (text full); [congruence|]. destruct Hs as (c & s & Es & _).
    rewrite Es in H1. cbn [length] in H1. lia.
  - right. auto.
Qed.

Lemma rw_tagging b a o : rw K M R b a o -> tagging a o.
Proof.
  induction 1 as [b|b c a o HK H IH|b x a o HM Hx H IH].
  - apply tagging_nil.
  - apply tagging_keep, IH.
  - apply (tagging_fold short full); [exact Hentry|apply (hit_names b x a HM)|exact IH].
Qed.

Lemma rw_cons_inv b c a o :
  rw K M R b (c :: a) o ->
  (exists o', o = c :: o' /\ rw K M R (c :: b) a o')
  \/ (exists x a' o', c :: a = x ++ a' /\ x <> [] /\ M b x a' /\ o = R ++ o'
                      /\ rw K M R (rev x ++ b) a' o').
Proof.
  intros H. inversion H as [|b' c' a' o' HK H'|b' x a' o' HM Hx H' E]; subst.
  - left. eauto.
  - right. exists x, a', o'. auto.
Qed.

(** The pass goes through a stretch up to a backslash and leaves it
    folded. *)
Lemma rw_piece : forall n p b q o,
  (length p <= n)%nat ->
  rw K M R b (p ++ BACKSLASH :: q) o ->
  exists p' o', o = p' ++ o' /\ tagging p p'
                /\ rw K M R (rev p ++ b) (BACKSLASH :: q) o'.
Proof.
  induction n as [|n IH]; intros p b q o Hn H.
  - destruct p; [|cbn in Hn; lia]. exists [], o. split; [reflexivity|].
    split; [apply tagging_nil|exact H].
  - destruct p as [|c p].
    + exists [], o. split; [reflexivity|]. split; [apply tagging_nil|exact H].
    + cbn [app] in H. apply rw_cons_inv in H
        as [(o1 & -> & H)|(x & a' & o1 & E & Hx & HM & -> & H)].
      * cbn in Hn. destruct (IH p (c :: b) q o1 ltac:(lia) H) as (p' & o' & -> & Ht & H').
        exists (c :: p'), o'. split; [reflexivity|]. split; [apply tagging_keep, Ht|].
        cbn [rev]. rewrite <- app_assoc. exact H'.
      * change (c :: p ++ BACKSLASH :: q) with ((c :: p) ++ BACKSLASH :: q) in E.
        symmetry in E.
        destruct (plain_prefix x _ _ _ E (hit_plain _ _ _ HM)) as (p2 & Ep & ->).
        assert (Hlen : (length p2 <= n)%nat).
        { apply (f_equal (@length N)) in Ep. rewrite length_app in Ep.
          cbn [length] in Hn, Ep. destruct x; [congruence|cbn [length] in Ep; lia]. }
        destruct (IH p2 (rev x ++ b) q o1 Hlen H) as (p' & o' & -> & Ht & H').
        exists (R ++ p'), o'. rewrite <- app_assoc. split; [reflexivity|].
        rewrite Ep. split.
        -- apply (tagging_fold short full);
             [exact Hentry|apply (hit_names _ _ _ HM)|exact Ht].
        -- rewrite rev_app_distr, <- app_assoc. exact H'.
Qed.

(** The pass goes through a stretch [p] up to [rest] and leaves it folded,
    when no match that starts in [p] runs into [rest]. *)
Lemma rw_stretch rest : forall n p b o,
  (length p <= n)%nat ->
  (forall p1 p2 b' x a', p = p1 ++ p2 -> p2 <> [] -> M b' x a' ->
     x ++ a' = p2 ++ rest -> exists p3, p2 = x ++ p3 /\ a' = p3 ++ rest) ->
  rw K M R b (p ++ rest) o ->
  exists p' o', o = p' ++ o' /\ tagging p p' /\ rw K M R (rev p ++ b) rest o'.
Proof.
  induction n as [|n IH]; intros p b o Hn Hbar H.
  - destruct p; [|cbn in Hn; lia]. exists [], o. split; [reflexivity|].
    split; [apply tagging_nil|exact H].
  - destruct p as [|c p].
    + exists [], o. split; [reflexivity|]. split; [apply tagging_nil|exact H].
    + cbn [app] in H. apply rw_cons_inv in H
        as [(o1 & -> & H)|(x & a' & o1 & E & Hx & HM & -> & H)].
      * cbn in Hn.
        destruct (IH p (c :: b) o1 ltac:(lia)) as (p' & o' & -> & Ht & H').
        { intros p1 p2 b' x a' Ep. apply (Hbar (c :: p1) p2 b' x a'). rewrite Ep.
          reflexivity. }
        { exact H. }
        exists (c :: p'), o'. split; [reflexivity|]. split; [apply tagging_keep, Ht|].
        cbn [rev]. rewrite <- app_assoc. exact H'.
      * change (c :: p ++ rest) with ((c :: p) ++ rest) in E. symmetry in E.
        destruct (Hbar [] (c :: p) b x a' eq_refl ltac:(discriminate) HM E)
          as (p3 & Ep & ->).
        assert (Hlen : (length p3 <= n)%nat).
        { apply (f_equal (@length N)) in Ep. rewrite length_app in Ep.
          cbn [length] in Hn, Ep. destruct x; [congruence|cbn [length] in Ep; lia]. }
        destruct (IH p3 (rev x ++ b) o1 Hlen) as (p' & o' & -> & Ht & H').
        { intros p1 p2 b' y a' Ep3. apply (Hbar (x ++ p1) p2 b' y a').
          rewrite Ep, Ep3, app_assoc. reflexivity. }
        { exact H. }
        exists (R ++ p'), o'. rewrite <- app_assoc. split; [reflexivity|].
        rewrite Ep. split.
        -- apply (tagging_fold short full);
             [exact Hentry|apply (hit_names _ _ _ HM)|exact Ht].
        -- rewrite rev_app_distr, <- app_assoc. exact H'.
Qed.

Lemma rw_step b c a o :
  rw K M R b (c :: a) o ->
  (forall x a', x <> [] -> c :: a = x ++ a' -> M b x a' -> False) ->
  exists o', o = c :: o' /\ rw K M R (c :: b) a o'.
Proof.
  intros H Hno. apply rw_cons_inv in H as [H|(x & a' & o1 & E & Hx & HM & _)];
    [exact H|].
  destruct (Hno x a' Hx E HM).
Qed.

Ltac no_hit :=
  let x := fresh "x" in let a' := fresh "a'" in let Hx := fresh "Hx" in
  let E := fresh "E" in let HM := fresh "HM" in
  intros x a' Hx E HM;
  destruct (hit_facts _ _ _ HM) as [Hp [Hl|((c0 & s0 & -> & Hc) & Hb1 & Hb2)]];
  [ destruct x as [|? [|? [|? [|? ?]]]]; cbn [length] in Hl; try lia;
    cbn [app] in E; injection E; intros; subst; cbn in Hp; discriminate
  | cbn [app] in E; injection E; intros; subst; cbn in Hp, Hc, Hb1, Hb2;
    discriminate ].

(** It copies the tag. *)
Lemma rw_over_tag b q o :
  rw K M R b (NRL_TAG ++ q) o ->
  exists q', o = NRL_TAG ++ q' /\ rw K M R (rev NRL_TAG ++ b) q q'.
Proof.
  unfold NRL_TAG. cbn [text list_ascii_of_string map app rev]. intros H.
  apply rw_step in H as (o1 & -> & H); [|no_hit].
  apply rw_step in H as (o2 & -> & H); [|no_hit].
  apply rw_step in H as (o3 & -> & H); [|no_hit].
  apply rw_step in H as (o4 & -> & H); [|no_hit].
  apply rw_step in H as (o5 & -> & H); [|no_hit].
  apply rw_step in H as (o6 & -> & H); [|no_hit].
  apply rw_step in H as (o7 & -> & H); [|no_hit].
  apply rw_step in H as (o8 & -> & H); [|no_hit].
  exists o8. split; [reflexivity|exact H].
Qed.

(** So it keeps two tags where they are and folds the three stretches
    around them. *)
Lemma rw_around_tags bk a b c o :
  rw K M R bk (a ++ NRL_TAG ++ b ++ NRL_TAG ++ c) o ->
  exists a' b' c',
    o = a' ++ NRL_TAG ++ b' ++ NRL_TAG ++ c'
    /\ tagging a a' /\ tagging b b' /\ tagging c c'.
Proof.
  intros H.
  apply (rw_piece (length a) a bk _ _ (le_n _)) in H as (a' & o1 & -> & Ha & H).
  apply (rw_over_tag _ (b ++ NRL_TAG ++ c)) in H as (o2 & -> & H).
  apply (rw_piece (length b) b _ _ _ (le_n _)) in H as (b' & o3 & -> & Hb & H).
  apply (rw_over_tag _ c) in H as (c' & -> & H).
  exists a', b', c'. split; [reflexivity|].
  split; [exact Ha|]. split; [exact Hb|]. apply (rw_tagging _ _ _ H).
Qed.

End Pass.

(** Where the pattern matches, the pass puts the replacement. *)
Lemma rw_at_match ic r R b x0 q g0 o :
  x0 <> [] ->
  match_at ic r b (x0 ++ q) = Some (rev x0 ++ b, q, g0) ->
  rw (fun b s => match_at ic r b s = None)
     (fun b x a => exists g, match_at ic r b (x ++ a) = Some (rev x ++ b, a, g))
     R b (x0 ++ q) o ->
  exists o',
    o = R ++ o'
    /\ rw (fun b s => match_at ic r b s = None)
          (fun b x a => exists g, match_at ic r b (x ++ a) = Some (rev x ++ b, a, g))
          R (rev x0 ++ b) q o'.
Proof.
  intros Hx0 Hm H. remember (x0 ++ q) as s eqn:Es.
  destruct H as [b|b c a o' HK H'|b x a o' [g HM] Hx H'].
  - destruct x0; [congruence|discriminate].
  - congruence.
  - rewrite Hm in HM. injection HM as E1 E2 _. subst a.
    apply app_inv_tail in E1. apply (f_equal (@rev N)) in E1.
    rewrite !rev_involutive in E1. subst x. exists o'. split; [reflexivity|exact H'].
Qed.

(** A prefix of a concatenation that is no longer than its first part lies
    in that part. *)
Lemma app_prefix {A : Type} (x : list A) : forall p a' rest,
  x ++ a' = p ++ rest -> (length x <= length p)%nat ->
  exists p3, p = x ++ p3 /\ a' = p3 ++ rest.
Proof.
  induction x as [|d x IH]; intros p a' rest E Hlen.
  - exists p. split; [reflexivity|exact E].
  - destruct p as [|e p]; [cbn in Hlen; lia|]. cbn [app] in E. injection E as -> E.
    cbn [length] in Hlen.
    destruct (IH p a' rest E ltac:(lia)) as (p3 & -> & ->). exists p3. split; reflexivity.
Qed.

(** *** The two substitutions of a turn as passes *)

Definition full_pass_hit (short full : string) (b x a : str) : Prop :=
  exists g, match_at true (full_form short full) b (x ++ a) = Some (rev x ++ b, a, g).

Definition bare_pass_hit (short : string) (b x a : str) : Prop :=
  exists g, match_at false (bare_short short) b (x ++ a) = Some (rev x ++ b, a, g).

Lemma full_pass_rw short full s :
  In (short, full) ACRONYMS ->
  rw (fun b s => match_at true (full_form short full) b s = None)
     (full_pass_hit short full) (ac_tag short) [] s
     (re_sub true (full_form short full) (ac_template short) s).
Proof.
  intros Hin. destruct (entry_facts short full Hin) as (_ & _ & _ & _ & Ht).
  apply (re_sub_rw true _ _ _ s Ht (full_form_consumes short full)).
Qed.

Lemma bare_pass_rw short full s :
  In (short, full) ACRONYMS ->
  rw (fun b s => match_at false (bare_short short) b s = None)
     (bare_pass_hit short) (ac_tag short) [] s
     (re_sub false (bare_short short) (ac_template short) s).
Proof.
  intros Hin. destruct (entry_facts short full Hin) as (_ & _ & _ & (c & r & Hs & _) & Ht).
  apply (re_sub_rw false _ _ _ s Ht). apply bare_short_consumes. rewrite Hs. discriminate.
Qed.

Lemma full_pass_discipline short full b x a :
  full_pass_hit short full b x a ->
  introduces short full x
  \/ (x = text short
      /\ is_prefix (rev (text "\ac{")) b = false
      /\ match b with c :: _ => is_ascii_letter c | [] => false end = false).
Proof. intros [g H]. left. apply (full_form_hit _ _ _ _ _ _ H). Qed.

Lemma bare_pass_discipline short full b x a :
  bare_pass_hit short b x a ->
  introduces short full x
  \/ (x = text short
      /\ is_prefix (rev (text "\ac{")) b = false
      /\ match b with c :: _ => is_ascii_letter c | [] => false end = false).
Proof.
  intros [g H]. right. apply bare_short_hit in H as (H1 & H2 & H3 & _). auto.
Qed.

(** The text holds the tag twice, with what has become of [a], [b] and
    [c] around. *)
Definition tagged_twice (a b c content : str) : Prop :=
  exists a' b' c',
    content = a' ++ NRL_TAG ++ b' ++ NRL_TAG ++ c'
    /\ folded a a' /\ folded b b' /\ folded c c'.

Lemma pass_tagged_twice K M short full a b c s o :
  In (short, full) ACRONYMS ->
  (forall b x a, M b x a ->
     introduces short full x
     \/ (x = text short
         /\ is_prefix (rev (text "\ac{")) b = false
         /\ match b with c :: _ => is_ascii_letter c | [] => false end = false)) ->
  rw K M (ac_tag short) [] s o ->
  tagged_twice a b c s -> tagged_twice a b c o.
Proof.
  intros Hin Hhit Hrw (a' & b' & c' & -> & Ha & Hb & Hc).
  destruct (rw_around_tags K M short full Hin Hhit [] a' b' c' o Hrw)
    as (a2 & b2 & c2 & -> & Ha2 & Hb2 & Hc2).
  exists a2, b2, c2. split; [reflexivity|].
  split; [|split]; eapply folded_snoc; eassumption.
Qed.

(** Every turn of the loop keeps the two tags. *)
Lemma turn_tagged_twice a b c s entry :
  In entry ACRONYMS -> tagged_twice a b c s -> tagged_twice a b c (fold_acronym s entry).
Proof.
  destruct entry as [short full]. intros Hin H. unfold fold_acronym.
  destruct (bool_decide _); [|exact H].
  apply (pass_tagged_twice _ _ short full a b c _ _ Hin
           (bare_pass_discipline short full) (bare_pass_rw short full _ Hin)).
  apply (pass_tagged_twice _ _ short full a b c _ _ Hin
           (full_pass_discipline short full) (full_pass_rw short full _ Hin)).
  exact H.
Qed.

Lemma loop_tagged_twice a b c entries : forall s,
  incl entries ACRONYMS -> tagged_twice a b c s ->
  tagged_twice a b c (fold_left fold_acronym entries s).
Proof.
  induction entries as [|e entries IH]; intros s Hin H; [exact H|].
  cbn [fold_left]. apply IH; [intros x Hx; apply Hin; right; exact Hx|].
  apply turn_tagged_twice; [apply Hin; left; reflexivity|exact H].
Qed.

(** *** The turn of NRL *)

Lemma nrl_listed : In ("NRL", "Natural Rubber Latex")%string ACRONYMS.
Proof. left. reflexivity. Qed.

Lemma nrl_tag : ac_tag "NRL" = NRL_TAG.
Proof. reflexivity. Qed.

(** An introduction of NRL that starts in [before] runs into [rest], the
    text that follows. *)
Fixpoint reaches_over (before rest : str) : bool :=
  match before with
  | [] => false
  | _ :: before' =>
      match full_span "NRL" "Natural Rubber Latex" (before ++ rest) with
      | Some (x, _) => (length before <? length x)%nat
      | None => false
      end || reaches_over before' rest
  end.

Lemma reaches_over_barrier before rest :
  reaches_over before rest = false ->
  forall p1 p2 b' x a', before = p1 ++ p2 -> p2 <> [] ->
  full_pass_hit "NRL" "Natural Rubber Latex" b' x a' ->
  x ++ a' = p2 ++ rest -> exists p3, p2 = x ++ p3 /\ a' = p3 ++ rest.
Proof.
  intros H p1 p2 b' x a' -> Hp2 [g HM] E.
  induction p1 as [|d p1 IH].
  - destruct p2 as [|c p2]; [congruence|]. cbn [app reaches_over] in H.
    apply orb_false_iff in H as [H _].
    apply full_form_hit in HM as [HM _]. rewrite E in HM. cbn [app] in HM.
    rewrite HM in H. apply Nat.ltb_ge in H.
    apply (app_prefix x _ _ _ E H).
  - apply IH. cbn [app reaches_over] in H. apply orb_false_iff in H as [_ H]. exact H.
Qed.

(** A text that reads as [w], case ignored, holds no [e] when [w] holds
    none in any case. *)
Lemma ci_avoids e w : forallb (fun p => negb (ci_eq p e)) w = true ->
  forall x, ci_prefix w x = true -> length x = length w -> mem e x = false.
Proof.
  induction w as [|p w IH]; intros Hw x Hx Hlen.
  - destruct x; [reflexivity|discriminate].
  - destruct x as [|c x]; [discriminate|]. cbn [forallb ci_prefix length mem] in *.
    apply andb_true_iff in Hw as [Hp Hw]. apply andb_true_iff in Hx as [Hc Hx].
    rewrite (IH Hw x Hx) by lia. rewrite orb_false_r.
    destruct (e =? c) eqn:E; [|reflexivity].
    apply N.eqb_eq in E. subst c. rewrite Hc in Hp. discriminate.
Qed.

Lemma spaces_no_paren sp : forallb is_space sp = true -> mem 40 sp = false.
Proof.
  induction sp as [|c sp IH]; [reflexivity|]. cbn [forallb mem].
  intros H. apply andb_true_iff in H as [Hc H]. rewrite (IH H), orb_false_r.
  rewrite N.eqb_sym. apply is_space_not_paren, Hc.
Qed.

Definition NRL_FULL_OPEN : str := text "Natural Rubber Latex ".
Definition NRL_FULL_CLOSE : str := text "NRL)".

Lemma nrl_full_parts : NRL_FULL = NRL_FULL_OPEN ++ 40 :: NRL_FULL_CLOSE.
Proof. reflexivity. Qed.

(** No introduction of NRL that starts before "Natural Rubber Latex (NRL)"
    runs into it. *)
Lemma nrl_full_barrier x a' p2 q :
  introduces "NRL" "Natural Rubber Latex" x ->
  x ++ a' = p2 ++ NRL_FULL ++ q -> p2 <> [] ->
  exists p3, p2 = x ++ p3 /\ a' = p3 ++ NRL_FULL ++ q.
Proof.
  intros (f & sp & sh & -> & [Hf Lf] & Hsp & [Hs Ls]) E Hp2.
  assert (Hf40 : mem 40 f = false)
    by (apply (ci_avoids 40 (text "Natural Rubber Latex") eq_refl f Hf Lf)).
  assert (Hsp40 : mem 40 sp = false) by (apply spaces_no_paren, Hsp).
  assert (E' : (f ++ sp) ++ 40 :: (sh ++ 41 :: a') = p2 ++ NRL_FULL ++ q).
  { rewrite <- E, <- !app_assoc. cbn [app]. rewrite <- !app_assoc. reflexivity. }
  clear E. destruct (mem 40 p2) eqn:Hp40.
  - destruct (mem_split 40 p2 Hp40) as (u & v & -> & Hu).
    assert (E2 : (f ++ sp) ++ 40 :: (sh ++ 41 :: a') = u ++ 40 :: (v ++ NRL_FULL ++ q))
      by (rewrite E', <- app_assoc; reflexivity).
    clear E'.
    apply first_split_unique in E2 as [E1 E2];
      [|rewrite mem_app, Hf40, Hsp40; reflexivity|exact Hu].
    subst u. change (length (text "NRL")) with 3%nat in Ls.
    destruct (le_lt_dec 4 (length v)) as [Hv|Hv].
    + assert (E3 : (sh ++ [41]) ++ a' = v ++ NRL_FULL ++ q)
        by (rewrite <- app_assoc; exact E2).
      apply app_prefix in E3 as (p3 & -> & ->);
        [|rewrite length_app; cbn [length]; lia].
      exists p3. rewrite <- !app_assoc. cbn [app]. rewrite <- !app_assoc.
      split; reflexivity.
    + exfalso.
      destruct sh as [|s0 [|s1 [|s2 [|s3 sh]]]]; cbn [length] in Ls; try lia.
      destruct v as [|v0 [|v1 [|v2 [|v3 v]]]]; cbn [length] in Hv; try lia;
        vm_compute in E2; discriminate E2.
  - exfalso.
    assert (E2 : (f ++ sp) ++ 40 :: (sh ++ 41 :: a')
                 = (p2 ++ NRL_FULL_OPEN) ++ 40 :: (NRL_FULL_CLOSE ++ q))
      by (rewrite E', nrl_full_parts, <- !app_assoc; reflexivity).
    clear E'.
    apply first_split_unique in E2 as [E1 _];
      [|rewrite mem_app, Hf40, Hsp40; reflexivity|rewrite mem_app, Hp40; reflexivity].
    assert (Hlen : (2 <= length (rev sp))%nat).
    { apply (f_equal (@length N)) in E1. rewrite !length_app in E1.
      rewrite length_rev. change (length NRL_FULL_OPEN) with 21%nat in E1.
      change (length (text "Natural Rubber Latex")) with 20%nat in Lf.
      destruct p2; [congruence|cbn [length] in E1; lia]. }
    apply (f_equal (@rev N)) in E1. rewrite !rev_app_distr in E1.
    destruct (rev sp) as [|r0 [|r1 r]] eqn:Er; cbn [length] in Hlen; try lia.
    cbn in E1. injection E1 as _ E1 _. subst r1.
    assert (Hin : In 120 sp).
    { apply in_rev. rewrite Er. right. left. reflexivity. }
    apply (proj1 (forallb_forall _ _) Hsp) in Hin. discriminate.
Qed.

(** The first substitution leaves the bare token alone. *)
Lemma nrl_full_token K b q o :
  rw K (full_pass_hit "NRL" "Natural Rubber Latex") (ac_tag "NRL") b (NRL ++ q) o ->
  exists o', o = NRL ++ o'
             /\ rw K (full_pass_hit "NRL" "Natural Rubber Latex") (ac_tag "NRL")
                  (rev NRL ++ b) q o'.
Proof.
  assert (Hno : forall b' t x a',
            t = text "NRL" ++ q \/ t = text "RL" ++ q \/ t = text "L" ++ q ->
            t = x ++ a' -> full_pass_hit "NRL" "Natural Rubber Latex" b' x a' -> False).
  { intros b' t x a' Ht E [g HM]. apply full_form_hit in HM as [_ HM].
    destruct HM as (f & sp & sh & -> & [Hf Lf] & _).
    destruct f as [|f0 [|f1 f]]; try (cbn in Lf; discriminate).
    cbn [text list_ascii_of_string map ci_prefix] in Hf.
    apply andb_true_iff in Hf as [H0 Hf]. apply andb_true_iff in Hf as [H1 _].
    destruct Ht as [-> | [-> | ->]]; cbn [text list_ascii_of_string map app] in E;
      injection E as E0 E1; subst f0;
      first [vm_compute in H0; discriminate
            |subst f1; vm_compute in H1; discriminate]. }
  unfold NRL. cbn [text list_ascii_of_string map app rev]. intros H.
  apply (rw_step K _ "NRL") in H as (o1 & -> & H);
    [|intros x a' _ E HM; apply (Hno b _ x a' (or_introl eq_refl) E HM)].
  apply (rw_step K _ "NRL") in H as (o2 & -> & H);
    [|intros x a' _ E HM; apply (Hno _ _ x a' (or_intror (or_introl eq_refl)) E HM)].
  apply (rw_step K _ "NRL") in H as (o3 & -> & H);
    [|intros x a' _ E HM; apply (Hno _ _ x a' (or_intror (or_intror eq_refl)) E HM)].
  exists o3. split; [reflexivity|exact H].
Qed.

(** No bare match that starts before the token runs into it. *)
Lemma nrl_token_barrier b' x a' p2 q :
  bare_pass_hit "NRL" b' x a' ->
  x ++ a' = p2 ++ NRL ++ q -> p2 <> [] ->
  exists p3, p2 = x ++ p3 /\ a' = p3 ++ NRL ++ q.
Proof.
  intros [g HM] E Hp2. apply bare_short_hit in HM as (-> & _).
  destruct p2 as [|c0 [|c1 [|c2 p2]]]; [congruence| | |];
    vm_compute in E; try discriminate E.
  injection E as <- <- <- ->. exists p2. split; reflexivity.
Qed.

(** What a pass leaves at the end of a text: a stretch of the text as it
    was, after nothing or after a tag. *)
Lemma ac_tag_last short : last (ac_tag short) = Some 125.
Proof.
  unfold ac_tag. rewrite !app_assoc.
  change (text "}") with [125]. apply last_snoc.
Qed.

Lemma tagging_suffix s o :
  tagging s o ->
  exists o1 s1 s2,
    s = s1 ++ s2 /\ o = o1 ++ s2 /\ (o1 = [] /\ s1 = [] \/ last o1 = Some 125).
Proof.
  induction 1 as [|c s o H IH|short full x s o Hin Hx H IH].
  - exists [], [], []. auto.
  - destruct IH as (o1 & s1 & s2 & -> & -> & [[-> ->]|Hl]).
    + exists [], [], (c :: s2). auto.
    + exists (c :: o1), (c :: s1), s2. split; [reflexivity|]. split; [reflexivity|].
      right. destruct o1; [discriminate|]. exact Hl.
  - destruct IH as (o1 & s1 & s2 & -> & -> & Hl).
    exists (ac_tag short ++ o1), (x ++ s1), s2.
    rewrite <- !app_assoc. split; [reflexivity|]. split; [reflexivity|]. right.
    rewrite last_app. destruct Hl as [[-> _] | ->]; [|reflexivity].
    cbn [last]. apply ac_tag_last.
Qed.

Lemma is_prefix_app_l w u v : is_prefix w u = true -> is_prefix w (u ++ v) = true.
Proof.
  intros H. apply is_prefix_spec in H as [r ->]. rewrite <- app_assoc.
  apply is_prefix_app_same.
Qed.

Lemma free_before_suffix s1 s2 : free_before (s1 ++ s2) = true -> free_before s2 = true.
Proof.
  destruct s2 as [|c s2 _] using rev_ind; [reflexivity|].
  assert (R1 : rev (s1 ++ s2 ++ [c]) = (c :: rev s2) ++ rev s1)
    by (rewrite !rev_app_distr, <- app_assoc; reflexivity).
  assert (R2 : rev (s2 ++ [c]) = c :: rev s2) by (rewrite rev_app_distr; reflexivity).
  unfold free_before, ends_with, last_is_letter. rewrite R1, R2. cbn [app].
  intros H. apply andb_true_iff in H as [H1 H2]. rewrite H2, andb_true_r.
  apply negb_true_iff. apply negb_true_iff in H1.
  destruct (is_prefix (rev (text "\ac{")) (c :: rev s2)) eqn:E; [|reflexivity].
  rewrite <- H1. symmetry.
  change (c :: rev s2 ++ rev s1) with ((c :: rev s2) ++ rev s1).
  apply is_prefix_app_l, E.
Qed.

Lemma token_end_app b rest :
  token_end b = true -> token_end (b ++ NRL_TAG ++ rest) = true.
Proof. destruct b; [reflexivity|exact id]. Qed.

Lemma tagging_token_end s o : tagging s o -> token_end s = true -> token_end o = true.
Proof.
  destruct 1 as [|c s o H|short full x s o Hin Hx H]; intros Hs.
  - reflexivity.
  - exact Hs.
  - reflexivity.
Qed.

(** The bare pattern matches at the token when the text before it, as the
    first substitution left it, came from a text that is free before the
    token. *)
Lemma nrl_token_match b b1 bk c1 :
  tagging b b1 -> free_before b = true -> closes bk -> token_end c1 = true ->
  match_at false (bare_short "NRL") (rev b1 ++ bk) (NRL ++ c1)
  = Some (rev NRL ++ rev b1 ++ bk, c1, []).
Proof.
  intros Ht Hb Hbk Hc.
  destruct (tagging_suffix b b1 Ht) as (o1 & s1 & s2 & -> & -> & Hl).
  rewrite rev_app_distr, <- app_assoc.
  apply nrl_bare_match; [apply (free_before_suffix s1 s2 Hb)| |exact Hc].
  destruct Hl as [[-> _]|Hl]; [exact Hbk|].
  apply last_snoc_inv in Hl as (u & ->). rewrite rev_app_distr. reflexivity.
Qed.

Lemma search_loop_some ic r u : forall b v,
  match_at ic r (rev u ++ b) v <> None -> is_Some (search_loop ic r b (u ++ v)).
Proof.
  induction u as [|c u IH]; intros b v H.
  - cbn [app rev] in *. destruct (match_at ic r b v) as [res|] eqn:E; [|congruence].
    rewrite (search_loop_hit _ _ _ _ _ E). eauto.
  - cbn [app search_loop].
    destruct (match_at ic r b (c :: u ++ v)); [eauto|].
    apply IH. cbn [rev] in H. rewrite <- app_assoc in H. exact H.
Qed.

Lemma nrl_introduced u v :
  is_Some (re_search true (full_form "NRL" "Natural Rubber Latex") (u ++ NRL_FULL ++ v)).
Proof. apply search_loop_some. rewrite nrl_full_match. discriminate. Qed.

Lemma nrl_full_pass_barrier rest :
  forall (p p1 p2 b' x a' : str), p = p1 ++ p2 -> p2 <> [] ->
  full_pass_hit "NRL" "Natural Rubber Latex" b' x a' ->
  x ++ a' = p2 ++ NRL_FULL ++ rest ->
  exists p3, p2 = x ++ p3 /\ a' = p3 ++ NRL_FULL ++ rest.
Proof.
  intros p p1 p2 b' x a' _ Hp2 [g HM] E.
  apply full_form_hit in HM as [_ Hi]. apply (nrl_full_barrier x a' p2 rest Hi E Hp2).
Qed.

(** The turn of NRL, the bare token after the introduction. *)
Lemma nrl_turn_after a b c :
  free_before b = true -> token_end c = true ->
  reaches_over b (NRL ++ c) = false ->
  tagged_twice a b c
    (fold_acronym (a ++ NRL_FULL ++ b ++ NRL ++ c) ("NRL", "Natural Rubber Latex")%string).
Proof.
  intros Hfree Hend Hover. unfold fold_acronym.
  rewrite (bool_decide_true _ (nrl_introduced a _)).
  pose proof (full_pass_rw "NRL" "Natural Rubber Latex"
                (a ++ NRL_FULL ++ b ++ NRL ++ c) nrl_listed) as Hf.
  apply (rw_stretch _ _ "NRL" "Natural Rubber Latex" nrl_listed
           (full_pass_discipline "NRL" "Natural Rubber Latex")
           (NRL_FULL ++ b ++ NRL ++ c) (length a) a [] _ (le_n _)
           (nrl_full_pass_barrier _ a)) in Hf as (a1 & o1 & E1 & Ha & Hf).
  apply (rw_at_match true _ _ _ NRL_FULL _ [] _ ltac:(discriminate) (nrl_full_match _ _))
    in Hf as (o2 & -> & Hf).
  apply (rw_stretch _ _ "NRL" "Natural Rubber Latex" nrl_listed
           (full_pass_discipline "NRL" "Natural Rubber Latex")
           (NRL ++ c) (length b) b _ _ (le_n _)
           (reaches_over_barrier b (NRL ++ c) Hover)) in Hf as (b1 & o3 & -> & Hb & Hf).
  apply nrl_full_token in Hf as (c1 & -> & Hf).
  apply (rw_tagging _ _ "NRL" "Natural Rubber Latex" nrl_listed
           (full_pass_discipline "NRL" "Natural Rubber Latex")) in Hf.
  rewrite E1, nrl_tag. clear E1.
  pose proof (bare_pass_rw "NRL" "Natural Rubber Latex"
                (a1 ++ NRL_TAG ++ b1 ++ NRL ++ c1) nrl_listed) as Hr.
  apply (rw_piece _ _ "NRL" "Natural Rubber Latex" nrl_listed
           (bare_pass_discipline "NRL" "Natural Rubber Latex")
           (length a1) a1 [] (skipn 1 NRL_TAG ++ b1 ++ NRL ++ c1) _ (le_n _))
    in Hr as (a2 & r1 & E2 & Ha2 & Hr).
  apply (rw_over_tag _ _ "NRL" "Natural Rubber Latex" nrl_listed
           (bare_pass_discipline "NRL" "Natural Rubber Latex") _ (b1 ++ NRL ++ c1))
    in Hr as (r2 & -> & Hr).
  apply (rw_stretch _ _ "NRL" "Natural Rubber Latex" nrl_listed
           (bare_pass_discipline "NRL" "Natural Rubber Latex")
           (NRL ++ c1) (length b1) b1 _ _ (le_n _)) in Hr as (b2 & r3 & -> & Hb2 & Hr);
    [|intros p1 p2 b' x a' _ Hp2 HM E; apply (nrl_token_barrier b' x a' p2 c1 HM E Hp2)].
  apply (rw_at_match false _ _ _ NRL _ [] _ ltac:(discriminate)
           (nrl_token_match b b1 (rev NRL_TAG ++ rev a1 ++ []) c1 Hb Hfree eq_refl
              (tagging_token_end c c1 Hf Hend)))
    in Hr as (r4 & -> & Hr).
  apply (rw_tagging _ _ "NRL" "Natural Rubber Latex" nrl_listed
           (bare_pass_discipline "NRL" "Natural Rubber Latex")) in Hr.
  rewrite E2, nrl_tag. exists a2, b2, r4. split; [reflexivity|].
  split; [|split]; eapply folded_step; try eassumption; apply folded_once; assumption.
Qed.

(** The turn of NRL, the bare token before the introduction. *)
Lemma nrl_turn_before a b c :
  free_before a = true -> token_end b = true ->
  reaches_over a (NRL ++ b ++ NRL_FULL ++ c) = false ->
  tagged_twice a b c
    (fold_acronym (a ++ NRL ++ b ++ NRL_FULL ++ c) ("NRL", "Natural Rubber Latex")%string).
Proof.
  intros Hfree Hend Hover. unfold fold_acronym.
  assert (Hs : is_Some (re_search true (full_form "NRL" "Natural Rubber Latex")
                          (a ++ NRL ++ b ++ NRL_FULL ++ c))).
  { pose proof (nrl_introduced (a ++ NRL ++ b) c) as H.
    rewrite <- !app_assoc in H. exact H. }
  rewrite (bool_decide_true _ Hs). clear Hs.
  pose proof (full_pass_rw "NRL" "Natural Rubber Latex"
                (a ++ NRL ++ b ++ NRL_FULL ++ c) nrl_listed) as Hf.
  apply (rw_stretch _ _ "NRL" "Natural Rubber Latex" nrl_listed
           (full_pass_discipline "NRL" "Natural Rubber Latex")
           (NRL ++ b ++ NRL_FULL ++ c) (length a) a [] _ (le_n _)
           (reaches_over_barrier a _ Hover)) in Hf as (a1 & o1 & E1 & Ha & Hf).
  apply nrl_full_token in Hf as (o2 & -> & Hf).
  apply (rw_stretch _ _ "NRL" "Natural Rubber Latex" nrl_listed
           (full_pass_discipline "NRL" "Natural Rubber Latex")
           (NRL_FULL ++ c) (length b) b _ _ (le_n _)
           (nrl_full_pass_barrier _ b)) in Hf as (b1 & o3 & -> & Hb & Hf).
  apply (rw_at_match true _ _ _ NRL_FULL _ [] _ ltac:(discriminate) (nrl_full_match _ _))
    in Hf as (c1 & -> & Hf).
  apply (rw_tagging _ _ "NRL" "Natural Rubber Latex" nrl_listed
           (full_pass_discipline "NRL" "Natural Rubber Latex")) in Hf.
  rewrite E1, nrl_tag. clear E1.
  pose proof (bare_pass_rw "NRL" "Natural Rubber Latex"
                (a1 ++ NRL ++ b1 ++ NRL_TAG ++ c1) nrl_listed) as Hr.
  apply (rw_stretch _ _ "NRL" "Natural Rubber Latex" nrl_listed
           (bare_pass_discipline "NRL" "Natural Rubber Latex")
           (NRL ++ b1 ++ NRL_TAG ++ c1) (length a1) a1 [] _ (le_n _))
    in Hr as (a2 & r1 & E2 & Ha2 & Hr);
    [|intros p1 p2 b' x a' _ Hp2 HM E; apply (nrl_token_barrier b' x a' p2 _ HM E Hp2)].
  apply (rw_at_match false _ _ _ NRL _ [] _ ltac:(discriminate)
           (nrl_token_match a a1 [] _ Ha Hfree I
              (token_end_app b1 c1 (tagging_token_end b b1 Hb Hend))))
    in Hr as (r2 & -> & Hr).
  apply (rw_piece _ _ "NRL" "Natural Rubber Latex" nrl_listed
           (bare_pass_discipline "NRL" "Natural Rubber Latex")
           (length b1) b1 _ (skipn 1 NRL_TAG ++ c1) _ (le_n _))
    in Hr as (b2 & r3 & -> & Hb2 & Hr).
  apply (rw_over_tag _ _ "NRL" "Natural Rubber Latex" nrl_listed
           (bare_pass_discipline "NRL" "Natural Rubber Latex") _ c1)
    in Hr as (r4 & -> & Hr).
  apply (rw_tagging _ _ "NRL" "Natural Rubber Latex" nrl_listed
           (bare_pass_discipline "NRL" "Natural Rubber Latex")) in Hr.
  rewrite E2, nrl_tag. exists a2, b2, r4. split; [reflexivity|].
  split; [|split]; eapply folded_step; try eassumption; apply folded_once; assumption.
Qed.

(** *** Stretches without acronyms *)

(** No acronym of the table can be folded in [x]: no short form stands in
    [x] and, in any case, no short form in parentheses. *)
Definition acronym_free (x : str) : bool :=
  forallb (fun entry : string * string =>
             negb (contains (text entry.1) x)
             && negb (ci_contains (40 :: text entry.1 ++ [41]) x)) ACRONYMS.

Lemma ci_contains_app_r w u v : ci_contains w v = true -> ci_contains w (u ++ v) = true.
Proof.
  intros H. induction u as [|c u IH]; [exact H|].
  cbn [app ci_contains]. rewrite IH. apply orb_true_r.
Qed.

Lemma ci_contains_prefix w s : ci_prefix w s = true -> ci_contains w s = true.
Proof. intros H. destruct s; cbn [ci_contains]; rewrite H; reflexivity. Qed.

Lemma acronym_free_tail c x : acronym_free (c :: x) = true -> acronym_free x = true.
Proof.
  unfold acronym_free. rewrite !forallb_forall. intros H e He. specialize (H e He).
  apply andb_true_iff in H as [H1 H2]. apply negb_true_iff in H1, H2.
  cbn [contains ci_contains] in H1, H2.
  apply orb_false_iff in H1 as [_ H1]. apply orb_false_iff in H2 as [_ H2].
  rewrite H1, H2. reflexivity.
Qed.

Lemma introduces_in_parentheses short full x s :
  introduces short full x -> ci_contains (40 :: text short ++ [41]) (x ++ s) = true.
Proof.
  intros (f & sp & sh & -> & _ & _ & [Hs Ls]).
  assert (E : (f ++ sp ++ 40 :: sh ++ [41]) ++ s = f ++ sp ++ 40 :: sh ++ 41 :: s)
    by (rewrite <- !app_assoc; cbn [app]; rewrite <- !app_assoc; reflexivity).
  rewrite E. do 2 apply ci_contains_app_r.
  apply ci_contains_prefix. cbn [ci_prefix].
  rewrite ci_prefix_app, (ci_prefix_app_r _ sh _ Hs), <- Ls, skipn_app_same.
  reflexivity.
Qed.

Lemma tagging_acronym_free x o : tagging x o -> acronym_free x = true -> o = x.
Proof.
  induction 1 as [|c s o H IH|short full x s o Hin Hx H IH]; intros Hfree.
  - reflexivity.
  - rewrite (IH (acronym_free_tail c s Hfree)). reflexivity.
  - exfalso. unfold acronym_free in Hfree.
    pose proof (proj1 (forallb_forall _ _) Hfree _ Hin) as He. cbn [fst] in He.
    apply andb_true_iff in He as [H1 H2]. apply negb_true_iff in H1, H2.
    destruct Hx as [->|Hx].
    + assert (contains (text short) (text short ++ s) = true); [|congruence].
      apply contains_spec. exists [], s. reflexivity.
    + rewrite (introduces_in_parentheses short full x s Hx) in H2. discriminate.
Qed.

Lemma folded_acronym_free x o : folded x o -> acronym_free x = true -> o = x.
Proof.
  induction 1 as [|s o o' H1 H2 IH]; intros Hfree; [reflexivity|].
  pose proof (tagging_acronym_free s o H1 Hfree) as ->. apply IH, Hfree.
Qed.

(** An introduction of NRL that starts before a bare "NRL" reaches into
    it only when it ends there: when a closing parenthesis follows the
    token. *)
Lemma intro_stops_before_token p2 after x r :
  introduces "NRL" "Natural Rubber Latex" x ->
  x ++ r = p2 ++ NRL ++ after -> p2 <> [] ->
  head after <> Some 41 ->
  (length x <= length p2)%nat.
Proof.
  intros (f & sp & sh & -> & [Hf Lf] & Hsp & [Hs Ls]) E Hp2 Hafter.
  assert (Hf40 : mem 40 f = false)
    by (apply (ci_avoids 40 (text "Natural Rubber Latex") eq_refl f Hf Lf)).
  assert (Hsp40 : mem 40 sp = false) by (apply spaces_no_paren, Hsp).
  assert (E' : (f ++ sp) ++ 40 :: (sh ++ 41 :: r) = p2 ++ NRL ++ after).
  { rewrite <- E, <- !app_assoc. cbn [app]. rewrite <- !app_assoc. reflexivity. }
  clear E. change (length (text "NRL")) with 3%nat in Ls.
  destruct (mem 40 p2) eqn:Hp40.
  - destruct (mem_split 40 p2 Hp40) as (u & v & -> & Hu).
    assert (E2 : (f ++ sp) ++ 40 :: (sh ++ 41 :: r) = u ++ 40 :: (v ++ NRL ++ after))
      by (rewrite E', <- app_assoc; reflexivity).
    clear E'.
    apply first_split_unique in E2 as [E1 E2];
      [|rewrite mem_app, Hf40, Hsp40; reflexivity|exact Hu].
    subst u. rewrite !length_app. cbn [length]. rewrite !length_app. cbn [length].
    destruct (le_lt_dec 4 (length v)) as [Hv|Hv]; [lia|]. exfalso.
    destruct sh as [|s0 [|s1 [|s2 [|s3 sh]]]]; cbn [length] in Ls; try lia.
    destruct v as [|v0 [|v1 [|v2 [|v3 v]]]]; cbn [length] in Hv; try lia;
      vm_compute in E2; try discriminate E2.
    injection E2 as _ _ _ E2. subst after. apply Hafter. reflexivity.
  - exfalso.
    assert (Hc : mem 40 after = true).
    { assert (H : mem 40 ((f ++ sp) ++ 40 :: sh ++ 41 :: r) = true)
        by (rewrite mem_app; cbn [mem]; rewrite N.eqb_refl; apply orb_true_r).
      rewrite E', !mem_app, Hp40 in H. exact H. }
    destruct (mem_split 40 after Hc) as (c1 & c2 & -> & Hc1).
    assert (E2 : (f ++ sp) ++ 40 :: (sh ++ 41 :: r) = (p2 ++ NRL ++ c1) ++ 40 :: c2)
      by (rewrite E', <- !app_assoc; reflexivity).
    clear E'.
    apply first_split_unique in E2 as [E1 _];
      [|rewrite mem_app, Hf40, Hsp40; reflexivity
       |rewrite !mem_app, Hp40, Hc1; reflexivity].
    destruct f as [|f0 f]; [discriminate|]. destruct p2 as [|q0 p2]; [congruence|].
    cbn [app] in E1. injection E1 as _ E1.
    assert (Hin : In 78 (f ++ sp)).
    { rewrite E1. apply in_app_iff. right. left. reflexivity. }
    apply in_app_iff in Hin as [Hin|Hin].
    + cbn [text list_ascii_of_string map ci_prefix length] in Hf, Lf.
      apply andb_true_iff in Hf as [_ Hf].
      assert (Hno : mem 78 f = false).
      { apply (ci_avoids 78 (text "atural Rubber Latex") eq_refl f Hf). 
        injection Lf as Lf. exact Lf. }
      apply mem_spec in Hin. congruence.
    + apply (proj1 (forallb_forall _ _) Hsp) in Hin. discriminate.
Qed.

Lemma reaches_over_token before after :
  head after <> Some 41 -> reaches_over before (NRL ++ after) = false.
Proof.
  intros Hafter. induction before as [|c before IH]; [reflexivity|].
  cbn [reaches_over]. rewrite IH, orb_false_r.
  destruct (full_span "NRL" "Natural Rubber Latex" ((c :: before) ++ NRL ++ after))
    as [[x r]|] eqn:Es; [|reflexivity].
  apply full_span_split in Es as [E Hx]. apply Nat.ltb_ge.
  apply (intro_stops_before_token (c :: before) after x r Hx); [|discriminate|exact Hafter].
  symmetry. exact E.
Qed.

(** * The claims of the specification *)

(** The first entry of the chapter registry. *)
Definition INTRODUCTION : chapter_config :=
  {| title := "Introduction"; label := "ch:introduction"; file := "chapter1.tex" |}.

Lemma registry_1 : CHAPTERS !! 1%nat = Some INTRODUCTION.
Proof. unfold CHAPTERS. apply lookup_insert_eq. Qed.

(** C1, as amended.  Run the pipeline twice on the same converter output,
    the second run on the files the first one left.  For every chapter the
    split yields and the registry knows, each run writes the header built
    from its own clock reading followed by the same chapter text, and the
    second run leaves as the backup the file the first run wrote, as text
    mode reads it: with every carriage return, alone or before a line feed,
    turned into a line feed.  So the backup is the first run's file when
    neither the first clock reading nor the chapter text holds a carriage
    return.  When the two clock readings for the chapter agree, the second
    run's file is the first run's file, character for character. *)
Theorem second_run_same_output (now1 now2 : nat -> str) (content : str) (w0 : world)
    (n : nat) (c : str) (cfg : chapter_config) :
  (n, c) ∈ (split_into_chapters (transform content)).1 ->
  CHAPTERS !! n = Some cfg ->
  let w1 := process_and_save now1 content w0 in
  let w2 := process_and_save now2 content w1 in
  files w1 !! file cfg = Some (create_chapter_file (now1 n) n c)
  /\ files w2 !! file cfg = Some (create_chapter_file (now2 n) n c)
  /\ files w2 !! backup_name cfg
     = Some (read_text (create_chapter_file (now1 n) n c))
  /\ (mem CR (now1 n) = false -> mem CR c = false ->
      files w2 !! backup_name cfg = files w1 !! file cfg)
  /\ (now1 n = now2 n -> files w2 !! file cfg = files w1 !! file cfg).
Proof.
  intros Hin Hn w1 w2. subst w1 w2.
  pose proof (split_keys_NoDup (transform content)) as Hnd.
  rewrite !process_and_save_files.
  destruct (save_chapters_written now1 _ w0 n c cfg Hnd Hin Hn) as [E1 _].
  destruct (save_chapters_written now2 _ (process_and_save now1 content w0) n c cfg Hnd Hin Hn)
    as [E2 E3].
  rewrite process_and_save_files in E3. rewrite E1 in E3.
  rewrite E1, E2, E3. repeat split.
  - intros Hnow Hc. rewrite read_text_plain; [reflexivity|].
    apply (create_chapter_file_plain _ _ _ cfg Hn Hnow Hc).
  - intros ->. reflexivity.
Qed.

(** The sentence of C5 read without the strip: with two markers, each entry
    is the slice of the buffer from its marker to the next marker or to the
    end. *)
Definition entries_are_slices (content : str) : Prop :=
  forall m1 m2,
  re_finditer chapter_pattern content = [m1; m2] ->
  (split_into_chapters content).1
  = [(1%nat, slice (m_start m1) (m_start m2) content);
     (2%nat, slice (m_start m2) (length content) content)].

(** C5, as amended.  A buffer made of a frontmatter without the heading
    command, then two headed chapters, each a marker followed by text
    without the heading command: the splitter yields exactly two entries,
    numbered 1 and 2; each runs from its marker up to the next marker or the
    end of the buffer, with the whitespace at its end stripped; the
    frontmatter is in neither. *)
Theorem split_two_markers (front t1 body1 t2 body2 : str) :
  contains CHAPTER_OPEN front = false ->
  headed (t1, body1) ->
  headed (t2, body2) ->
  (split_into_chapters (front ++ marker t1 ++ body1 ++ marker t2 ++ body2)).1
  = [(1%nat, marker t1 ++ rstrip body1); (2%nat, marker t2 ++ rstrip body2)].
Proof.
  intros Hfront H1 H2.
  pose proof (split_chapters front [(t1, body1); (t2, body2)] Hfront) as H.
  cbn [chapters_text entries_from] in H. rewrite app_nil_r in H.
  rewrite H; [reflexivity| |discriminate].
  repeat constructor; [apply H1|apply H1|apply H2|apply H2].
Qed.

(** C8.  A chapter index the registry does not know costs one warning and
    nothing else: the turn of the save loop leaves every file and backup as
    it was.  So the files after the loop, and after the whole pipeline, are
    those the registry's chapters alone produce. *)
Theorem unregistered_chapter_skipped (now : nat -> str) (content : str)
    (chapters : list (nat * str)) (w : world) :
  (forall n c, CHAPTERS !! n = None ->
     save_chapter now w (n, c)
     = {| files := files w; printed := printed w ++ [WarnNotConfigured n] |})
  /\ files (save_chapters now chapters w)
     = files (save_chapters now
                (List.filter (fun e => bool_decide (is_Some (CHAPTERS !! e.1))) chapters) w)
  /\ files (process_and_save now content w)
     = files (save_chapters now
                (List.filter (fun e => bool_decide (is_Some (CHAPTERS !! e.1)))
                   (split_into_chapters (transform content)).1) w).
Proof.
  assert (Hloop : forall chs w1 w2, files w1 = files w2 ->
    files (save_chapters now chs w1)
    = files (save_chapters now
               (List.filter (fun e => bool_decide (is_Some (CHAPTERS !! e.1))) chs) w2)).
  { induction chs as [|[n c] chs IH]; intros w1 w2 E; [exact E|].
    unfold save_chapters in *. cbn [fold_left List.filter fst].
    destruct (CHAPTERS !! n) as [cfg|] eqn:Hn.
    - rewrite bool_decide_true by eauto. cbn [fold_left].
      apply IH, save_chapter_files_ext, E.
    - rewrite bool_decide_false by (intros [? ?]; discriminate).
      apply IH. unfold save_chapter. rewrite Hn. exact E. }
  split; [|split].
  - intros n c Hn. unfold save_chapter. rewrite Hn. reflexivity.
  - apply Hloop. reflexivity.
  - rewrite process_and_save_files. apply Hloop. reflexivity.
Qed.

(** C9.  When the buffer that reaches the splitter holds no chapter marker,
    the splitter returns the whole buffer, frontmatter included, under
    index 1 with a warning, and the pipeline writes the header of chapter 1
    followed by that buffer to chapter1.tex, after copying the file that
    was there, if any, to chapter1.tex.bak: read in text mode, so with
    every carriage return, alone or before a line feed, as a line feed. *)
Theorem unsplit_buffer_is_chapter1 (now : nat -> str) (content : str) (w : world) :
  re_finditer chapter_pattern (transform content) = [] ->
  split_into_chapters (transform content) = ([(1%nat, transform content)], [WarnNoChapter])
  /\ process_and_save now content w
     = {| files :=
            <["chapter1.tex"%string :=
                chapter_header (now 1%nat) 1 INTRODUCTION ++ transform content]>
              (match files w !! "chapter1.tex"%string with
               | Some old => <["chapter1.tex.bak"%string := read_text old]> (files w)
               | None => files w
               end);
          printed := printed w ++ [WarnNoChapter; OkSaved "chapter1.tex"] |}.
Proof.
  intros H.
  assert (Hs : split_into_chapters (transform content)
               = ([(1%nat, transform content)], [WarnNoChapter])).
  { unfold split_into_chapters. rewrite H. reflexivity. }
  split; [exact Hs|].
  unfold process_and_save. rewrite Hs.
  unfold save_chapters. cbn [fold_left]. unfold save_chapter, create_chapter_file.
  rewrite registry_1. unfold print. cbn [default id files printed INTRODUCTION file].
  change (with_suffix "chapter1.tex" ".tex.bak") with "chapter1.tex.bak"%string.
  rewrite <- app_assoc. reflexivity.
Qed.

(** C10.  Chapter numbers follow the order of the markers and nothing else:
    in a buffer of headed chapters the i-th one, whatever its title, is
    entry i of the split; and the first one, whatever its title
    ("Literature Review" as well), is written to chapter1.tex under the
    header of the registry's first entry, whose title is "Introduction". *)
Theorem chapter_number_is_position (now : nat -> str) (content : str) (w : world)
    (front : str) (chs : list (str * str)) :
  transform content = front ++ chapters_text chs ->
  contains CHAPTER_OPEN front = false ->
  Forall headed chs ->
  (forall i t body, chs !! i = Some (t, body) ->
     (split_into_chapters (transform content)).1 !! i
     = Some (S i, marker t ++ rstrip body))
  /\ (forall t body chs', chs = (t, body) :: chs' ->
        files (process_and_save now content w) !! "chapter1.tex"%string
        = Some (text "% chapter1.tex -- Chapter 1: Introduction" ++ [LF]
                ++ text "%" ++ [LF]
                ++ text "% Natural Rubber Latex Thesis" ++ [LF]
                ++ text "% Auto-generated from Word document - " ++ now 1%nat
                ++ [LF; LF] ++ marker t ++ rstrip body)).
Proof.
  intros Ht Hfront Hall.
  assert (Hs : chs <> [] ->
               (split_into_chapters (transform content)).1 = entries_from 0 chs).
  { intros Hne. rewrite Ht, split_chapters by assumption. reflexivity. }
  split.
  - intros i t body Hi. rewrite Hs by (intros ->; discriminate).
    apply (entries_from_lookup chs 0 i t body Hi).
  - intros t body chs' ->. rewrite process_and_save_files.
    pose proof (split_keys_NoDup (transform content)) as Hnd.
    rewrite Hs in * by discriminate.
    destruct (save_chapters_written now _ w 1%nat (marker t ++ rstrip body)
                INTRODUCTION Hnd) as [E _].
    + cbn [entries_from]. apply list_elem_of_here.
    + apply registry_1.
    + cbn [INTRODUCTION file] in E. rewrite E.
      unfold create_chapter_file. rewrite registry_1. cbn [default].
      unfold chapter_header. cbn [INTRODUCTION file title].
      rewrite <- !app_assoc. reflexivity.
Qed.

(** C6, as amended.  The rule looks for the literal \chapter{Introduction},
    not for any top-level heading.  When the text holds the first-section
    marker and not that literal, the first occurrence of the marker, and
    only the first, is rewritten: the synthesized chapter heading and its
    label come immediately before the marker, now a section command with
    its own label; the text on both sides stays as it was.  When the
    literal is present, or the marker absent, nothing is inserted. *)
Theorem introduction_inserted_once (pre post content : str) :
  contains FIRST_SECTION pre = false ->
  contains (text "\chapter{Introduction}") (pre ++ FIRST_SECTION ++ post) = false ->
  insert_introduction (pre ++ FIRST_SECTION ++ post)
  = pre ++ text "\chapter{Introduction}" ++ [LF] ++ text "\label{ch:introduction}"
    ++ [LF; LF] ++ text "\section{Background and Significance}" ++ [LF]
    ++ text "\label{sec:background-and-significance}" ++ post
  /\ (contains (text "\chapter{Introduction}") content = true ->
      insert_introduction content = content)
  /\ (contains FIRST_SECTION content = false -> insert_introduction content = content).
Proof.
  intros Hpre Hintro. split; [|split].
  - rewrite (insert_introduction_first pre post Hpre Hintro).
    unfold INTRODUCTION_TEXT. rewrite <- !app_assoc. reflexivity.
  - intros H. unfold insert_introduction. rewrite H, andb_false_r. reflexivity.
  - intros H. unfold insert_introduction. rewrite H. reflexivity.
Qed.

(** C7, as amended.  Take the bold command that opens with "Colloids", up
    to its first closing brace, anywhere in a text in which no bold
    command that opens with a title of the list is still open where the
    marker starts (between the opening of such a command and the marker
    there is a closing brace).  The loop over the section titles returns
    the text before the marker as it returns that text on its own, then
    the section command with the title "Colloids", a newline and the label
    sec:colloids, then the rest; and the rest is what the loop returns on
    the text after the marker, when no bold command with a listed title
    opens inside the marker.  Other bold commands, before, after and
    around the marker, do not matter. *)
Theorem colloids_promoted (pre x post : str) :
  mem 125 x = false ->
  open_title pre = false ->
  exists rest,
    fold_left promote_section SECTION_PATTERNS
      (pre ++ text "\textbf{Colloids" ++ x ++ 125 :: post)
    = fold_left promote_section SECTION_PATTERNS pre
      ++ (text "\section{Colloids}" ++ [LF] ++ text "\label{sec:colloids}") ++ rest
    /\ (title_opens x = false ->
        rest = fold_left promote_section SECTION_PATTERNS post).
Proof.
  intros Hx Hpre. fold COLLOIDS_BOLD COLLOIDS_HEADING.
  assert (Hy : mem 125 (fold_left promote_section TITLES_BEFORE (x ++ 125 :: post)) = true).
  { apply loop_mem; [apply titles_before_listed|].
    rewrite mem_app. cbn [mem]. rewrite N.eqb_refl. apply orb_true_r. }
  destruct (mem_split 125 _ Hy) as (x' & y2 & Hsplit & Hx').
  exists (fold_left promote_section TITLES_AFTER (promote_section y2 "Colloids")).
  split.
  - apply (loop_around_marker pre _ x' y2 (open_title_closed pre Hpre) Hsplit Hx').
  - intros Hopen.
    rewrite (loop_closed_stretch TITLES_BEFORE x post titles_before_listed Hopen) in Hsplit.
    destruct (first_split_unique 125 _ _ _ _ Hsplit Hx Hx') as [_ <-].
    rewrite section_patterns_split, fold_left_app. reflexivity.
Qed.

(** C3, as amended.  Take a text that holds the introduction
    "Natural Rubber Latex (NRL)" and a bare "NRL": one that stands neither
    after a letter nor after the opening of a tag, nor before a letter or
    a closing brace, and that is not itself the short form of an
    introduction (no introduction of NRL that starts before it runs into
    it).  Whatever else the text holds, acronym folding puts the tag in
    both places, and around the two tags stands what has become of the
    three stretches of the text: each of them with acronyms of the table
    folded and nothing else changed, so a stretch that holds no acronym
    is as it was.  This is so whichever of the two comes first: a bare
    "NRL" that precedes the introduction is replaced as well.  And no
    introduction runs into an "NRL" unless a closing parenthesis follows
    it. *)
Theorem nrl_folded_in_any_order (a b c : str) :
  (free_before b = true -> token_end c = true ->
   reaches_over b (text "NRL" ++ c) = false ->
   exists a' b' c',
     replace_acronyms (a ++ text "Natural Rubber Latex (NRL)" ++ b ++ text "NRL" ++ c)
     = a' ++ text "\ac{NRL}" ++ b' ++ text "\ac{NRL}" ++ c'
     /\ folded a a' /\ folded b b' /\ folded c c')
  /\ (free_before a = true -> token_end b = true ->
      reaches_over a (text "NRL" ++ b ++ text "Natural Rubber Latex (NRL)" ++ c) = false ->
      exists a' b' c',
        replace_acronyms (a ++ text "NRL" ++ b ++ text "Natural Rubber Latex (NRL)" ++ c)
        = a' ++ text "\ac{NRL}" ++ b' ++ text "\ac{NRL}" ++ c'
        /\ folded a a' /\ folded b b' /\ folded c c')
  /\ (forall x x', folded x x' -> acronym_free x = true -> x' = x)
  /\ (forall before after, head after <> Some 41 ->
        reaches_over before (text "NRL" ++ after) = false).
Proof.
  fold NRL NRL_FULL NRL_TAG. split; [|split; [|split]].
  - intros Hfree Hend Hover. rewrite replace_acronyms_head.
    apply (loop_tagged_twice a b c (tl ACRONYMS)).
    + intros e He. right. exact He.
    + apply nrl_turn_after; assumption.
  - intros Hfree Hend Hover. rewrite replace_acronyms_head.
    apply (loop_tagged_twice a b c (tl ACRONYMS)).
    + intros e He. right. exact He.
    + apply nrl_turn_before; assumption.
  - apply folded_acronym_free.
  - apply reaches_over_token.
Qed.

(** * Further properties of the script *)

(** ** The normalizer applied twice *)

(** X28.  The normalizer changes nothing in a text it has returned, for
    every input; and in the text it returns every percent sign has a
    backslash before it and every ampersand has a backslash before it or
    after it. *)
Theorem normalizer_escapes_and_settles (s : str) :
  (forall u v, fix_special_characters s = u ++ 37 :: v -> last u = Some BACKSLASH)
  /\ (forall u v, fix_special_characters s = u ++ 38 :: v ->
        last u = Some BACKSLASH \/ head v = Some BACKSLASH)
  /\ fix_special_characters (fix_special_characters s) = fix_special_characters s.
Proof.
  split; [|split].
  - intros u v E. pose proof (normal_percent s) as H. rewrite E in H.
    apply nosites_at in H. unfold site in H.
    cbn [chars_window w_prev w_body w_next map wmatch any] in H.
    rewrite N.eqb_refl, andb_true_r in H.
    destruct (last u) as [c|]; [|discriminate]. cbn [not_backslash] in H.
    apply negb_false_iff, N.eqb_eq in H. subst c. reflexivity.
  - intros u v E. pose proof (normal_ampersand s) as H. rewrite E in H.
    apply nosites_at in H. unfold site in H.
    cbn [chars_window w_prev w_body w_next map wmatch] in H.
    rewrite N.eqb_refl in H. cbn [andb] in H.
    apply andb_false_iff in H as [H|H].
    + left. destruct (last u) as [c|]; [|discriminate]. cbn [not_backslash] in H.
      apply negb_false_iff, N.eqb_eq in H. subst c. reflexivity.
    + right. destruct (head v) as [c|]; [|discriminate]. cbn [not_backslash] in H.
      apply negb_false_iff, N.eqb_eq in H. subst c. reflexivity.
  - apply fix_special_characters_normal.
    + apply normal_tilde_command.
    + apply normal_tilde_digit.
    + apply normal_degree.
    + apply normal_CO2.
    + apply normal_CH4.
    + apply normal_H2O.
    + apply normal_O2.
    + apply normal_times.
    + apply normal_quotes.
    + apply normal_em_dash.
    + apply normal_en_dash.
    + apply normal_percent.
    + apply normal_ampersand.
Qed.

(** ** The normalizer: what its result never holds *)

Lemma nosites_char_absent c : forall s p,
  nosites (chars_window any [c] any) p s -> mem c s = false.
Proof.
  induction s as [|d s IH]; intros p [H1 H2]; [reflexivity|].
  cbn [mem]. rewrite (IH _ H2), orb_false_r.
  unfold site in H1. cbn [chars_window w_prev w_body w_next map wmatch any andb] in H1.
  rewrite andb_true_r in H1. exact H1.
Qed.

Lemma nosites_no_factor l : forall s p,
  nosites (chars_window any l any) p s -> contains l s = false.
Proof.
  induction s as [|d s IH]; intros p [H1 H2];
    unfold site in H1; cbn [chars_window w_prev w_body w_next] in H1;
    rewrite wmatch_chars in H1; unfold any in H1; rewrite andb_true_r in H1;
    cbn [andb] in H1; cbn [contains]; rewrite H1; [reflexivity|].
  apply (IH _ H2).
Qed.

Lemma no_factor_nosites pv l nx : forall s p,
  contains l s = false -> nosites (chars_window pv l nx) p s.
Proof.
  induction s as [|d s IH]; intros p H; cbn [contains] in H;
    apply orb_false_iff in H as [H1 H2]; cbn [nosites]; (split; [|auto]);
    unfold site; cbn [chars_window w_prev w_body w_next];
    rewrite wmatch_chars, H1; apply andb_false_r.
Qed.

Lemma absent_no_factor k l : forall s, mem k s = false -> contains (k :: l) s = false.
Proof.
  induction s as [|d s IH]; intros H; [reflexivity|].
  cbn [mem] in H. apply orb_false_iff in H as [H1 H2].
  cbn [contains is_prefix]. rewrite H1, (IH H2). reflexivity.
Qed.

Lemma absent_unpaired : forall s, mem DQUOTE s = false -> unpaired s.
Proof.
  induction s as [|c s IH]; intros H; [exact I|].
  cbn [mem] in H. apply orb_false_iff in H as [H1 H2]. split; [|exact (IH H2)].
  intros _. exact H2.
Qed.

(** X1.  The text the normalizer returns holds no degree sign, no
    multiplication sign, no em dash and no en dash. *)
Theorem symbols_all_rewritten (s : str) :
  mem DEGREE (fix_special_characters s) = false
  /\ mem TIMES (fix_special_characters s) = false
  /\ mem EM_DASH (fix_special_characters s) = false
  /\ mem EN_DASH (fix_special_characters s) = false.
Proof.
  repeat split.
  - apply (nosites_char_absent _ _ None (normal_degree s)).
  - apply (nosites_char_absent _ _ None (normal_times s)).
  - apply (nosites_char_absent _ _ None (normal_em_dash s)).
  - apply (nosites_char_absent _ _ None (normal_en_dash s)).
Qed.

(** X2.  The text the normalizer returns holds no [\textasciitilde]
    command, and no tilde of it stands before a digit. *)
Theorem tildes_all_rewritten (s : str) :
  contains (text "\textasciitilde") (fix_special_characters s) = false
  /\ (forall u d v, fix_special_characters s = u ++ 126 :: d :: v -> is_digit d = false).
Proof.
  split.
  - apply (nosites_no_factor _ _ None (normal_tilde_command s)).
  - intros u d v E. pose proof (normal_tilde_digit s) as H. rewrite E in H.
    apply nosites_at in H. unfold site in H.
    cbn [chars_window w_prev w_body w_next map wmatch any andb head digit_next] in H.
    rewrite N.eqb_refl in H. exact H.
Qed.

Lemma absent_count c : forall s,
  mem c s = false -> length (List.filter (fun d => d =? c) s) = 0%nat.
Proof.
  induction s as [|d s IH]; intros H; [reflexivity|].
  cbn [mem] in H. apply orb_false_iff in H as [H1 H2].
  cbn [List.filter]. rewrite N.eqb_sym, H1. exact (IH H2).
Qed.

Lemma unpaired_count : forall s,
  unpaired s -> (length (List.filter (fun d => N.eqb d DQUOTE) s) <= 1)%nat.
Proof.
  induction s as [|d s IH]; intros H; [cbn; lia|]. destruct H as [H1 H2].
  cbn [List.filter]. destruct (d =? DQUOTE) eqn:E.
  - apply N.eqb_eq in E. cbn [length]. rewrite (absent_count _ _ (H1 E)). lia.
  - exact (IH H2).
Qed.

(** X3.  The text the normalizer returns holds at most one straight double
    quote. *)
Theorem one_straight_quote_left (s : str) :
  (length (List.filter (fun c => N.eqb c DQUOTE) (fix_special_characters s)) <= 1)%nat.
Proof. apply unpaired_count, normal_quotes. Qed.

(** The formula [f] stands in [o] as a word of its own. *)
Definition standalone (f o : str) : Prop :=
  exists u v, o = u ++ f ++ v
              /\ not_word (last u) = true /\ not_word (head v) = true.

Lemma nosites_not_standalone f o :
  nosites (chars_window not_word f not_word) None o -> ~ standalone f o.
Proof.
  intros H (u & v & E & Hu & Hv). rewrite E in H. apply nosites_at in H.
  unfold site in H. cbn [chars_window w_prev w_body w_next] in H.
  rewrite wmatch_chars, is_prefix_app_same, skipn_app_same, Hv in H.
  destruct (last u); rewrite Hu in H; discriminate.
Qed.

(** X4.  None of the four formulas is left as a word of its own in the
    text the normalizer returns. *)
Theorem formulas_all_rewritten (s : str) :
  ~ standalone (text "CO2") (fix_special_characters s)
  /\ ~ standalone (text "CH4") (fix_special_characters s)
  /\ ~ standalone (text "H2O") (fix_special_characters s)
  /\ ~ standalone (text "O2") (fix_special_characters s).
Proof.
  repeat split; apply nosites_not_standalone.
  - apply normal_CO2.
  - apply normal_CH4.
  - apply normal_H2O.
  - apply normal_O2.
Qed.

(** ** The normalizer on ordinary prose *)

(** The characters a pattern of the normalizer starts with, the formulas
    apart. *)
Definition SPECIAL : list N :=
  [BACKSLASH; 126; DEGREE; TIMES; DQUOTE; EM_DASH; EN_DASH; 37; 38].

Definition special_free (s : str) : bool :=
  forallb (fun c => negb (mem c SPECIAL)) s.

Lemma special_free_absent c : forall s,
  mem c SPECIAL = true -> special_free s = true -> mem c s = false.
Proof.
  intros s Hc. induction s as [|d s IH]; intros H; [reflexivity|].
  cbn [special_free forallb] in H. apply andb_true_iff in H as [H1 H2].
  cbn [mem]. rewrite (IH H2), orb_false_r.
  destruct (c =? d) eqn:E; [|reflexivity]. apply N.eqb_eq in E. subst d.
  rewrite Hc in H1. discriminate.
Qed.

Lemma no_O2_no_CO2 s :
  contains (text "O2") s = false -> contains (text "CO2") s = false.
Proof.
  intros H. destruct (contains (text "CO2") s) eqn:E; [|reflexivity].
  apply contains_spec in E as (u & v & ->).
  rewrite <- H. symmetry. apply contains_spec.
  exists (u ++ [67]), v. rewrite <- app_assoc. reflexivity.
Qed.

Lemma prose_normal s :
  special_free s = true ->
  contains (text "O2") s = false ->
  contains (text "CH4") s = false ->
  contains (text "H2O") s = false ->
  fix_special_characters s = s.
Proof.
  intros Hs H1 H2 H3.
  assert (Ha : forall c, mem c SPECIAL = true -> mem c s = false)
    by (intros c Hc; apply (special_free_absent c s Hc Hs)).
  apply fix_special_characters_normal.
  - apply no_factor_nosites. apply absent_no_factor. apply Ha. reflexivity.
  - apply no_factor_nosites. apply absent_no_factor. apply Ha. reflexivity.
  - apply no_factor_nosites. apply absent_no_factor. apply Ha. reflexivity.
  - apply no_factor_nosites. apply no_O2_no_CO2. exact H1.
  - apply no_factor_nosites. exact H2.
  - apply no_factor_nosites. exact H3.
  - apply no_factor_nosites. exact H1.
  - apply no_factor_nosites. apply absent_no_factor. apply Ha. reflexivity.
  - apply absent_unpaired. apply Ha. reflexivity.
  - apply no_factor_nosites. apply absent_no_factor. apply Ha. reflexivity.
  - apply no_factor_nosites. apply absent_no_factor. apply Ha. reflexivity.
  - apply no_factor_nosites. apply absent_no_factor. apply Ha. reflexivity.
  - apply no_factor_nosites. apply absent_no_factor. apply Ha. reflexivity.
Qed.

(** X5.  A text that holds none of the characters the normalizer looks
    for (backslash, tilde, degree and multiplication sign, straight quote,
    the two dashes, percent, ampersand) and none of the four formulas is
    returned as it is. *)
Theorem normalizer_keeps_prose (s : str) :
  special_free s = true ->
  contains (text "O2") s = false ->
  contains (text "CH4") s = false ->
  contains (text "H2O") s = false ->
  fix_special_characters s = s.
Proof. apply prose_normal. Qed.

(** ** The acronym folder *)

(** X6.  A text without an opening parenthesis introduces no acronym: the
    folder returns it as it is, bare short forms included. *)
Theorem acronyms_need_introduction (s : str) :
  mem 40 s = false -> replace_acronyms s = s.
Proof. intros H. apply fold_acronyms_no_paren, H. Qed.

(** A sentence that introduces an acronym and then uses it, and one that
    uses it first. *)
Definition introduced_then_used (short full : string) : str :=
  text full ++ text " (" ++ text short ++ text ") and " ++ text short ++ text ".".

Definition used_then_introduced (short full : string) : str :=
  text short ++ text " is " ++ text full ++ text " (" ++ text short ++ text ").".

(** X7.  Every entry of the table is folded by its own turn of the loop
    and by no other: introduced as "Full Form (SHORT)" and used bare once,
    after or before, both places become the tagged form and nothing else
    changes. *)
Theorem every_table_entry_folds :
  Forall (fun e : string * string =>
            replace_acronyms (introduced_then_used e.1 e.2)
            = text "\ac{" ++ text e.1 ++ text "} and \ac{" ++ text e.1 ++ text "}."
            /\ replace_acronyms (used_then_introduced e.1 e.2)
               = text "\ac{" ++ text e.1 ++ text "} is \ac{" ++ text e.1 ++ text "}.")
         ACRONYMS.
Proof.
  assert (H : forallb
                (fun e : string * string =>
                   bool_decide
                     (replace_acronyms (introduced_then_used e.1 e.2)
                      = text "\ac{" ++ text e.1 ++ text "} and \ac{" ++ text e.1
                        ++ text "}.")
                   && bool_decide
                        (replace_acronyms (used_then_introduced e.1 e.2)
                         = text "\ac{" ++ text e.1 ++ text "} is \ac{" ++ text e.1
                           ++ text "}."))
                ACRONYMS = true) by (vm_compute; reflexivity).
  rewrite forallb_forall in H. apply List.Forall_forall. intros e He.
  specialize (H e He). apply andb_true_iff in H as [H1 H2].
  split; [exact (bool_decide_eq_true_1 _ H1)|exact (bool_decide_eq_true_1 _ H2)].
Qed.

(** ** The anchors of the headings *)

(** A character an anchor may hold: a to z, 0 to 9, the hyphen. *)
Definition slug_char (c : N) : bool :=
  between 97 122 c || between 48 57 c || (c =? 45).

Lemma sub_class_filter cs : forall l b,
  sub_loop false (Chr cs) [] None 0 b l
  = List.filter (fun c => negb (in_cset false cs c)) l.
Proof.
  induction l as [|c l IH]; intros b; [reflexivity|].
  cbn [List.filter]. destruct (in_cset false cs c) eqn:E; cbn [negb].
  - change (c :: l) with ([c] ++ l).
    rewrite (sub_loop_hit false (Chr cs) [] None b [c] l (c :: b) []);
      [|reflexivity|discriminate|cbn; unfold match_at; cbn [rx]; rewrite E; reflexivity].
    cbn [expand app dec_limit rev]. apply IH.
  - cbn [sub_loop exhausted]. unfold match_at at 1. cbn [rx]. rewrite E.
    f_equal. apply IH.
Qed.

Lemma slug_chars_filter l : slug_chars l = List.filter slug_char l.
Proof.
  unfold slug_chars, re_sub. rewrite sub_class_filter.
  apply filter_ext. intros c. cbn [in_cset existsb in_item xorb]. unfold slug_char.
  destruct (between 97 122 c), (between 48 57 c), (c =? 45); reflexivity.
Qed.

Lemma filter_replace_dropped p old (l : str) :
  p old = false ->
  List.filter p (replace_char old [] l) = List.filter p l.
Proof.
  intros H. induction l as [|c l IH]; [reflexivity|].
  cbn [replace_char flat_map List.filter]. fold (replace_char old [] l).
  destruct (c =? old) eqn:E.
  - apply N.eqb_eq in E. subst c. rewrite H. exact IH.
  - cbn [app List.filter]. rewrite IH. reflexivity.
Qed.

Lemma forallb_filter_same (p : N -> bool) l : forallb p (List.filter p l) = true.
Proof.
  induction l as [|c l IH]; [reflexivity|]. cbn [List.filter].
  destruct (p c) eqn:E; [cbn [forallb]; rewrite E|]; exact IH.
Qed.

Lemma filter_all (p : N -> bool) l : forallb p l = true -> List.filter p l = l.
Proof.
  induction l as [|c l IH]; [reflexivity|]. cbn [forallb List.filter]. intros H.
  apply andb_true_iff in H as [H1 H2]. rewrite H1, (IH H2). reflexivity.
Qed.

Lemma replace_char_absent old new l :
  mem old l = false -> replace_char old new l = l.
Proof.
  induction l as [|c l IH]; [reflexivity|]. cbn [mem]. intros H.
  apply orb_false_iff in H as [H1 H2]. cbn [replace_char flat_map].
  fold (replace_char old new l). rewrite N.eqb_sym, H1, (IH H2). reflexivity.
Qed.

Lemma slug_char_bounds c :
  slug_char c = true -> (c <? 128) = true /\ is_ascii_upper c = false.
Proof.
  unfold slug_char, is_ascii_upper, between. intros H.
  destruct (N.leb_spec 97 c), (N.leb_spec c 122), (N.leb_spec 48 c), (N.leb_spec c 57),
    (N.eqb_spec c 45), (N.ltb_spec c 128), (N.leb_spec 65 c), (N.leb_spec c 90);
    cbn in H |- *; try discriminate; split; try reflexivity; lia.
Qed.

Lemma slug_lower l : forallb slug_char l = true -> str_lower l = l.
Proof.
  induction l as [|c l IH]; [reflexivity|]. cbn [forallb]. intros H.
  apply andb_true_iff in H as [H1 H2]. cbn [str_lower flat_map]. fold (str_lower l).
  destruct (slug_char_bounds c H1) as [Hb Hu]. unfold lower_char.
  rewrite Hb, Hu, (IH H2). reflexivity.
Qed.

Lemma slug_absent x l : slug_char x = false -> forallb slug_char l = true -> mem x l = false.
Proof.
  intros Hx. induction l as [|c l IH]; [reflexivity|]. cbn [forallb mem]. intros H.
  apply andb_true_iff in H as [H1 H2]. rewrite (IH H2), orb_false_r.
  destruct (x =? c) eqn:E; [|reflexivity]. apply N.eqb_eq in E. subst c. congruence.
Qed.

Lemma title_label_filter t :
  title_label t = List.filter slug_char (replace_char 32 (text "-") (str_lower t)).
Proof.
  unfold title_label. cbv zeta.
  rewrite slug_chars_filter, !filter_replace_dropped by reflexivity. reflexivity.
Qed.

Lemma line_label_filter t :
  line_label t = List.filter slug_char (replace_char 32 (text "-") (str_lower t)).
Proof.
  unfold line_label. cbv zeta.
  rewrite slug_chars_filter, filter_replace_dropped by reflexivity. reflexivity.
Qed.

(** X8.  An anchor holds only the characters a to z, 0 to 9 and the
    hyphen; the anchor of the line pass and the anchor of the two title
    lists are the same function of the title (the comma rule changes
    nothing, the last rule drops commas anyway); and the anchor of an
    anchor is that anchor. *)
Theorem anchors_are_slugs (t : str) :
  forallb slug_char (title_label t) = true
  /\ line_label t = title_label t
  /\ title_label (title_label t) = title_label t.
Proof.
  split; [|split].
  - rewrite title_label_filter. apply forallb_filter_same.
  - rewrite line_label_filter, title_label_filter. reflexivity.
  - assert (H : forallb slug_char (title_label t) = true)
      by (rewrite title_label_filter; apply forallb_filter_same).
    rewrite (title_label_filter (title_label t)).
    rewrite (slug_lower _ H).
    rewrite (replace_char_absent 32 _ _ (slug_absent 32 _ eq_refl H)).
    apply filter_all, H.
Qed.

(** The titles of the two lists hold ASCII letters, digits, blanks,
    hyphens and commas. *)
Definition title_char (c : N) : bool :=
  is_ascii_letter c || is_ascii_digit c || (c =? 32) || (c =? 45) || (c =? 44).

(** What becomes of one such character in the anchor. *)
Definition anchor_char (c : N) : list N :=
  if c =? 32 then [45] else if c =? 44 then [] else [ascii_fold c].

Lemma title_label_cons c t :
  title_label (c :: t) = title_label [c] ++ title_label t.
Proof.
  rewrite !title_label_filter. cbn [str_lower flat_map]. fold (str_lower t).
  rewrite app_nil_r. unfold replace_char. rewrite flat_map_app, List.filter_app.
  reflexivity.
Qed.

Lemma title_label_char c : title_char c = true -> title_label [c] = anchor_char c.
Proof.
  intros H. rewrite title_label_filter. cbn [str_lower flat_map]. rewrite app_nil_r.
  unfold title_char, is_ascii_letter, is_ascii_upper, is_ascii_lower, is_ascii_digit,
    between in H.
  unfold lower_char, anchor_char, ascii_fold, is_ascii_upper, between.
  destruct (N.leb_spec 65 c), (N.leb_spec c 90), (N.leb_spec 97 c), (N.leb_spec c 122),
    (N.leb_spec 48 c), (N.leb_spec c 57), (N.eqb_spec c 32), (N.eqb_spec c 45),
    (N.eqb_spec c 44), (N.ltb_spec c 128);
    cbn in H |- *; try discriminate; try lia;
    unfold replace_char; cbn [flat_map andb];
    repeat match goal with
           | |- context [?x =? ?y] => destruct (N.eqb_spec x y); try lia
           end;
    cbn [app List.filter]; unfold slug_char, between;
    repeat match goal with
           | |- context [?x <=? ?y] => destruct (N.leb_spec x y); try lia
           | |- context [?x =? ?y] => destruct (N.eqb_spec x y); try lia
           end; try reflexivity.
Qed.

(** X9.  For a title of ASCII letters, digits, blanks, hyphens and commas
    the anchor is the title character by character: a blank becomes a
    hyphen, a comma is dropped, a letter is lowered. *)
Theorem anchor_of_plain_title (t : str) :
  forallb title_char t = true -> title_label t = flat_map anchor_char t.
Proof.
  induction t as [|c t IH]; intros H; [reflexivity|].
  cbn [forallb] in H. apply andb_true_iff in H as [H1 H2].
  rewrite title_label_cons, (title_label_char c H1), (IH H2). reflexivity.
Qed.

(** ** The heading reconstructor on a text without headings *)

Lemma re_sub_without_ci r w t s :
  (forall b a, ci_prefix w a = false -> match_at true r b a = None) ->
  ci_prefix w [] = false ->
  ci_contains w s = false ->
  re_sub true r t s = s.
Proof.
  intros Hr Hw Hs. apply re_sub_quiet.
  - apply (quiet_without_ci true r w [] s [] Hr Hs). exact I.
  - apply Hr, Hw.
Qed.

Lemma chapter2_plain_needs b a :
  ci_prefix (text "Chapter") a = false -> match_at true chapter2_plain b a = None.
Proof.
  intros H. unfold match_at, chapter2_plain. cbn [Concat].
  rewrite rx_Seq, rx_Lit_ci, H. reflexivity.
Qed.

Lemma chapter3_plain_needs b a :
  ci_prefix (text "Chapter") a = false -> match_at true chapter3_plain b a = None.
Proof.
  intros H. unfold match_at, chapter3_plain. cbn [Concat].
  rewrite rx_Seq, rx_Lit_ci, H. reflexivity.
Qed.

Lemma chapter3_bold_needs b a :
  ci_prefix BOLD_OPEN a = false -> match_at true chapter3_bold b a = None.
Proof.
  intros H. unfold match_at, chapter3_bold. cbn [Concat].
  rewrite rx_Seq, rx_Lit_ci.
  change (text "\textbf{Chapter") with (BOLD_OPEN ++ text "Chapter").
  rewrite ci_prefix_app, H. reflexivity.
Qed.

Lemma promote_sections_without_bold s :
  ci_contains BOLD_OPEN s = false ->
  forall titles, fold_left promote_section titles s = s.
Proof.
  intros Hs. induction titles as [|title titles IH]; [reflexivity|].
  cbn [fold_left]. unfold promote_section at 2.
  rewrite (re_sub_without_ci _ BOLD_OPEN _ s (bold_title_opens title) eq_refl Hs).
  exact IH.
Qed.

Lemma promote_subsections_without_bold s :
  ci_contains BOLD_OPEN s = false ->
  forall titles, fold_left promote_subsection titles s = s.
Proof.
  intros Hs. induction titles as [|title titles IH]; [reflexivity|].
  cbn [fold_left]. unfold promote_subsection at 2.
  rewrite (re_sub_without_ci _ BOLD_OPEN _ s (bold_title_opens title) eq_refl Hs).
  exact IH.
Qed.

(** *** Lines *)

Lemma split_lines_nonempty s : split_lines s <> [].
Proof.
  destruct s as [|c s]; [discriminate|]. cbn [split_lines].
  destruct (c =? LF); [discriminate|]. destruct (split_lines s); discriminate.
Qed.

(** Joining the lines of a text gives the text back. *)
Lemma join_split_lines : forall s, join_lines (split_lines s) = s.
Proof.
  induction s as [|c s IH]; [reflexivity|]. cbn [split_lines].
  pose proof (split_lines_nonempty s) as Hne.
  destruct (c =? LF) eqn:E.
  - apply N.eqb_eq in E. subst c.
    destruct (split_lines s) as [|l ls]; [congruence|].
    cbn [join_lines app]. cbn [join_lines] in IH. rewrite IH. reflexivity.
  - destruct (split_lines s) as [|l ls]; [congruence|].
    destruct ls as [|l' ls]; cbn [join_lines app] in *; rewrite IH; reflexivity.
Qed.

Lemma split_lines_shape : forall s,
  match split_lines s with
  | l0 :: ls =>
      (exists v, s = l0 ++ v) /\ (forall l, In l ls -> exists u v, s = u ++ l ++ v)
  | [] => False
  end.
Proof.
  induction s as [|c s IH].
  - cbn. split; [exists []; reflexivity|intros l []].
  - cbn [split_lines]. destruct (split_lines s) as [|l0 ls]; [destruct IH|].
    destruct IH as [(v0 & E0) IH]. destruct (c =? LF).
    + split; [exists (c :: s); reflexivity|]. intros l [<-|H].
      * exists [c], v0. cbn [app]. rewrite <- E0. reflexivity.
      * destruct (IH l H) as (u & v & ->). exists (c :: u), v. reflexivity.
    + split; [exists v0; cbn [app]; rewrite <- E0; reflexivity|]. intros l H.
      destruct (IH l H) as (u & v & ->). exists (c :: u), v. reflexivity.
Qed.

Lemma split_lines_factor s l :
  In l (split_lines s) -> exists u v, s = u ++ l ++ v.
Proof.
  pose proof (split_lines_shape s) as H. destruct (split_lines s) as [|l0 ls]; [destruct H|].
  destruct H as [(v0 & E0) H]. intros [<-|Hl]; [|exact (H l Hl)].
  exists [], v0. exact E0.
Qed.

Lemma lstrip_suffix : forall s, exists u, s = u ++ lstrip s.
Proof.
  induction s as [|c s [u IH]]; [exists []; reflexivity|]. cbn [lstrip].
  destruct (is_space c); [|exists []; reflexivity].
  exists (c :: u). cbn [app]. rewrite <- IH. reflexivity.
Qed.

Lemma strip_factor s : exists u v, s = u ++ strip s ++ v.
Proof.
  destruct (lstrip_suffix s) as [u Hu]. unfold strip, rstrip.
  destruct (lstrip_suffix (rev (lstrip s))) as [v Hv].
  exists u, (rev v). rewrite <- rev_app_distr, <- Hv, rev_involutive. exact Hu.
Qed.

Lemma contains_factor w u s v : contains w s = true -> contains w (u ++ s ++ v) = true.
Proof. intros H. apply contains_app_r, contains_app_l, H. Qed.

Lemma is_prefix_ci w : forall a, is_prefix w a = true -> ci_prefix w a = true.
Proof.
  induction w as [|x w IH]; intros a H; [reflexivity|].
  destruct a as [|c a]; [discriminate|]. cbn [is_prefix ci_prefix] in *.
  apply andb_true_iff in H as [H1 H2]. rewrite (IH a H2), andb_true_r.
  unfold ci_eq. rewrite N.eqb_sym, H1. reflexivity.
Qed.

Lemma ci_contains_contains w : forall s, ci_contains w s = false -> contains w s = false.
Proof.
  induction s as [|c s IH]; intros H; cbn [ci_contains contains] in *;
    apply orb_false_iff in H as [H1 H2];
    (destruct (is_prefix w _) eqn:E; [apply is_prefix_ci in E; congruence|]);
    [reflexivity|apply (IH H2)].
Qed.

Lemma rx_Bol_start ic a g k : rx ic Bol [] a g k = k [] a g.
Proof. reflexivity. Qed.

Definition HYPERTARGET_OPEN : str := text "\hypertarget{".

Lemma hypertarget_needs a :
  is_prefix HYPERTARGET_OPEN a = false -> re_match hypertarget_heading a = None.
Proof.
  intros H. unfold re_match, match_at, hypertarget_heading. cbn [Concat].
  rewrite rx_Seq, rx_Lit. fold HYPERTARGET_OPEN. rewrite H. reflexivity.
Qed.

Lemma bold_only_needs a :
  is_prefix BOLD_OPEN a = false -> re_match bold_only_line a = None.
Proof.
  intros H. unfold re_match, match_at, bold_only_line. cbn [Concat].
  rewrite rx_Seq, rx_Bol_start, rx_Seq, rx_Lit. fold BOLD_OPEN. rewrite H. reflexivity.
Qed.

(** A line that opens neither way is kept. *)
Lemma fix_line_other line :
  is_prefix HYPERTARGET_OPEN (strip line) = false ->
  is_prefix BOLD_OPEN (strip line) = false ->
  fix_line line = [line].
Proof.
  intros H1 H2. unfold fix_line. cbv zeta.
  rewrite (hypertarget_needs _ H1), (bold_only_needs _ H2). reflexivity.
Qed.

Lemma lines_without_headings s :
  contains HYPERTARGET_OPEN s = false ->
  contains BOLD_OPEN s = false ->
  join_lines (flat_map fix_line (split_lines s)) = s.
Proof.
  intros H1 H2. rewrite <- (join_split_lines s) at 2. f_equal.
  assert (H : forall l, In l (split_lines s) -> fix_line l = [l]).
  { intros l Hl. destruct (split_lines_factor s l Hl) as (u & v & E).
    destruct (strip_factor l) as (u' & v' & E').
    assert (F : forall w, contains w s = false -> is_prefix w (strip l) = false).
    { intros w Hw. apply contains_false_prefix.
      destruct (contains w (strip l)) eqn:Ec; [|reflexivity].
      rewrite <- Hw, E, E'. symmetry.
      apply contains_factor, contains_factor, Ec. }
    apply fix_line_other; apply F; assumption. }
  induction (split_lines s) as [|l ls IH]; [reflexivity|].
  cbn [flat_map]. rewrite (H l (or_introl eq_refl)), IH; [reflexivity|].
  intros l' Hl'. apply H. right. exact Hl'.
Qed.

Lemma headings_keep_prose s :
  contains FIRST_SECTION s = false ->
  ci_contains (text "Chapter") s = false ->
  ci_contains BOLD_OPEN s = false ->
  contains HYPERTARGET_OPEN s = false ->
  fix_headings s = s.
Proof.
  intros H1 H2 H3 H4. unfold fix_headings. cbv zeta.
  assert (E : insert_introduction s = s)
    by (unfold insert_introduction; rewrite H1; reflexivity).
  rewrite E.
  rewrite (re_sub_without_ci _ _ _ s chapter2_plain_needs eq_refl H2).
  rewrite (re_sub_without_ci _ _ _ s chapter3_bold_needs eq_refl H3).
  rewrite (re_sub_without_ci _ _ _ s chapter3_plain_needs eq_refl H2).
  rewrite (promote_sections_without_bold s H3).
  rewrite (promote_subsections_without_bold s H3).
  apply lines_without_headings; [exact H4|apply ci_contains_contains, H3].
Qed.

(** X10.  A text that holds neither the first-section title, nor the word
    "chapter" in any case, nor a bold command in any case, nor a
    hypertarget command is returned by the heading reconstructor as it
    is. *)
Theorem headings_need_a_trigger (s : str) :
  contains (text "Background and Significance") s = false ->
  ci_contains (text "Chapter") s = false ->
  ci_contains (text "\textbf{") s = false ->
  contains (text "\hypertarget{") s = false ->
  fix_headings s = s.
Proof. apply headings_keep_prose. Qed.

(** *** The bold line *)

Lemma rx_plus_group ic x n r c t rest b g k :
  is_ascii_letter x = false ->
  mem x (c :: t) = false ->
  rx ic (Seq (Group n (Plus (Class true [CChar x]))) (Seq (Chr (One x)) r))
     b (c :: t ++ x :: rest) g k
  = rx ic r (x :: rev (c :: t) ++ b) rest ((n, c :: t) :: g) k.
Proof.
  intros Hx Ht. cbn [mem] in Ht. apply orb_false_iff in Ht as [Hc Ht].
  unfold Plus. cbn [rx]. rewrite in_not_char, N.eqb_sym, Hc. cbn [negb].
  rewrite star_greedy_stop.
  - rewrite (span_ext _ (fun c => negb (c =? x)) _ (in_not_char ic x)).
    rewrite (span_prefix _ t x rest (forallb_not_char x t Ht))
      by (rewrite N.eqb_refl; reflexivity).
    cbn [fst snd]. rewrite in_One_nonletter, N.eqb_refl by exact Hx.
    change (c :: t ++ x :: rest) with ((c :: t) ++ x :: rest).
    rewrite firstn_consumed. cbn [rev]. rewrite <- app_assoc. reflexivity.
  - intros b' c' a' Hc'. rewrite in_not_char in Hc'. apply negb_true_iff in Hc'.
    rewrite in_One_nonletter, Hc' by exact Hx. reflexivity.
Qed.

Lemma bold_only_match c t :
  mem 125 (c :: t) = false ->
  re_match bold_only_line (BOLD_OPEN ++ (c :: t) ++ [125])
  = Some (125 :: rev (c :: t) ++ rev BOLD_OPEN, [], [(1%nat, c :: t)]).
Proof.
  intros Ht. unfold re_match, match_at, bold_only_line. cbn [Concat].
  rewrite rx_Seq, rx_Bol_start, rx_Seq, rx_Lit. fold BOLD_OPEN.
  rewrite is_prefix_app_same, skipn_app_same.
  unfold NOT_BRACE. cbn [app].
  rewrite (rx_plus_group false 125 1 _ c t [] _ [] accept eq_refl Ht).
  rewrite app_nil_r. reflexivity.
Qed.

(** X11.  A line that, stripped, is one bold command around a title
    becomes an unnumbered subsection with its anchor when the title is
    shorter than 100 characters and does not end in a period; otherwise
    the line is kept as it is. *)
Theorem bold_line_rule (line title : str) :
  strip line = text "\textbf{" ++ title ++ text "}" ->
  title <> [] ->
  mem 125 title = false ->
  fix_line line
  = if (length title <? 100)%nat && negb (ends_with_char 46 title)
    then [ text "\subsection*{" ++ title ++ text "}";
           text "\label{subsec:" ++ line_label title ++ text "}" ]
    else [line].
Proof.
  intros E Hne Ht. destruct title as [|c t]; [congruence|].
  unfold fix_line. cbv zeta. rewrite E.
  rewrite hypertarget_needs by reflexivity.
  change (text "\textbf{" ++ (c :: t) ++ text "}") with (BOLD_OPEN ++ (c :: t) ++ [125]).
  rewrite (bold_only_match c t Ht). cbn [group Nat.eqb]. reflexivity.
Qed.

(** ** The chapter splitter *)

(** X12.  In a buffer of headed chapters the splitter reports the
    frontmatter exactly when it holds a character that is not white space,
    and then with the length of the stripped frontmatter; a blank
    frontmatter is dropped without a word. *)
Theorem frontmatter_reported_unless_blank (front : str) (chs : list (str * str)) :
  contains CHAPTER_OPEN front = false ->
  Forall headed chs ->
  chs <> [] ->
  (split_into_chapters (front ++ chapters_text chs)).2
  = match strip front with
    | [] => []
    | _ :: _ => [InfoFrontmatter (length (strip front))]
    end.
Proof. intros H1 H2 H3. rewrite (split_chapters front chs H1 H2 H3). reflexivity. Qed.

Lemma lstrip_idem : forall s, lstrip (lstrip s) = lstrip s.
Proof.
  induction s as [|c s IH]; [reflexivity|]. cbn [lstrip].
  destruct (is_space c) eqn:E; [exact IH|]. cbn [lstrip]. rewrite E. reflexivity.
Qed.

Lemma lstrip_head s :
  lstrip s = [] \/ exists c y, lstrip s = c :: y /\ is_space c = false.
Proof.
  induction s as [|c s IH]; [left; reflexivity|]. cbn [lstrip].
  destruct (is_space c) eqn:E; [exact IH|]. right. eauto.
Qed.

Lemma rstrip_idem s : rstrip (rstrip s) = rstrip s.
Proof. unfold rstrip. rewrite rev_involutive, lstrip_idem. reflexivity. Qed.

(** [strip] of a stripped text changes nothing. *)
Lemma strip_idem s : strip (strip s) = strip s.
Proof.
  unfold strip. destruct (lstrip_head s) as [E|(c & y & E & Hc)]; rewrite E.
  - reflexivity.
  - assert (R : forall z, rstrip (c :: z) = c :: rstrip z)
      by (intros z; apply (rstrip_app_nonspace [] c z Hc)).
    rewrite R. cbn [lstrip]. rewrite Hc, R, rstrip_idem. reflexivity.
Qed.

Lemma chapter_entries_stripped content n c : forall ms i,
  In (n, c) (chapter_entries content i ms) -> strip c = c.
Proof.
  induction ms as [|m ms IH]; intros i H; [destruct H|].
  cbn [chapter_entries] in H. destruct H as [H|H].
  - injection H as _ <-. apply strip_idem.
  - apply (IH _ H).
Qed.

(** *** Where the chapter commands are found *)

(** The matches [ms] start at chapter commands of [content], from [lo] on
    and each after the opening of the one before. *)
Fixpoint well_placed (content : str) (lo : nat) (ms : list match_obj) : Prop :=
  match ms with
  | [] => True
  | m :: ms' =>
      (lo <= m_start m)%nat
      /\ is_prefix CHAPTER_OPEN (skipn (m_start m) content) = true
      /\ well_placed content (m_start m + length CHAPTER_OPEN) ms'
  end.

Lemma well_placed_from content lo lo' ms :
  (lo' <= lo)%nat -> well_placed content lo ms -> well_placed content lo' ms.
Proof.
  destruct ms as [|m ms]; [intros; exact I|]. cbn [well_placed].
  intros H (H1 & H2 & H3). repeat split; [lia|exact H2|exact H3].
Qed.

Lemma chapter_match_shape b a b1 a1 g :
  match_at false chapter_pattern b a = Some (b1, a1, g) ->
  exists t, a = (CHAPTER_OPEN ++ t ++ [125]) ++ a1
            /\ b1 = rev (CHAPTER_OPEN ++ t ++ [125]) ++ b.
Proof.
  rewrite chapter_match. destruct (is_prefix CHAPTER_OPEN a) eqn:Ep; [|discriminate].
  apply is_prefix_spec in Ep as [rest ->]. cbv zeta. rewrite skipn_app_same.
  pose proof (span_app not_brace rest) as Hs.
  destruct (span not_brace rest).2 as [|c a'] eqn:E2; [discriminate|].
  intros H. injection H as <- <- _.
  pose proof (span_stop not_brace rest c a' E2) as Hc.
  unfold not_brace in Hc. apply negb_false_iff, N.eqb_eq in Hc. subst c.
  exists (span not_brace rest).1. split.
  - rewrite <- Hs at 1. rewrite <- !app_assoc. reflexivity.
  - rewrite !rev_app_distr. cbn [rev app]. rewrite <- !app_assoc. reflexivity.
Qed.

Lemma finditer_well_placed : forall n a b,
  (length a <= n)%nat ->
  well_placed (rev b ++ a) (length b) (finditer_loop chapter_pattern 0 b a).
Proof.
  induction n as [|n IH]; intros a b Hn.
  - destruct a; [|cbn in Hn; lia]. cbn [finditer_loop].
    destruct (match_at false chapter_pattern b []) as [[[b1 a1] g]|] eqn:E; [|exact I].
    apply chapter_match_shape in E as (t & E & _). destruct t; discriminate.
  - destruct (match_at false chapter_pattern b a) as [[[b1 a1] g]|] eqn:E.
    + destruct (chapter_match_shape _ _ _ _ _ E) as (t & -> & ->).
      rewrite finditer_loop_hit with (g := g); [|destruct t; discriminate|exact E].
      cbn [well_placed m_start]. split; [lia|]. split.
      * rewrite <- (length_rev b), skipn_app_same, <- app_assoc.
        apply is_prefix_app_same.
      * eapply well_placed_from; [|rewrite (app_assoc (rev b));
                                    rewrite <- (rev_involutive (rev b ++ _));
                                    rewrite rev_app_distr, rev_involutive; apply IH].
        -- rewrite !length_app, length_rev, !length_app. lia.
        -- rewrite !length_app in Hn. cbn [length] in Hn. lia.
    + destruct a as [|c a]; cbn [finditer_loop]; rewrite E; [exact I|].
      eapply well_placed_from; [|replace (rev b ++ c :: a) with (rev (c :: b) ++ a)
                                    by (cbn [rev]; rewrite <- app_assoc; reflexivity);
                                  apply IH; cbn in Hn; lia].
      cbn [length]. lia.
Qed.

Lemma is_prefix_firstn w : forall y k,
  is_prefix w y = true -> (length w <= k)%nat -> is_prefix w (firstn k y) = true.
Proof.
  induction w as [|x w IH]; intros y k H Hk; [reflexivity|].
  destruct y as [|c y]; [discriminate|]. destruct k as [|k]; [cbn in Hk; lia|].
  cbn [is_prefix firstn] in *. apply andb_true_iff in H as [H1 H2].
  rewrite H1, (IH y k H2) by (cbn in Hk; lia). reflexivity.
Qed.

Lemma is_prefix_length w : forall y, is_prefix w y = true -> (length w <= length y)%nat.
Proof.
  induction w as [|x w IH]; intros y H; [cbn; lia|].
  destruct y as [|c y]; [discriminate|]. cbn [is_prefix] in H.
  apply andb_true_iff in H as [_ H]. specialize (IH y H). cbn [length]. lia.
Qed.

Lemma rstrip_app_solid w : forall z,
  forallb (fun c => negb (is_space c)) w = true -> rstrip (w ++ z) = w ++ rstrip z.
Proof.
  induction w as [|c w IH]; intros z H; [reflexivity|].
  cbn [forallb] in H. apply andb_true_iff in H as [H1 H2]. apply negb_true_iff in H1.
  cbn [app]. pose proof (rstrip_app_nonspace [] c (w ++ z) H1) as R.
  cbn [app] in R. rewrite R, (IH z H2). reflexivity.
Qed.

Lemma strip_keeps_opening y :
  is_prefix CHAPTER_OPEN y = true -> is_prefix CHAPTER_OPEN (strip y) = true.
Proof.
  intros H. apply is_prefix_spec in H as [z ->]. unfold strip.
  change (lstrip (CHAPTER_OPEN ++ z)) with (CHAPTER_OPEN ++ z).
  rewrite rstrip_app_solid by reflexivity. apply is_prefix_app_same.
Qed.

Lemma chapter_entries_open content n c : forall ms lo i,
  well_placed content lo ms ->
  In (n, c) (chapter_entries content i ms) -> is_prefix CHAPTER_OPEN c = true.
Proof.
  induction ms as [|m ms IH]; intros lo i Hw H; [destruct H|].
  cbn [chapter_entries] in H. destruct Hw as (_ & Hp & Hw). destruct H as [H|H].
  - injection H as _ <-. apply strip_keeps_opening. unfold slice.
    apply is_prefix_firstn; [exact Hp|].
    destruct ms as [|m' ms].
    + apply is_prefix_length in Hp. rewrite length_skipn in Hp. lia.
    + destruct Hw as (Hw & _). lia.
  - apply (IH _ _ Hw H).
Qed.

(** X13.  When the buffer holds a chapter command, every text the
    splitter returns opens with a chapter command and neither begins nor
    ends with white space: it is its own [strip]. *)
Theorem split_entries_open_with_chapter (content : str) (n : nat) (c : str) :
  re_finditer chapter_pattern content <> [] ->
  In (n, c) (split_into_chapters content).1 ->
  is_prefix (text "\chapter{") c = true /\ strip c = c.
Proof.
  unfold split_into_chapters. cbv zeta.
  pose proof (finditer_well_placed (length content) content [] (le_n _)) as Hw.
  fold (re_finditer chapter_pattern content) in Hw.
  destruct (re_finditer chapter_pattern content) as [|m ms]; [congruence|].
  intros _ H. cbn [fst] in H. split.
  - apply (chapter_entries_open content n c _ _ _ Hw H).
  - apply (chapter_entries_stripped content n c _ _ H).
Qed.

Lemma split_keys content :
  map fst (split_into_chapters content).1
  = seq 1 (length (split_into_chapters content).1).
Proof.
  unfold split_into_chapters. cbv zeta.
  destruct (re_finditer chapter_pattern content) as [|m ms]; [reflexivity|].
  cbn [fst]. rewrite chapter_entries_keys.
  rewrite <- (length_map fst (chapter_entries content 0 (m :: ms))), chapter_entries_keys.
  rewrite length_seq. reflexivity.
Qed.

(** ** The file writer *)

Definition CHAPTER_FILES : list string :=
  ["chapter1.tex"; "chapter1.tex.bak"; "chapter2.tex"; "chapter2.tex.bak";
   "chapter3.tex"; "chapter3.tex.bak"]%string.

Lemma registry_names n cfg :
  CHAPTERS !! n = Some cfg -> In (file cfg) CHAPTER_FILES /\ In (backup_name cfg) CHAPTER_FILES.
Proof.
  intros H. unfold backup_name.
  destruct (registry_cases _ _ H) as [(_ & F & _)|[(_ & F & _)|(_ & F & _)]];
    rewrite F; cbn; tauto.
Qed.

Lemma save_chapters_other now chapters (f : string) :
  ~ In f CHAPTER_FILES ->
  forall w, files (save_chapters now chapters w) !! f = files w !! f.
Proof.
  intros Hf. unfold save_chapters.
  induction chapters as [|[n c] chapters IH]; intros w; [reflexivity|].
  cbn [fold_left]. rewrite IH, save_chapter_lookup.
  destruct (CHAPTERS !! n) as [cfg|] eqn:E; [|reflexivity].
  destruct (registry_names n cfg E) as [H1 H2].
  repeat case_decide; subst; tauto.
Qed.

(** X14.  A run writes to the three chapter files and their three backups
    and to nothing else: every other file of the directory is after the
    run what it was before. *)
Theorem only_chapter_files_written (now : nat -> str) (content : str) (w : world)
    (f : string) :
  ~ In f CHAPTER_FILES ->
  files (process_and_save now content w) !! f = files w !! f.
Proof.
  intros Hf. rewrite process_and_save_files. apply save_chapters_other, Hf.
Qed.

Lemma registry_3 :
  CHAPTERS !! 3%nat
  = Some {| title := "Research Methodology"; label := "ch:methodology";
            file := "chapter3.tex" |}.
Proof. unfold CHAPTERS. rewrite !lookup_insert_ne by lia. apply lookup_insert_eq. Qed.

(** X15.  A chapter of the registry that the buffer does not reach (it
    holds fewer chapters) is not rewritten: its file stays as it was, stale
    or absent, and so does its backup. *)
Theorem missing_chapter_left_as_it_was (now : nat -> str) (content : str) (w : world)
    (n : nat) (cfg : chapter_config) :
  CHAPTERS !! n = Some cfg ->
  (length (split_into_chapters (transform content)).1 < n)%nat ->
  files (process_and_save now content w) !! file cfg = files w !! file cfg
  /\ files (process_and_save now content w) !! backup_name cfg
     = files w !! backup_name cfg.
Proof.
  intros Hn Hlen. rewrite process_and_save_files.
  apply (save_chapters_frame now _ w n cfg Hn).
  rewrite split_keys. intros H. apply elem_of_seq in H. lia.
Qed.


(** What the loop prints for one chapter. *)
Definition chapter_report (n : nat) : message :=
  match CHAPTERS !! n with
  | Some cfg => OkSaved (file cfg)
  | None => WarnNotConfigured n
  end.

Lemma save_chapters_printed now chapters : forall w,
  printed (save_chapters now chapters w)
  = printed w ++ map (fun e => chapter_report e.1) chapters.
Proof.
  unfold save_chapters.
  induction chapters as [|[n c] chapters IH]; intros w; cbn [fold_left map].
  - rewrite app_nil_r. reflexivity.
  - rewrite IH. unfold save_chapter, chapter_report. cbn [fst].
    destruct (CHAPTERS !! n); cbn [print printed]; rewrite <- app_assoc; reflexivity.
Qed.

(** X17.  The console after a run is the console before it, then what the
    splitter printed, then one line for each chapter of the split in
    order: saved if the registry has it, skipped if not. *)
Theorem one_report_per_chapter (now : nat -> str) (content : str) (w : world) :
  printed (process_and_save now content w)
  = printed w ++ (split_into_chapters (transform content)).2
    ++ map (fun e => chapter_report e.1) (split_into_chapters (transform content)).1.
Proof.
  unfold process_and_save. cbv zeta.
  destruct (split_into_chapters (transform content)) as [chapters msgs].
  rewrite save_chapters_printed. cbn [printed fst snd]. rewrite <- app_assoc. reflexivity.
Qed.

(** ** The three transformations on ordinary prose *)

Lemma absent_no_ci_factor k l : forall s,
  is_ascii_letter k = false -> mem k s = false -> ci_contains (k :: l) s = false.
Proof.
  intros s Hk. induction s as [|d s IH]; intros H; [reflexivity|].
  cbn [mem] in H. apply orb_false_iff in H as [H1 H2].
  cbn [ci_contains ci_prefix]. rewrite (ci_eq_nonletter k d Hk), N.eqb_sym, H1, (IH H2).
  reflexivity.
Qed.

Lemma finditer_without_chapter s :
  contains CHAPTER_OPEN s = false -> re_finditer chapter_pattern s = [].
Proof.
  intros H. unfold re_finditer. rewrite <- (app_nil_r s) at 1.
  rewrite (finditer_loop_quiet chapter_pattern s [] []
             (chapter_quiet [] s [] H I)).
  cbn [finditer_loop]. rewrite chapter_match. reflexivity.
Qed.

(** X18.  Ordinary prose passes the three transformations unchanged and
    is split as one chapter, with the warning: a text that holds none of
    the normalizer's characters and formulas, no opening parenthesis,
    neither the first-section title nor the word "chapter". *)
Theorem prose_passes_unchanged (s : str) :
  special_free s = true ->
  contains (text "O2") s = false ->
  contains (text "CH4") s = false ->
  contains (text "H2O") s = false ->
  mem 40 s = false ->
  contains (text "Background and Significance") s = false ->
  ci_contains (text "Chapter") s = false ->
  transform s = s
  /\ split_into_chapters (transform s) = ([(1%nat, s)], [WarnNoChapter]).
Proof.
  intros Hs H1 H2 H3 Hp Hf Hc.
  assert (Hb : mem BACKSLASH s = false)
    by (apply (special_free_absent BACKSLASH s eq_refl Hs)).
  assert (E : transform s = s).
  { unfold transform. rewrite (prose_normal s Hs H1 H2 H3).
    rewrite (fold_acronyms_no_paren ACRONYMS s Hp : replace_acronyms s = s).
    apply headings_keep_prose; [exact Hf|exact Hc| |].
    - apply absent_no_ci_factor; [reflexivity|exact Hb].
    - apply absent_no_factor, Hb. }
  split; [exact E|]. rewrite E. unfold split_into_chapters. cbv zeta.
  rewrite finditer_without_chapter; [reflexivity|]. apply absent_no_factor, Hb.
Qed.

(** ** Percent and ampersand in a text without backslashes *)

(** What the two last passes make of a text without backslashes: a
    percent sign gets its backslash; so does an ampersand, unless a percent
    sign comes right after it. *)
Fixpoint escaped (s : str) : str :=
  match s with
  | [] => []
  | c :: s' =>
      if c =? 37 then BACKSLASH :: 37 :: escaped s'
      else if c =? 38 then
        match s' with
        | d :: _ => if d =? 37 then 38 :: escaped s' else BACKSLASH :: 38 :: escaped s'
        | [] => [BACKSLASH; 38]
        end
      else c :: escaped s'
  end.

Definition percent_escaped (s : str) : str :=
  replace_char 37 (text "\%") s.

Lemma bare_percent_pass : forall a b,
  mem BACKSLASH a = false -> not_backslash (head b) = true ->
  sub_loop false bare_percent (text "\\%") None 0 b a = percent_escaped a.
Proof.
  induction a as [|c a IH]; intros b Ha Hb.
  - apply sub_loop_end. rewrite exact_bare_percent. unfold site.
    cbn [chars_window w_body map wmatch]. rewrite andb_false_r. reflexivity.
  - cbn [mem] in Ha. apply orb_false_iff in Ha as [Hc Ha].
    unfold percent_escaped. cbn [replace_char flat_map]. fold (replace_char 37 (text "\%") a).
    fold (percent_escaped a).
    destruct (c =? 37) eqn:E.
    + apply N.eqb_eq in E. subst c. change (37 :: a) with ([37] ++ a).
      rewrite (sub_loop_hit false bare_percent _ None b [37] a (37 :: b) []);
        [|reflexivity|discriminate|].
      * cbn [dec_limit rev app]. rewrite IH; [reflexivity|exact Ha|reflexivity].
      * rewrite exact_bare_percent. unfold site.
        cbn [chars_window w_prev w_body w_next map wmatch app]. rewrite Hb. reflexivity.
    + cbn [sub_loop exhausted]. rewrite exact_bare_percent. unfold site.
      cbn [chars_window w_prev w_body w_next map wmatch].
      rewrite (N.eqb_sym 37 c), E, andb_false_r. cbn [app]. f_equal.
      apply IH; [exact Ha|]. cbn [head not_backslash]. rewrite N.eqb_sym, Hc. reflexivity.
Qed.

Lemma bare_ampersand_pass : forall a b,
  mem BACKSLASH a = false -> not_backslash (head b) = true ->
  sub_loop false bare_ampersand (text "\\&") None 0 b (percent_escaped a) = escaped a.
Proof.
  induction a as [|c a IH]; intros b Ha Hb.
  - apply sub_loop_end. rewrite exact_bare_ampersand. unfold site.
    cbn [chars_window w_body map wmatch]. rewrite andb_false_r. reflexivity.
  - cbn [mem] in Ha. apply orb_false_iff in Ha as [Hc Ha].
    unfold percent_escaped. cbn [replace_char flat_map]. fold (replace_char 37 (text "\%") a).
    fold (percent_escaped a). cbn [escaped].
    destruct (c =? 37) eqn:E.
    + apply N.eqb_eq in E. subst c. cbn [app text].
      change (text "\%" ++ percent_escaped a) with (92 :: 37 :: percent_escaped a).
      cbn [sub_loop exhausted]. rewrite exact_bare_ampersand. unfold site.
      cbn [chars_window w_prev w_body w_next map wmatch N.eqb Pos.eqb].
      rewrite andb_false_r. f_equal.
      cbn [sub_loop exhausted]. rewrite exact_bare_ampersand. unfold site.
      cbn [chars_window w_prev w_body w_next map wmatch N.eqb Pos.eqb].
      rewrite andb_false_r. f_equal.
      apply IH; [exact Ha|reflexivity].
    + cbn [app]. destruct (c =? 38) eqn:E8.
      * apply N.eqb_eq in E8. subst c.
        assert (Hn : not_backslash (Some 38) = true) by reflexivity.
        destruct a as [|d a].
        -- change (38 :: percent_escaped []) with ([38] ++ []).
           rewrite (sub_loop_hit false bare_ampersand _ None b [38] [] (38 :: b) []);
             [|reflexivity|discriminate|].
           ++ cbn [dec_limit rev app]. rewrite sub_loop_end; [reflexivity|].
              rewrite exact_bare_ampersand. unfold site.
              cbn [chars_window w_body map wmatch]. rewrite andb_false_r. reflexivity.
           ++ rewrite exact_bare_ampersand. unfold site.
              cbn [chars_window w_prev w_body w_next map wmatch app]. rewrite Hb. reflexivity.
        -- destruct (d =? 37) eqn:Ed.
           ++ apply N.eqb_eq in Ed. subst d.
              cbn [sub_loop exhausted]. rewrite exact_bare_ampersand. unfold site.
              cbn [chars_window w_prev w_body w_next map wmatch].
              unfold percent_escaped at 1. cbn [replace_char flat_map N.eqb Pos.eqb app text].
              cbn. rewrite andb_false_r. f_equal.
              apply (IH (38 :: b) Ha eq_refl).
           ++ change (38 :: percent_escaped (d :: a)) with ([38] ++ percent_escaped (d :: a)).
              rewrite (sub_loop_hit false bare_ampersand _ None b [38]
                         (percent_escaped (d :: a)) (38 :: b) []);
                [|reflexivity|discriminate|].
              ** cbn [dec_limit rev app]. rewrite (IH (38 :: b) Ha eq_refl). reflexivity.
              ** rewrite exact_bare_ampersand. unfold site.
                 cbn [chars_window w_prev w_body w_next map wmatch app]. rewrite Hb.
                 unfold percent_escaped. cbn [replace_char flat_map]. rewrite Ed.
                 cbn [app head not_backslash]. cbn [mem] in Ha.
                 apply orb_false_iff in Ha as [Hd _]. rewrite (N.eqb_sym d BACKSLASH), Hd. reflexivity.
      * cbn [sub_loop exhausted]. rewrite exact_bare_ampersand. unfold site.
        cbn [chars_window w_prev w_body w_next map wmatch].
        rewrite (N.eqb_sym 38 c), E8, andb_false_r. f_equal.
        apply IH; [exact Ha|]. cbn [head not_backslash]. rewrite N.eqb_sym, Hc. reflexivity.
Qed.

(** The characters the first eleven passes look for. *)
Definition REWRITTEN : list N :=
  [BACKSLASH; 126; DEGREE; TIMES; DQUOTE; EM_DASH; EN_DASH].

Definition rewritten_free (s : str) : bool :=
  forallb (fun c => negb (mem c REWRITTEN)) s.

Lemma rewritten_free_absent c : forall s,
  mem c REWRITTEN = true -> rewritten_free s = true -> mem c s = false.
Proof.
  intros s Hc. induction s as [|d s IH]; intros H; [reflexivity|].
  cbn [rewritten_free forallb] in H. apply andb_true_iff in H as [H1 H2].
  cbn [mem]. rewrite (IH H2), orb_false_r.
  destruct (c =? d) eqn:E; [|reflexivity]. apply N.eqb_eq in E. subst d.
  rewrite Hc in H1. discriminate.
Qed.

(** X19.  In a text without backslashes, and without anything else the
    earlier passes rewrite, the normalizer puts a backslash before every
    percent sign and before every ampersand but those that stand right
    before a percent sign; it changes nothing else. *)
Theorem percent_and_ampersand_escaped (s : str) :
  rewritten_free s = true ->
  contains (text "O2") s = false ->
  contains (text "CH4") s = false ->
  contains (text "H2O") s = false ->
  fix_special_characters s = escaped s.
Proof.
  intros Hs H1 H2 H3.
  assert (Ha : forall c, mem c REWRITTEN = true -> mem c s = false)
    by (intros c Hc; apply (rewritten_free_absent c s Hc Hs)).
  unfold fix_special_characters. cbv zeta.
  rewrite (pass_identity _ _ _ s fits_tilde_command)
    by (apply no_factor_nosites, absent_no_factor, Ha; reflexivity).
  rewrite (pass_identity _ _ _ s (exact_fits _ _ _ _ exact_tilde_digit))
    by (apply no_factor_nosites, absent_no_factor, Ha; reflexivity).
  rewrite (pass_identity _ _ _ s (exact_fits _ _ _ _ (exact_char DEGREE)))
    by (apply no_factor_nosites, absent_no_factor, Ha; reflexivity).
  rewrite (pass_identity _ _ _ s (exact_fits _ _ _ _ exact_CO2))
    by (apply no_factor_nosites, no_O2_no_CO2, H1).
  rewrite (pass_identity _ _ _ s (exact_fits _ _ _ _ exact_CH4))
    by (apply no_factor_nosites, H2).
  rewrite (pass_identity _ _ _ s (exact_fits _ _ _ _ exact_H2O))
    by (apply no_factor_nosites, H3).
  rewrite (pass_identity _ _ _ s (exact_fits _ _ _ _ exact_O2))
    by (apply no_factor_nosites, H1).
  rewrite (pass_identity _ _ _ s (exact_fits _ _ _ _ (exact_char TIMES)))
    by (apply no_factor_nosites, absent_no_factor, Ha; reflexivity).
  rewrite (quote_pass_identity _ s) by (apply absent_unpaired, Ha; reflexivity).
  rewrite (pass_identity _ _ _ s (exact_fits _ _ _ _ (exact_char EM_DASH)))
    by (apply no_factor_nosites, absent_no_factor, Ha; reflexivity).
  rewrite (pass_identity _ _ _ s (exact_fits _ _ _ _ (exact_char EN_DASH)))
    by (apply no_factor_nosites, absent_no_factor, Ha; reflexivity).
  unfold re_sub.
  rewrite (bare_percent_pass s [] (Ha BACKSLASH eq_refl) eq_refl).
  apply (bare_ampersand_pass s [] (Ha BACKSLASH eq_refl) eq_refl).
Qed.

(** ** The hypertarget line *)

Lemma rx_until_lit ic x w r t rest b g k :
  is_ascii_letter x = false ->
  mem x t = false ->
  rx ic (Seq (Star (Class true [CChar x])) (Seq (Lit (x :: w)) r)) b (t ++ x :: rest) g k
  = rx ic (Seq (Lit w) r) (x :: rev t ++ b) rest g k.
Proof. exact (rx_until ic x (Seq (Lit w) r) t rest b g k). Qed.

Lemma rx_spaces_then ic x r ws rest b g k :
  is_ascii_letter x = false ->
  is_space x = false ->
  forallb is_space ws = true ->
  rx ic (Seq (Star SPACES) (Seq (Chr (One x)) r)) b (ws ++ x :: rest) g k
  = rx ic r (x :: rev ws ++ b) rest g k.
Proof.
  intros Hx Hs Hw. cbn [rx]. rewrite star_greedy_stop.
  - rewrite (span_ext _ is_space _ (in_SPACES ic)).
    rewrite (span_prefix _ ws x rest Hw Hs).
    cbn [fst snd]. rewrite in_One_nonletter, N.eqb_refl by exact Hx. reflexivity.
  - intros b' c a' Hc. rewrite in_SPACES in Hc.
    rewrite in_One_nonletter by exact Hx.
    destruct (c =? x) eqn:E; [|reflexivity]. apply N.eqb_eq in E. subst c. congruence.
Qed.

Lemma rx_char ic x r rest b g k :
  is_ascii_letter x = false ->
  rx ic (Seq (Chr (One x)) r) b (x :: rest) g k = rx ic r (x :: b) rest g k.
Proof. intros Hx. cbn [rx]. rewrite in_One_nonletter, N.eqb_refl by exact Hx. reflexivity. Qed.

Lemma rx_opt_taken ic x r rest b g k :
  is_ascii_letter x = false ->
  rx ic (Seq (Opt (Chr (One x))) r) b (x :: rest) g k
  = match rx ic r (x :: b) rest g k with
    | Some res => Some res
    | None => rx ic r b (x :: rest) g k
    end.
Proof. intros Hx. cbn [rx Opt]. rewrite in_One_nonletter, N.eqb_refl by exact Hx. reflexivity. Qed.

Lemma rx_opt_skipped ic x r a b g k :
  is_ascii_letter x = false ->
  match a with c :: _ => (c =? x) = false | [] => True end ->
  rx ic (Seq (Opt (Chr (One x))) r) b a g k = rx ic r b a g k.
Proof.
  intros Hx Ha. cbn [rx Opt]. destruct a as [|c a]; [reflexivity|].
  rewrite in_One_nonletter, Ha by exact Hx. reflexivity.
Qed.

Lemma rx_Group ic n r b a g k :
  rx ic (Group n r) b a g k
  = rx ic r b a g (fun b' a' g' => k b' a' ((n, firstn (length a - length a') a) :: g')).
Proof. reflexivity. Qed.

Lemma rx_Alt ic r1 r2 b a g k :
  rx ic (Alt r1 r2) b a g k
  = match rx ic r1 b a g k with
    | Some res => Some res
    | None => rx ic r2 b a g k
    end.
Proof. reflexivity. Qed.

Definition HEADING_COMMANDS : list string :=
  ["chapter"; "section"; "subsection"; "subsubsection"]%string.

Definition COMMAND : regex :=
  Alt (Lit (text "chapter")) (Alt (Lit (text "section"))
    (Alt (Lit (text "subsection")) (Lit (text "subsubsection")))).

Ltac settle_prefix :=
  match goal with
  | |- context [is_prefix ?w (?w ++ ?a)] =>
      rewrite (is_prefix_app_same w a), (skipn_app_same w a)
  | |- context [is_prefix ?w ?a] =>
      let v := eval vm_compute in (is_prefix w a) in
      change (is_prefix w a) with v; cbv iota
  end.

(** The command of a heading, read by the group of the four
    alternatives. *)
Lemma rx_command (cmd : string) r rest b g k :
  In cmd HEADING_COMMANDS ->
  rx false (Seq (Group 1 COMMAND) r) b (text cmd ++ rest) g k
  = match rx false r (rev (text cmd) ++ b) rest ((1%nat, text cmd) :: g) k with
    | Some res => Some res
    | None => None
    end.
Proof.
  intros H. unfold COMMAND. rewrite rx_Seq, rx_Group.
  destruct H as [<-|[<-|[<-|[<-|[]]]]].
  - rewrite rx_Alt, rx_Lit. settle_prefix. rewrite firstn_consumed.
    rewrite rx_Alt, rx_Lit. settle_prefix.
    rewrite rx_Alt, rx_Lit. settle_prefix.
    rewrite rx_Lit. settle_prefix. reflexivity.
  - rewrite rx_Alt, rx_Lit. settle_prefix.
    rewrite rx_Alt, rx_Lit. settle_prefix. rewrite firstn_consumed.
    rewrite rx_Alt, rx_Lit. settle_prefix.
    rewrite rx_Lit. settle_prefix. reflexivity.
  - rewrite rx_Alt, rx_Lit. settle_prefix.
    rewrite rx_Alt, rx_Lit. settle_prefix.
    rewrite rx_Alt, rx_Lit. settle_prefix. rewrite firstn_consumed.
    rewrite rx_Lit. settle_prefix. reflexivity.
  - rewrite rx_Alt, rx_Lit. settle_prefix.
    rewrite rx_Alt, rx_Lit. settle_prefix.
    rewrite rx_Alt, rx_Lit. settle_prefix.
    rewrite rx_Lit. settle_prefix. rewrite firstn_consumed.
    destruct (rx false r _ _ _ _); reflexivity.
Qed.

Lemma space_not_percent c : is_space c = true -> (c =? 37) = false.
Proof.
  intros H. destruct (c =? 37) eqn:E; [|reflexivity].
  apply N.eqb_eq in E. subst c. discriminate.
Qed.

Lemma hypertarget_match (percent : bool) (cmd : string) ID ws T tail rest :
  In cmd HEADING_COMMANDS ->
  mem 125 ID = false ->
  forallb is_space ws = true ->
  mem 125 T = false ->
  mem 125 tail = false ->
  exists b1,
  re_match hypertarget_heading
    (HYPERTARGET_OPEN ++ ID ++ text "}{" ++ (if percent then [37] else []) ++ ws
     ++ [BACKSLASH] ++ text cmd ++ [123] ++ T ++ [125] ++ tail ++ [125] ++ rest)
  = Some (b1, rest, [(2%nat, T); (1%nat, text cmd)]).
Proof.
  intros Hcmd HID Hws HT Htail.
  unfold re_match, match_at, hypertarget_heading. cbn [Concat].
  fold COMMAND.
  rewrite rx_Seq, rx_Lit. fold HYPERTARGET_OPEN.
  rewrite is_prefix_app_same, skipn_app_same.
  change (text "}{") with [125; 123]. cbn [app].
  unfold NOT_BRACE at 1.
  rewrite (rx_until_lit false 125 [123]) by (first [reflexivity|exact HID]).
  change (Lit [123]) with (Seq (Chr (One 123)) Eps).
  change (rx false (Seq (Seq (Chr (One 123)) Eps) ?r) ?b ?a ?g ?k)
    with (rx false (Seq (Chr (One 123)) r) b a g k).
  rewrite rx_char by reflexivity.
  assert (Hrest : forall b g,
    rx false
      (Seq (Star SPACES)
         (Seq (Chr (One BACKSLASH))
            (Seq (Group 1 COMMAND)
               (Seq (Chr (One 123))
                  (Seq (Group 2 (Star NOT_BRACE))
                     (Seq (Chr (One 125))
                        (Seq (Star NOT_BRACE) (Seq (Chr (One 125)) Eps))))))))
      b (ws ++ BACKSLASH :: text cmd ++ 123 :: T ++ 125 :: tail ++ 125 :: rest) g accept
    = Some (125 :: rev tail ++ 125 :: rev T ++ 123 :: rev (text cmd)
              ++ BACKSLASH :: rev ws ++ b,
            rest, (2%nat, T) :: (1%nat, text cmd) :: g)).
  { intros b g.
    rewrite rx_spaces_then by (first [reflexivity|exact Hws]).
    rewrite (rx_command cmd _ _ _ _ _ Hcmd).
    rewrite rx_char by reflexivity.
    unfold NOT_BRACE.
    rewrite rx_until_group by (first [reflexivity|exact HT]).
    rewrite rx_until by (first [reflexivity|exact Htail]).
    reflexivity. }
  destruct percent.
  - cbn [app]. rewrite rx_opt_taken by reflexivity. rewrite Hrest. eauto.
  - cbn [app]. rewrite rx_opt_skipped.
    + rewrite Hrest. eauto.
    + reflexivity.
    + destruct ws as [|c ws]; [reflexivity|]. cbn [app forallb] in *.
      apply andb_true_iff in Hws as [Hc _]. apply space_not_percent, Hc.
Qed.

(** X20.  A line that, stripped, opens with a hypertarget wrapper around
    one of the four heading commands, on the same line, becomes the bare
    command and its anchor: the chapter anchor for a chapter, the section
    anchor for the three others. *)
Theorem hypertarget_line_unwrapped (line ID ws T tail rest : str) (percent : bool)
    (cmd : string) :
  In cmd ["chapter"; "section"; "subsection"; "subsubsection"]%string ->
  strip line
  = text "\hypertarget{" ++ ID ++ text "}{" ++ (if percent then text "%" else []) ++ ws
    ++ text "\" ++ text cmd ++ text "{" ++ T ++ text "}" ++ tail ++ text "}" ++ rest ->
  mem 125 ID = false ->
  forallb is_space ws = true ->
  mem 125 T = false ->
  mem 125 tail = false ->
  fix_line line
  = [ text "\" ++ text cmd ++ text "{" ++ T ++ text "}";
      text (if String.eqb cmd "chapter" then "\label{ch:" else "\label{sec:")
      ++ line_label T ++ text "}" ].
Proof.
  intros Hcmd E HID Hws HT Htail. unfold fix_line. cbv zeta. rewrite E.
  destruct (hypertarget_match percent cmd ID ws T tail rest Hcmd HID Hws HT Htail)
    as [b1 Hm].
  change (text "\hypertarget{") with HYPERTARGET_OPEN.
  change (text "%") with [37]. change (text "\") with [BACKSLASH].
  change (text "{") with [123]. change (text "}") with [125].
  rewrite Hm. cbn [group Nat.eqb].
  destruct Hcmd as [<-|[<-|[<-|[<-|[]]]]]; reflexivity.
Qed.

Lemma hypertarget_open_only ID :
  mem 125 ID = false ->
  re_match hypertarget_heading (HYPERTARGET_OPEN ++ ID ++ text "}{%") = None.
Proof.
  intros HID. unfold re_match, match_at, hypertarget_heading. cbn [Concat].
  rewrite rx_Seq, rx_Lit. fold HYPERTARGET_OPEN.
  rewrite is_prefix_app_same, skipn_app_same.
  change (text "}{%") with (125 :: [123; 37]).
  unfold NOT_BRACE at 1.
  rewrite (rx_until_lit false 125 [123]) by (first [reflexivity|exact HID]).
  reflexivity.
Qed.

(** X21.  A wrapper that is broken after its opening, the heading command
    standing on the next line, is not unwrapped: both lines are kept as
    they are. *)
Theorem wrapper_over_two_lines_kept (line1 line2 ID rest : str) (cmd : string) :
  strip line1 = text "\hypertarget{" ++ ID ++ text "}{%" ->
  mem 125 ID = false ->
  In cmd ["chapter"; "section"; "subsection"; "subsubsection"]%string ->
  strip line2 = text "\" ++ text cmd ++ rest ->
  fix_line line1 = [line1] /\ fix_line line2 = [line2].
Proof.
  intros E1 HID Hcmd E2. split.
  - unfold fix_line. cbv zeta. rewrite E1.
    change (text "\hypertarget{") with HYPERTARGET_OPEN.
    rewrite (hypertarget_open_only ID HID).
    rewrite bold_only_needs by reflexivity. reflexivity.
  - apply fix_line_other; rewrite E2;
      destruct Hcmd as [<-|[<-|[<-|[<-|[]]]]]; reflexivity.
Qed.

(** ** The chapter rules *)

Lemma rx_class_step ic cs r c a b g k :
  in_cset ic cs c = true ->
  rx ic (Seq (Chr cs) r) b (c :: a) g k = rx ic r (c :: b) a g k.
Proof. intros H. cbn [rx]. rewrite H. reflexivity. Qed.

Lemma rx_Plus ic cs r b a g k :
  rx ic (Seq (Plus cs) r) b a g k = rx ic (Seq (Chr cs) (Seq (Star cs) r)) b a g k.
Proof. reflexivity. Qed.

(** White space up to a character that is none, before a pattern that
    refuses white space. *)
Lemma rx_star_spaces ic r ws rest b g k :
  forallb is_space ws = true ->
  match rest with c :: _ => is_space c = false | [] => True end ->
  (forall b' c a', is_space c = true -> rx ic r b' (c :: a') g k = None) ->
  rx ic (Seq (Star SPACES) r) b (ws ++ rest) g k = rx ic r (rev ws ++ b) rest g k.
Proof.
  intros Hw Hrest Hk. cbn [rx]. rewrite star_greedy_stop.
  - rewrite (span_ext _ is_space _ (in_SPACES ic)).
    destruct rest as [|c rest].
    + rewrite app_nil_r, (span_end _ _ Hw). reflexivity.
    + rewrite (span_prefix _ ws c rest Hw Hrest). reflexivity.
  - intros b' c a' Hc. rewrite in_SPACES in Hc. apply Hk, Hc.
Qed.

(** A literal under IGNORECASE takes its own ASCII text. *)
Lemma rx_lit_same w r rest b g k :
  forallb (fun c => c <? 128) w = true ->
  rx true (Seq (Lit w) r) b (w ++ rest) g k = rx true r (rev w ++ b) rest g k.
Proof.
  intros Hw. rewrite rx_Seq, rx_Lit_ci.
  rewrite ci_prefix_refl by (intros c Hc; eapply forallb_forall in Hw; eauto).
  rewrite take_app_length, drop_app_length. reflexivity.
Qed.

(** It refuses a text that starts with another character. *)
Lemma rx_lit_refuses p w r c a b g k :
  ci_eq p c = false -> rx true (Seq (Lit (p :: w)) r) b (c :: a) g k = None.
Proof. intros H. rewrite rx_Seq, rx_Lit_ci. cbn [ci_prefix]. rewrite H. reflexivity. Qed.

(** No white space is an ASCII letter in either case. *)
Lemma space_range c :
  is_space c = true -> c <= 32 \/ (128 <= c /\ ~ In c [304; 305; 8490; 383]).
Proof.
  unfold is_space, between. intros H.
  repeat (apply orb_true_iff in H; destruct H as [H|H]);
    first [ discriminate H
          | apply N.eqb_eq in H; subst c; right; split;
            [lia|intros [E|[E|[E|[E|[]]]]]; discriminate E]
          | apply andb_true_iff in H as [H1 H2]; apply N.leb_le in H1, H2;
            first [ left; lia
                  | right; split; [lia|intros [E|[E|[E|[E|[]]]]]; subst c; lia] ] ].
Qed.

Lemma letter_range p : is_ascii_letter p = true -> 65 <= p <= 122.
Proof.
  unfold is_ascii_letter, is_ascii_upper, is_ascii_lower, between. intros H.
  apply orb_true_iff in H as [H|H]; apply andb_true_iff in H as [H1 H2];
    apply N.leb_le in H1, H2; lia.
Qed.

Lemma fold_letter p : is_ascii_letter p = true -> 97 <= ascii_fold p.
Proof.
  intros H. pose proof (letter_range p H) as Hr.
  unfold is_ascii_letter, is_ascii_upper, is_ascii_lower, between in H.
  unfold ascii_fold, is_ascii_upper, between.
  destruct ((65 <=? p) && (p <=? 90)) eqn:E; [lia|].
  cbn [orb] in H. apply andb_true_iff in H as [H _]. apply N.leb_le in H. exact H.
Qed.

Lemma fold_back c : 97 <= ascii_fold c -> 65 <= c.
Proof.
  unfold ascii_fold, is_ascii_upper, between.
  destruct ((65 <=? c) && (c <=? 90)) eqn:E; intros H; [|lia].
  apply andb_true_iff in E as [E _]. apply N.leb_le in E. exact E.
Qed.

Lemma ci_eq_cases p c :
  ci_eq p c = true ->
  c = p \/ ((c <? 128) = true /\ ascii_fold c = ascii_fold p)
  \/ In c [304; 305; 8490; 383].
Proof.
  unfold ci_eq. intros E.
  apply orb_true_iff in E as [E|E]; [left; apply N.eqb_eq, E|].
  apply andb_true_iff in E as [_ E]. right.
  apply orb_true_iff in E as [E|E];
    [apply orb_true_iff in E as [E|E]; [apply orb_true_iff in E as [E|E]|]|].
  - apply andb_true_iff in E as [E1 E2]. apply N.eqb_eq in E1. left. split; assumption.
  - apply andb_true_iff in E as [_ E]. apply mem_spec in E. right.
    destruct E as [<-|[<-|[]]]; cbn; tauto.
  - apply andb_true_iff in E as [_ E]. apply N.eqb_eq in E. subst c. right. cbn; tauto.
  - apply andb_true_iff in E as [_ E]. apply N.eqb_eq in E. subst c. right. cbn; tauto.
Qed.

Lemma space_not_letter p c :
  is_ascii_letter p = true -> is_space c = true -> ci_eq p c = false.
Proof.
  intros Hp Hc. destruct (ci_eq p c) eqn:E; [|reflexivity]. exfalso.
  pose proof (letter_range p Hp) as Hr. pose proof (fold_letter p Hp) as Hf.
  destruct (ci_eq_cases p c E) as [Ec|[[H1 H2]|H]];
    destruct (space_range c Hc) as [Hs|[Hs Hn]].
  - lia.
  - lia.
  - rewrite <- H2 in Hf. pose proof (fold_back c Hf). lia.
  - apply N.ltb_lt in H1. lia.
  - destruct H as [<-|[<-|[<-|[<-|[]]]]]; lia.
  - exact (Hn H).
Qed.

(** *** A greedy star that gives characters back *)

(** The continuation fails after the run [v] and everywhere inside it. *)
Lemma star_greedy_all_fail p k rest :
  match rest with c :: _ => p c = false | [] => True end ->
  forall v b,
  forallb p v = true ->
  (forall v1 v2, v = v1 ++ v2 -> k (rev v1 ++ b) (v2 ++ rest) = None) ->
  star_greedy p b (v ++ rest) k = None.
Proof.
  intros Hrest. induction v as [|c v IH]; intros b Hv Hk.
  - cbn [app]. specialize (Hk [] [] eq_refl). cbn [rev app] in Hk.
    destruct rest as [|c rest]; [exact Hk|]. cbn [star_greedy]. rewrite Hrest. exact Hk.
  - cbn [forallb] in Hv. apply andb_true_iff in Hv as [Hc Hv].
    cbn [app star_greedy]. rewrite Hc. rewrite IH.
    + exact (Hk [] (c :: v) eq_refl).
    + exact Hv.
    + intros v1 v2 E. specialize (Hk (c :: v1) v2). cbn [rev app] in Hk.
      rewrite <- app_assoc in Hk. apply Hk. rewrite E. reflexivity.
Qed.

(** The star stops before [c], the last place where the continuation
    succeeds. *)
Lemma star_greedy_back p k c v rest res :
  p c = true ->
  forallb p v = true ->
  match rest with d :: _ => p d = false | [] => True end ->
  forall u b,
  forallb p u = true ->
  (forall v1 v2, v = v1 ++ v2 -> k (rev v1 ++ c :: rev u ++ b) (v2 ++ rest) = None) ->
  k (rev u ++ b) (c :: v ++ rest) = Some res ->
  star_greedy p b (u ++ c :: v ++ rest) k = Some res.
Proof.
  intros Hc Hv Hrest. induction u as [|d u IH]; intros b Hu Hfail Hk.
  - cbn [app rev] in *. cbn [star_greedy]. rewrite Hc.
    rewrite (star_greedy_all_fail p k rest Hrest v (c :: b) Hv Hfail). exact Hk.
  - cbn [forallb] in Hu. apply andb_true_iff in Hu as [Hd Hu].
    cbn [app star_greedy]. rewrite Hd.
    rewrite (IH (d :: b) Hu).
    + reflexivity.
    + intros v1 v2 E. specialize (Hfail v1 v2 E). cbn [rev] in Hfail.
      rewrite <- app_assoc in Hfail. exact Hfail.
    + cbn [rev] in Hk. rewrite <- app_assoc in Hk. exact Hk.
Qed.

Lemma star_greedy_head p k b a :
  match a with c :: _ => p c = false | [] => True end ->
  star_greedy p b a k = k b a.
Proof. destruct a as [|c a]; [reflexivity|]. intros H. cbn [star_greedy]. rewrite H. reflexivity. Qed.

(** One newline, no other behind it. *)
Lemma rx_newline_one r a b g k :
  match a with c :: _ => (c =? LF) = false | [] => True end ->
  rx true (Seq (Plus NEWLINE) r) b (LF :: a) g k = rx true r (LF :: b) a g k.
Proof.
  intros Ha. rewrite rx_Plus. unfold NEWLINE.
  rewrite rx_class_step by reflexivity.
  cbn [rx]. apply star_greedy_head.
  destruct a as [|c a]; [exact I|]. rewrite in_One_nonletter by reflexivity. exact Ha.
Qed.

Lemma rx_newline_refuses r a b g k :
  match a with c :: _ => (c =? LF) = false | [] => True end ->
  rx true (Seq (Plus NEWLINE) r) b a g k = None.
Proof.
  intros Ha. rewrite rx_Plus. unfold NEWLINE. cbn [rx].
  destruct a as [|c a]; [reflexivity|].
  rewrite in_One_nonletter, Ha by reflexivity. reflexivity.
Qed.

Lemma head_not_newline (v x : str) :
  mem LF v = false ->
  match x with c :: _ => (c =? LF) = false | [] => True end ->
  match v ++ x with c :: _ => (c =? LF) = false | [] => True end.
Proof.
  destruct v as [|c v]; [intros _ H; exact H|]. cbn [mem app]. intros H _.
  apply orb_false_iff in H as [H _]. rewrite N.eqb_sym. exact H.
Qed.

Lemma forallb_same (p q : N -> bool) l :
  (forall c, p c = q c) -> forallb p l = forallb q l.
Proof.
  intros H. induction l as [|c l IH]; [reflexivity|]. cbn [forallb].
  rewrite H, IH. reflexivity.
Qed.

(** White space that holds a newline, between two patterns: the star of
    the white space gives back what follows the last newline. *)
Lemma rx_spaces_newline r u v x b g k res :
  forallb is_space u = true ->
  forallb is_space v = true ->
  mem LF v = false ->
  match x with c :: _ => is_space c = false | [] => True end ->
  rx true r (LF :: rev u ++ b) (v ++ x) g k = Some res ->
  rx true (Seq (Star SPACES) (Seq (Plus NEWLINE) r)) b (u ++ LF :: v ++ x) g k = Some res.
Proof.
  intros Hu Hv Hn Hx Hr.
  assert (Hx' : match x with c :: _ => (c =? LF) = false | [] => True end).
  { destruct x as [|c x]; [exact I|]. destruct (c =? LF) eqn:E; [|reflexivity].
    apply N.eqb_eq in E. subst c. discriminate. }
  cbn [rx].
  apply (star_greedy_back (in_cset true SPACES)
           (fun b' a' => rx true (Seq (Plus NEWLINE) r) b' a' g k) LF v x res).
  - reflexivity.
  - rewrite (forallb_same _ is_space) by (intros c; apply in_SPACES). exact Hv.
  - destruct x as [|c x]; [exact I|]. rewrite in_SPACES. exact Hx.
  - rewrite (forallb_same _ is_space) by (intros c; apply in_SPACES). exact Hu.
  - intros v1 v2 E. apply rx_newline_refuses. apply head_not_newline; [|exact Hx'].
    subst v. rewrite mem_app in Hn. apply orb_false_iff in Hn as [_ Hn]. exact Hn.
  - rewrite rx_newline_one by (apply head_not_newline; assumption). exact Hr.
Qed.

(** *** Chapter 2 *)

Definition CHAPTER2_HEADING : str :=
  text "\chapter{Literature Review}" ++ [LF] ++ text "\label{ch:literature-review}".

Lemma chapter2_match b s1 W1 u v s3 W3 rest :
  is_space s1 = true -> forallb is_space W1 = true ->
  forallb is_space u = true -> forallb is_space v = true -> mem LF v = false ->
  is_space s3 = true -> forallb is_space W3 = true ->
  exists b1,
  match_at true chapter2_plain b
    (text "Chapter" ++ s1 :: W1 ++ 50 :: u ++ LF :: v ++ text "Literature"
     ++ s3 :: W3 ++ text "review" ++ rest)
  = Some (b1, rest, []).
Proof.
  intros Hs1 HW1 Hu Hv Hn Hs3 HW3.
  unfold match_at, chapter2_plain. cbn [Concat].
  rewrite rx_lit_same by reflexivity.
  rewrite rx_Plus, rx_class_step by (rewrite in_SPACES; exact Hs1).
  rewrite rx_spaces_then by (first [reflexivity|exact HW1]).
  eexists. apply rx_spaces_newline; [exact Hu|exact Hv|exact Hn|reflexivity|].
  rewrite rx_star_spaces; [|exact Hv|reflexivity|].
  2:{ intros b' c a' Hc. apply (rx_lit_refuses 76 (text "iterature")).
      apply space_not_letter; [reflexivity|exact Hc]. }
  rewrite rx_lit_same by reflexivity.
  rewrite rx_Plus, rx_class_step by (rewrite in_SPACES; exact Hs3).
  rewrite rx_star_spaces; [|exact HW3|reflexivity|].
  2:{ intros b' c a' Hc. apply (rx_lit_refuses 114 (text "eview")).
      apply space_not_letter; [reflexivity|exact Hc]. }
  rewrite rx_lit_same by reflexivity.
  reflexivity.
Qed.

(** X22.  "Chapter", white space, "2", white space that holds a newline,
    "Literature", white space, "review" is replaced by the chapter command
    of the literature review and its label; the text around it, which does
    not hold the word "chapter", is kept. *)
Theorem chapter2_heading_rule (pre W1 u v W3 post : str) :
  ci_contains (text "Chapter") pre = false ->
  W1 <> [] -> forallb is_space W1 = true ->
  forallb is_space u = true ->
  forallb is_space v = true -> mem LF v = false ->
  W3 <> [] -> forallb is_space W3 = true ->
  ci_contains (text "Chapter") post = false ->
  re_sub true chapter2_plain
    (text "\\chapter{Literature Review}\n\\label{ch:literature-review}")
    (pre ++ text "Chapter" ++ W1 ++ text "2" ++ u ++ [LF] ++ v ++ text "Literature"
     ++ W3 ++ text "review" ++ post)
  = pre ++ text "\chapter{Literature Review}" ++ [LF]
    ++ text "\label{ch:literature-review}" ++ post.
Proof.
  intros Hpre HW1n HW1 Hu Hv Hn HW3n HW3 Hpost.
  destruct W1 as [|s1 W1]; [congruence|]. destruct W3 as [|s3 W3]; [congruence|].
  cbn [forallb] in HW1, HW3.
  apply andb_true_iff in HW1 as [Hs1 HW1]. apply andb_true_iff in HW3 as [Hs3 HW3].
  unfold re_sub.
  rewrite sub_loop_quiet
    by (apply (quiet_without_ci _ _ (text "Chapter"));
        [apply chapter2_plain_needs|exact Hpre|reflexivity]).
  f_equal.
  destruct (chapter2_match (rev pre ++ []) s1 W1 u v s3 W3 post Hs1 HW1 Hu Hv Hn Hs3 HW3)
    as [b1 Hm].
  change (text "2") with [50].
  set (M := text "Chapter" ++ s1 :: W1 ++ 50 :: u ++ LF :: v ++ text "Literature"
            ++ s3 :: W3 ++ text "review").
  assert (EM : text "Chapter" ++ (s1 :: W1) ++ [50] ++ u ++ [LF] ++ v ++ text "Literature"
               ++ (s3 :: W3) ++ text "review" ++ post = M ++ post).
  { unfold M. repeat (rewrite <- app_assoc || rewrite <- app_comm_cons). reflexivity. }
  rewrite EM.
  assert (Hm' : match_at true chapter2_plain (rev pre ++ []) (M ++ post) = Some (b1, post, [])).
  { rewrite <- EM. repeat (rewrite <- app_assoc || rewrite <- app_comm_cons).
    cbn [app]. exact Hm. }
  rewrite (sub_loop_hit true _ _ None _ M post b1 [] eq_refl)
    by (first [exact Hm'|unfold M; destruct (text "Chapter"); discriminate]).
  change (expand (text "\\chapter{Literature Review}\n\\label{ch:literature-review}") [])
    with CHAPTER2_HEADING.
  unfold CHAPTER2_HEADING. rewrite <- !app_assoc. do 3 f_equal.
  cbn [dec_limit].
  apply sub_loop_quiet_end.
  - apply (quiet_without_ci _ _ (text "Chapter"));
      [apply chapter2_plain_needs|exact Hpost|exact I].
  - apply chapter2_plain_needs. reflexivity.
Qed.

(** *** Chapter 3, both parts bold *)

Lemma space_not_char p c :
  is_ascii_letter p = false -> is_space p = false -> is_space c = true ->
  ci_eq p c = false.
Proof.
  intros Hp Hs Hc. rewrite (ci_eq_nonletter p c Hp).
  destruct (c =? p) eqn:E; [|reflexivity]. apply N.eqb_eq in E. subst c. congruence.
Qed.

Lemma chapter3_bold_match b s1 W1 u v W2 s3 W3 rest :
  is_space s1 = true -> forallb is_space W1 = true ->
  forallb is_space u = true -> forallb is_space v = true -> mem LF v = false ->
  forallb is_space W2 = true ->
  is_space s3 = true -> forallb is_space W3 = true ->
  exists b1,
  match_at true chapter3_bold b
    (text "\textbf{Chapter" ++ s1 :: W1 ++ text "3}" ++ u ++ LF :: v ++ text "\textbf{3."
     ++ W2 ++ text "Research" ++ s3 :: W3 ++ text "Methodology}" ++ rest)
  = Some (b1, rest, []).
Proof.
  intros Hs1 HW1 Hu Hv Hn HW2 Hs3 HW3.
  unfold match_at, chapter3_bold. cbn [Concat].
  rewrite rx_lit_same by reflexivity.
  rewrite rx_Plus, rx_class_step by (rewrite in_SPACES; exact Hs1).
  rewrite rx_star_spaces; [|exact HW1|reflexivity|].
  2:{ intros b' c a' Hc. apply (rx_lit_refuses 51 (text "}")).
      apply space_not_char; [reflexivity|reflexivity|exact Hc]. }
  rewrite rx_lit_same by reflexivity.
  eexists. apply rx_spaces_newline; [exact Hu|exact Hv|exact Hn|reflexivity|].
  rewrite rx_star_spaces; [|exact Hv|reflexivity|].
  2:{ intros b' c a' Hc. apply (rx_lit_refuses BACKSLASH (text "textbf{3.")).
      apply space_not_char; [reflexivity|reflexivity|exact Hc]. }
  rewrite rx_lit_same by reflexivity.
  rewrite rx_star_spaces; [|exact HW2|reflexivity|].
  2:{ intros b' c a' Hc. apply (rx_lit_refuses 82 (text "esearch")).
      apply space_not_letter; [reflexivity|exact Hc]. }
  rewrite rx_lit_same by reflexivity.
  rewrite rx_Plus, rx_class_step by (rewrite in_SPACES; exact Hs3).
  rewrite rx_star_spaces; [|exact HW3|reflexivity|].
  2:{ intros b' c a' Hc. apply (rx_lit_refuses 77 (text "ethodology}")).
      apply space_not_letter; [reflexivity|exact Hc]. }
  rewrite rx_lit_same by reflexivity.
  reflexivity.
Qed.

(** X23.  A bold "Chapter 3", white space that holds a newline, and a
    bold "3. Research Methodology" are replaced together by the chapter
    command of the methodology and its label; the text around them, which
    holds no bold command, is kept. *)
Theorem chapter3_bold_heading_rule (pre W1 u v W2 W3 post : str) :
  ci_contains (text "\textbf{") pre = false ->
  W1 <> [] -> forallb is_space W1 = true ->
  forallb is_space u = true ->
  forallb is_space v = true -> mem LF v = false ->
  forallb is_space W2 = true ->
  W3 <> [] -> forallb is_space W3 = true ->
  ci_contains (text "\textbf{") post = false ->
  re_sub true chapter3_bold
    (text "\\chapter{Research Methodology}\n\\label{ch:methodology}")
    (pre ++ text "\textbf{Chapter" ++ W1 ++ text "3}" ++ u ++ [LF] ++ v
     ++ text "\textbf{3." ++ W2 ++ text "Research" ++ W3 ++ text "Methodology}" ++ post)
  = pre ++ text "\chapter{Research Methodology}" ++ [LF]
    ++ text "\label{ch:methodology}" ++ post.
Proof.
  intros Hpre HW1n HW1 Hu Hv Hn HW2 HW3n HW3 Hpost.
  destruct W1 as [|s1 W1]; [congruence|]. destruct W3 as [|s3 W3]; [congruence|].
  cbn [forallb] in HW1, HW3.
  apply andb_true_iff in HW1 as [Hs1 HW1]. apply andb_true_iff in HW3 as [Hs3 HW3].
  unfold re_sub.
  rewrite sub_loop_quiet
    by (apply (quiet_without_ci _ _ BOLD_OPEN);
        [apply chapter3_bold_needs|exact Hpre|reflexivity]).
  f_equal.
  destruct (chapter3_bold_match (rev pre ++ []) s1 W1 u v W2 s3 W3 post
              Hs1 HW1 Hu Hv Hn HW2 Hs3 HW3) as [b1 Hm].
  set (M := text "\textbf{Chapter" ++ s1 :: W1 ++ text "3}" ++ u ++ LF :: v
            ++ text "\textbf{3." ++ W2 ++ text "Research" ++ s3 :: W3
            ++ text "Methodology}").
  assert (EM : text "\textbf{Chapter" ++ (s1 :: W1) ++ text "3}" ++ u ++ [LF] ++ v
               ++ text "\textbf{3." ++ W2 ++ text "Research" ++ (s3 :: W3)
               ++ text "Methodology}" ++ post = M ++ post).
  { unfold M. repeat (rewrite <- app_assoc || rewrite <- app_comm_cons). reflexivity. }
  rewrite EM.
  assert (Hm' : match_at true chapter3_bold (rev pre ++ []) (M ++ post) = Some (b1, post, [])).
  { rewrite <- EM. repeat (rewrite <- app_assoc || rewrite <- app_comm_cons).
    cbn [app]. exact Hm. }
  rewrite (sub_loop_hit true _ _ None _ M post b1 [] eq_refl)
    by (first [exact Hm'|unfold M; destruct (text "\textbf{Chapter"); discriminate]).
  change (expand (text "\\chapter{Research Methodology}\n\\label{ch:methodology}") [])
    with (text "\chapter{Research Methodology}" ++ [LF] ++ text "\label{ch:methodology}").
  rewrite <- !app_assoc. do 3 f_equal.
  cbn [dec_limit].
  apply sub_loop_quiet_end.
  - apply (quiet_without_ci _ _ BOLD_OPEN);
      [apply chapter3_bold_needs|exact Hpost|exact I].
  - apply chapter3_bold_needs. reflexivity.
Qed.

(** *** Chapter 3, plain *)

(** A lazy star passes over characters at which the continuation fails. *)
Lemma star_lazy_skip p k res rest : forall y b,
  forallb p y = true ->
  (forall b' c a', In c y -> k b' (c :: a') = None) ->
  k (rev y ++ b) rest = Some res ->
  star_lazy p b (y ++ rest) k = Some res.
Proof.
  induction y as [|c y IH]; intros b Hy Hk Hr.
  - cbn [app rev] in *. destruct rest; cbn [star_lazy]; rewrite Hr; reflexivity.
  - cbn [forallb] in Hy. apply andb_true_iff in Hy as [Hc Hy].
    cbn [app star_lazy]. rewrite (Hk b c (y ++ rest) (or_introl eq_refl)), Hc.
    apply IH; [exact Hy| |].
    + intros b' d a' Hd. apply Hk. right. exact Hd.
    + cbn [rev] in Hr. rewrite <- app_assoc in Hr. exact Hr.
Qed.

Lemma rx_StarLazy ic cs r b a g k :
  rx ic (Seq (StarLazy cs) r) b a g k
  = star_lazy (in_cset ic cs) b a (fun b' a' => rx ic r b' a' g k).
Proof. reflexivity. Qed.

Lemma chapter3_plain_match b s1 W1 u y s3 W3 rest :
  is_space s1 = true -> forallb is_space W1 = true ->
  forallb is_space u = true ->
  mem LF y = false ->
  forallb (fun c => negb (ci_eq 82 c)) y = true ->
  is_space s3 = true -> forallb is_space W3 = true ->
  exists b1,
  match_at true chapter3_plain b
    (text "Chapter" ++ s1 :: W1 ++ 51 :: u ++ LF :: y ++ text "Research"
     ++ s3 :: W3 ++ text "Methodology" ++ rest)
  = Some (b1, rest, []).
Proof.
  intros Hs1 HW1 Hu Hn Hy Hs3 HW3.
  unfold match_at, chapter3_plain. cbn [Concat].
  rewrite rx_lit_same by reflexivity.
  rewrite rx_Plus, rx_class_step by (rewrite in_SPACES; exact Hs1).
  rewrite rx_spaces_then by (first [reflexivity|exact HW1]).
  pose proof (span_app is_space y) as Ey.
  pose proof (span_all is_space y) as Hv.
  set (v := (span is_space y).1) in *. set (x := (span is_space y).2) in *.
  assert (Hvn : mem LF v = false).
  { rewrite <- Ey, mem_app in Hn. apply orb_false_iff in Hn as [Hn _]. exact Hn. }
  assert (Hx : match x ++ text "Research" ++ s3 :: W3 ++ text "Methodology" ++ rest with
               | c :: _ => is_space c = false | [] => True end).
  { destruct x as [|c x'] eqn:Ex; [reflexivity|].
    apply (span_stop is_space y c x'). exact Ex. }
  rewrite <- Ey, <- app_assoc.
  eexists. apply rx_spaces_newline; [exact Hu|exact Hv|exact Hvn|exact Hx|].
  rewrite app_assoc, Ey.
  rewrite rx_StarLazy. apply star_lazy_skip; cbv beta.
  - clear -Hn. induction y as [|c y IH]; [reflexivity|].
    cbn [mem] in Hn. apply orb_false_iff in Hn as [Hc Hn].
    cbn [forallb in_cset]. rewrite N.eqb_sym, Hc. exact (IH Hn).
  - intros b' c a' Hc. apply (rx_lit_refuses 82 (text "esearch")).
    eapply forallb_forall in Hy; [|exact Hc]. apply negb_true_iff in Hy. exact Hy.
  - rewrite rx_lit_same by reflexivity.
    rewrite rx_Plus, rx_class_step by (rewrite in_SPACES; exact Hs3).
    rewrite rx_star_spaces; [|exact HW3|reflexivity|].
    2:{ intros b' c a' Hc. apply (rx_lit_refuses 77 (text "ethodology")).
        apply space_not_letter; [reflexivity|exact Hc]. }
    rewrite rx_lit_same by reflexivity.
    reflexivity.
Qed.

(** X24.  "Chapter", white space, "3", white space that ends in a newline,
    then on that line a text without the letter r and "Research
    Methodology" are replaced together by the chapter command of the
    methodology and its label; the text around them, which does not hold
    the word "chapter", is kept. *)
Theorem chapter3_plain_heading_rule (pre W1 u y W3 post : str) :
  ci_contains (text "Chapter") pre = false ->
  W1 <> [] -> forallb is_space W1 = true ->
  forallb is_space u = true ->
  mem LF y = false ->
  forallb (fun c => negb (ci_eq 82 c)) y = true ->
  W3 <> [] -> forallb is_space W3 = true ->
  ci_contains (text "Chapter") post = false ->
  re_sub true chapter3_plain
    (text "\\chapter{Research Methodology}\n\\label{ch:methodology}")
    (pre ++ text "Chapter" ++ W1 ++ text "3" ++ u ++ [LF] ++ y ++ text "Research"
     ++ W3 ++ text "Methodology" ++ post)
  = pre ++ text "\chapter{Research Methodology}" ++ [LF]
    ++ text "\label{ch:methodology}" ++ post.
Proof.
  intros Hpre HW1n HW1 Hu Hn Hy HW3n HW3 Hpost.
  destruct W1 as [|s1 W1]; [congruence|]. destruct W3 as [|s3 W3]; [congruence|].
  cbn [forallb] in HW1, HW3.
  apply andb_true_iff in HW1 as [Hs1 HW1]. apply andb_true_iff in HW3 as [Hs3 HW3].
  unfold re_sub.
  rewrite sub_loop_quiet
    by (apply (quiet_without_ci _ _ (text "Chapter"));
        [apply chapter3_plain_needs|exact Hpre|reflexivity]).
  f_equal.
  destruct (chapter3_plain_match (rev pre ++ []) s1 W1 u y s3 W3 post
              Hs1 HW1 Hu Hn Hy Hs3 HW3) as [b1 Hm].
  change (text "3") with [51].
  set (M := text "Chapter" ++ s1 :: W1 ++ 51 :: u ++ LF :: y ++ text "Research"
            ++ s3 :: W3 ++ text "Methodology").
  assert (EM : text "Chapter" ++ (s1 :: W1) ++ [51] ++ u ++ [LF] ++ y ++ text "Research"
               ++ (s3 :: W3) ++ text "Methodology" ++ post = M ++ post).
  { unfold M. repeat (rewrite <- app_assoc || rewrite <- app_comm_cons). reflexivity. }
  rewrite EM.
  assert (Hm' : match_at true chapter3_plain (rev pre ++ []) (M ++ post) = Some (b1, post, [])).
  { rewrite <- EM. repeat (rewrite <- app_assoc || rewrite <- app_comm_cons).
    cbn [app]. exact Hm. }
  rewrite (sub_loop_hit true _ _ None _ M post b1 [] eq_refl)
    by (first [exact Hm'|unfold M; destruct (text "Chapter"); discriminate]).
  change (expand (text "\\chapter{Research Methodology}\n\\label{ch:methodology}") [])
    with (text "\chapter{Research Methodology}" ++ [LF] ++ text "\label{ch:methodology}").
  rewrite <- !app_assoc. do 3 f_equal.
  cbn [dec_limit].
  apply sub_loop_quiet_end.
  - apply (quiet_without_ci _ _ (text "Chapter"));
      [apply chapter3_plain_needs|exact Hpost|exact I].
  - apply chapter3_plain_needs. reflexivity.
Qed.

(** ** The titles of the two lists, and the acronyms, through the three
    transformations *)

(** X25.  Every title of the two lists, alone in a bold command, comes out
    of the three transformations as its heading: the section command for
    the first list, the subsection command for the second, each followed
    by a newline and the label with the anchor of the title. *)
Theorem every_listed_title_promoted :
  Forall (fun t : string =>
            transform (text "\textbf{" ++ text t ++ text "}")
            = text "\section{" ++ text t ++ text "}" ++ [LF]
              ++ text "\label{sec:" ++ title_label (text t) ++ text "}")
         SECTION_PATTERNS
  /\ Forall (fun t : string =>
               transform (text "\textbf{" ++ text t ++ text "}")
               = text "\subsection{" ++ text t ++ text "}" ++ [LF]
                 ++ text "\label{subsec:" ++ title_label (text t) ++ text "}")
            SUBSECTION_PATTERNS.
Proof.
  split.
  - assert (H : forallb
                  (fun t : string =>
                     bool_decide
                       (transform (text "\textbf{" ++ text t ++ text "}")
                        = text "\section{" ++ text t ++ text "}" ++ [LF]
                          ++ text "\label{sec:" ++ title_label (text t) ++ text "}"))
                  SECTION_PATTERNS = true) by (vm_compute; reflexivity).
    rewrite forallb_forall in H. apply List.Forall_forall. intros t Ht.
    exact (bool_decide_eq_true_1 _ (H t Ht)).
  - assert (H : forallb
                  (fun t : string =>
                     bool_decide
                       (transform (text "\textbf{" ++ text t ++ text "}")
                        = text "\subsection{" ++ text t ++ text "}" ++ [LF]
                          ++ text "\label{subsec:" ++ title_label (text t) ++ text "}"))
                  SUBSECTION_PATTERNS = true) by (vm_compute; reflexivity).
    rewrite forallb_forall in H. apply List.Forall_forall. intros t Ht.
    exact (bool_decide_eq_true_1 _ (H t Ht)).
Qed.

(** X26.  The acronym folder runs before the heading reconstructor: a bold
    command around "Full Form (SHORT)", for any entry of the table, a
    title of the lists or not, comes out of the three transformations as
    the bold command around the tagged form, and no heading is made of
    it. *)
Theorem bold_introduction_not_promoted :
  Forall (fun e : string * string =>
            transform (text "\textbf{" ++ text e.2 ++ text " (" ++ text e.1 ++ text ")}")
            = text "\textbf{\ac{" ++ text e.1 ++ text "}}")
         ACRONYMS.
Proof.
  assert (H : forallb
                (fun e : string * string =>
                   bool_decide
                     (transform (text "\textbf{" ++ text e.2 ++ text " (" ++ text e.1
                                 ++ text ")}")
                      = text "\textbf{\ac{" ++ text e.1 ++ text "}}"))
                ACRONYMS = true) by (vm_compute; reflexivity).
  rewrite forallb_forall in H. apply List.Forall_forall. intros e He.
  exact (bool_decide_eq_true_1 _ (H e He)).
Qed.

(** ** The header of a chapter file *)

Lemma split_lines_first : forall l rest,
  mem LF l = false -> split_lines (l ++ LF :: rest) = l :: split_lines rest.
Proof.
  induction l as [|c l IH]; intros rest H.
  - reflexivity.
  - cbn [mem] in H. apply orb_false_iff in H as [H1 H2].
    cbn [app split_lines]. rewrite N.eqb_sym, H1, (IH rest H2). reflexivity.
Qed.

Lemma text_append (a b : string) : text (a +:+ b) = text a ++ text b.
Proof.
  unfold text. induction a as [|c a IH]; [reflexivity|].
  change (String c a +:+ b) with (String c (a +:+ b)).
  cbn [list_ascii_of_string map app]. f_equal. exact IH.
Qed.

Lemma decimal_no_newline (n : nat) : mem LF (text (decimal n)) = false.
Proof. unfold decimal. induction (Nat.to_uint n); cbn; assumption || reflexivity. Qed.

Lemma first_line_no_newline (n : nat) :
  mem LF (text (file (default (default_config n) (CHAPTERS !! n)))
          ++ text " -- Chapter " ++ text (decimal n) ++ text ": "
          ++ text (title (default (default_config n) (CHAPTERS !! n)))) = false.
Proof.
  pose proof (decimal_no_newline n) as Hd.
  destruct (CHAPTERS !! n) as [cfg|] eqn:E.
  - cbn [default id]. rewrite !mem_app, Hd.
    destruct (registry_cases _ _ E) as [(_ & F & T)|[(_ & F & T)|(_ & F & T)]];
      rewrite F, T; reflexivity.
  - change (default (default_config n) None) with (default_config n).
    unfold default_config. cbn [file title].
    rewrite !text_append, !mem_app, Hd. reflexivity.
Qed.

(** X27.  A chapter file is four comment lines, an empty line, and then
    the chapter text line by line, for every chapter number, in the
    registry or not, when the clock reading holds no newline. *)
Theorem header_is_five_lines (now : str) (n : nat) (content : str) :
  mem LF now = false ->
  exists first_line,
    split_lines (create_chapter_file now n content)
    = [ text "% " ++ first_line;
        text "%";
        text "% Natural Rubber Latex Thesis";
        text "% Auto-generated from Word document - " ++ now;
        [] ]
      ++ split_lines content.
Proof.
  intros Hnow.
  set (cfg := default (default_config n) (CHAPTERS !! n)).
  set (FL := text (file cfg) ++ text " -- Chapter " ++ text (decimal n) ++ text ": "
             ++ text (title cfg)).
  exists FL.
  assert (E : create_chapter_file now n content
              = (text "% " ++ FL) ++ LF :: text "%" ++ LF
                :: text "% Natural Rubber Latex Thesis" ++ LF
                :: (text "% Auto-generated from Word document - " ++ now) ++ LF
                :: [] ++ LF :: content).
  { unfold create_chapter_file, chapter_header, FL. cbv zeta. fold cfg.
    repeat rewrite <- app_assoc. reflexivity. }
  rewrite E.
  rewrite (split_lines_first (text "% " ++ FL))
    by (rewrite mem_app; unfold FL, cfg; rewrite first_line_no_newline; reflexivity).
  rewrite (split_lines_first (text "%")) by reflexivity.
  rewrite (split_lines_first (text "% Natural Rubber Latex Thesis")) by reflexivity.
  rewrite (split_lines_first (text "% Auto-generated from Word document - " ++ now))
    by (rewrite mem_app, Hnow; reflexivity).
  rewrite (split_lines_first []) by reflexivity.
  reflexivity.
Qed.

End WordToLatex.

(** * The claims on sample inputs *)

(** C1, as stated, fails: the header carries the time of the run, so a
    second run an hour later writes another chapter1.tex. *)
Lemma second_run_later_differs :
  files (process_and_save ascii_tables clock_11h two_chapters
           (process_and_save ascii_tables clock_10h two_chapters empty_world))
    !! "chapter1.tex"%string
  <> files (process_and_save ascii_tables clock_10h two_chapters empty_world)
       !! "chapter1.tex"%string.
Proof. vm_compute. discriminate. Qed.

(** The amended C1 on the two-chapter sample, both runs within the same
    second. *)
Lemma second_run_same_output_witness :
  let w1 := process_and_save ascii_tables clock_10h two_chapters empty_world in
  let w2 := process_and_save ascii_tables clock_10h two_chapters w1 in
  files w1 !! "chapter1.tex"%string
  = Some (create_chapter_file (clock_10h 1%nat) 1
            (text "\chapter{Literature Review} Rubber."))
  /\ files w2 !! "chapter1.tex"%string
     = Some (create_chapter_file (clock_10h 1%nat) 1
               (text "\chapter{Literature Review} Rubber."))
  /\ files w2 !! "chapter1.tex.bak"%string
     = Some (read_text (create_chapter_file (clock_10h 1%nat) 1
                          (text "\chapter{Literature Review} Rubber.")))
  /\ (mem CR (clock_10h 1%nat) = false ->
      mem CR (text "\chapter{Literature Review} Rubber.") = false ->
      files w2 !! "chapter1.tex.bak"%string = files w1 !! "chapter1.tex"%string)
  /\ (clock_10h 1%nat = clock_10h 1%nat ->
      files w2 !! "chapter1.tex"%string = files w1 !! "chapter1.tex"%string).
Proof.
  apply (second_run_same_output ascii_tables clock_10h clock_10h two_chapters
           empty_world 1 (text "\chapter{Literature Review} Rubber.") INTRODUCTION).
  - vm_compute. apply list_elem_of_here.
  - apply registry_1.
Defined.

(** C5, as stated, fails: the first entry stops before the blank that
    precedes the second marker. *)
Lemma split_strips_entries : ~ entries_are_slices ascii_tables two_chapters.
Proof.
  intros H.
  specialize (H {| m_start := 8; m_end := 35; m_groups := [(1%nat, text "Literature Review")] |}
                {| m_start := 44; m_end := 61; m_groups := [(1%nat, text "Methods")] |}).
  assert (E : re_finditer ascii_tables chapter_pattern two_chapters
              = [{| m_start := 8; m_end := 35;
                    m_groups := [(1%nat, text "Literature Review")] |};
                 {| m_start := 44; m_end := 61;
                    m_groups := [(1%nat, text "Methods")] |}])
    by (vm_compute; reflexivity).
  specialize (H E).
  vm_compute in H. discriminate.
Qed.

(** The amended C5 on the two-chapter sample. *)
Lemma split_two_markers_witness :
  (split_into_chapters ascii_tables two_chapters).1
  = [(1%nat, text "\chapter{Literature Review} Rubber.");
     (2%nat, text "\chapter{Methods} Tests.")].
Proof.
  apply (split_two_markers ascii_tables (text "Preface ")
           (text "Literature Review") (text " Rubber. ")
           (text "Methods") (text " Tests. ")).
  - reflexivity.
  - split; reflexivity.
  - split; reflexivity.
Defined.

(** A chapters directory whose first chapter was saved with carriage
    returns: one before a line feed, one alone. *)
Definition dos_world : world :=
  {| files := <["chapter1.tex"%string := text "old" ++ [CR; LF] ++ text "text" ++ [CR]]> ∅;
     printed := [] |}.

(** C9 on the sample without a heading, over a first chapter with carriage
    returns: the backup holds line feeds in their place. *)
Lemma unsplit_buffer_is_chapter1_witness :
  split_into_chapters ascii_tables (transform ascii_tables no_heading)
  = ([(1%nat, transform ascii_tables no_heading)], [WarnNoChapter])
  /\ process_and_save ascii_tables clock_10h no_heading dos_world
     = {| files :=
            <["chapter1.tex"%string :=
                chapter_header (clock_10h 1%nat) 1 INTRODUCTION
                ++ transform ascii_tables no_heading]>
              (<["chapter1.tex.bak"%string := text "old" ++ [LF] ++ text "text" ++ [LF]]>
                 (files dos_world));
          printed := [WarnNoChapter; OkSaved "chapter1.tex"] |}.
Proof.
  apply (unsplit_buffer_is_chapter1 ascii_tables clock_10h no_heading dos_world).
  reflexivity.
Defined.

(** C10 on the two-chapter sample: the chapter titled "Literature Review"
    comes first and lands in chapter1.tex under the title "Introduction". *)
Lemma chapter_number_is_position_witness :
  (forall i t body,
     [(text "Literature Review", text " Rubber. "); (text "Methods", text " Tests. ")]
       !! i = Some (t, body) ->
     (split_into_chapters ascii_tables (transform ascii_tables two_chapters)).1 !! i
     = Some (S i, marker t ++ rstrip body))
  /\ (forall t body chs',
        [(text "Literature Review", text " Rubber. "); (text "Methods", text " Tests. ")]
        = (t, body) :: chs' ->
        files (process_and_save ascii_tables clock_10h two_chapters empty_world)
          !! "chapter1.tex"%string
        = Some (text "% chapter1.tex -- Chapter 1: Introduction" ++ [LF]
                ++ text "%" ++ [LF]
                ++ text "% Natural Rubber Latex Thesis" ++ [LF]
                ++ text "% Auto-generated from Word document - " ++ clock_10h 1%nat
                ++ [LF; LF] ++ marker t ++ rstrip body)).
Proof.
  apply (chapter_number_is_position ascii_tables clock_10h two_chapters empty_world
           (text "Preface ")
           [(text "Literature Review", text " Rubber. ");
            (text "Methods", text " Tests. ")]).
  - vm_compute. reflexivity.
  - reflexivity.
  - repeat constructor.
Defined.

(** C2: the code loses what it means to keep.  The normalizer turns the
    quoted word "hi" into two backquotes, a backslash, the digit 1 and two
    apostrophes. *)
Lemma quoted_hi_loses_content :
  fix_special_characters ascii_tables (DQUOTE :: text "hi" ++ [DQUOTE]) = text "``\1''".
Proof. vm_compute. reflexivity. Qed.

(** C6, as stated, fails: a top-level heading is there, and the chapter
    heading is inserted all the same. *)
Lemma introduction_inserted_after_heading :
  re_finditer ascii_tables chapter_pattern
    (text "\chapter{Overview} Background and Significance")
  = [{| m_start := 0; m_end := 18; m_groups := [(1%nat, text "Overview")] |}]
  /\ insert_introduction ascii_tables (text "\chapter{Overview} Background and Significance")
     = text "\chapter{Overview} \chapter{Introduction}" ++ [LF]
       ++ text "\label{ch:introduction}" ++ [LF; LF]
       ++ text "\section{Background and Significance}" ++ [LF]
       ++ text "\label{sec:background-and-significance}".
Proof. split; vm_compute; reflexivity. Qed.

(** The amended C6 on a text with the marker twice. *)
Lemma introduction_inserted_once_witness :
  insert_introduction ascii_tables
    (text "Abstract. " ++ FIRST_SECTION ++ text " of Background and Significance")
  = text "Abstract. " ++ text "\chapter{Introduction}" ++ [LF]
    ++ text "\label{ch:introduction}" ++ [LF; LF]
    ++ text "\section{Background and Significance}" ++ [LF]
    ++ text "\label{sec:background-and-significance}"
    ++ text " of Background and Significance"
  /\ (contains (text "\chapter{Introduction}") (text "\chapter{Introduction} x") = true ->
      insert_introduction ascii_tables (text "\chapter{Introduction} x")
      = text "\chapter{Introduction} x")
  /\ (contains FIRST_SECTION (text "\chapter{Introduction} x") = false ->
      insert_introduction ascii_tables (text "\chapter{Introduction} x")
      = text "\chapter{Introduction} x").
Proof.
  apply (introduction_inserted_once ascii_tables (text "Abstract. ")
           (text " of Background and Significance") (text "\chapter{Introduction} x"));
    reflexivity.
Defined.

(** C7, as stated, fails: the bold marker of "Colloids" stands inside
    another bold title of the list, and the rule of that title, which
    comes later in the loop, takes the section command away again. *)
Lemma colloids_swallowed :
  contains (text "\textbf{Colloids}")
    (text "\textbf{Additive Manufacturing of \textbf{Colloids}}") = true
  /\ fold_left (promote_section ascii_tables) SECTION_PATTERNS
       (text "\textbf{Additive Manufacturing of \textbf{Colloids}}")
     = text "\section{Additive Manufacturing}" ++ [LF]
       ++ text "\label{sec:additive-manufacturing}" ++ [LF]
       ++ text "\label{sec:colloids}}"
  /\ contains (text "\section{Colloids}")
       (fix_headings ascii_tables
          (text "\textbf{Additive Manufacturing of \textbf{Colloids}}")) = false.
Proof. repeat split; vm_compute; reflexivity. Qed.

(** The amended C7 on a text with another bold command after the marker. *)
Lemma colloids_promoted_witness :
  exists rest,
    fold_left (promote_section ascii_tables) SECTION_PATTERNS
      (text "See " ++ text "\textbf{Colloids" ++ text " and gels"
       ++ 125 :: text " are stable. \textbf{Note} the pH.")
    = fold_left (promote_section ascii_tables) SECTION_PATTERNS (text "See ")
      ++ (text "\section{Colloids}" ++ [LF] ++ text "\label{sec:colloids}") ++ rest
    /\ (title_opens (text " and gels") = false ->
        rest = fold_left (promote_section ascii_tables) SECTION_PATTERNS
                 (text " are stable. \textbf{Note} the pH.")).
Proof.
  apply (colloids_promoted ascii_tables (text "See ") (text " and gels")
           (text " are stable. \textbf{Note} the pH.")); reflexivity.
Defined.

(** The same text, and one with a listed bold title before the marker and
    an unlisted one around it, computed. *)
Lemma colloids_promoted_beside_bold :
  fold_left (promote_section ascii_tables) SECTION_PATTERNS
    (text "See \textbf{Colloids and gels} are stable. \textbf{Note} the pH.")
  = text "See \section{Colloids}" ++ [LF]
    ++ text "\label{sec:colloids} are stable. \textbf{Note} the pH."
  /\ fold_left (promote_section ascii_tables) SECTION_PATTERNS
       (text "\textbf{Additive Manufacturing} \textbf{Note on \textbf{Colloids}}")
     = text "\section{Additive Manufacturing}" ++ [LF]
       ++ text "\label{sec:additive-manufacturing} \textbf{Note on \section{Colloids}"
       ++ [LF] ++ text "\label{sec:colloids}}".
Proof. split; vm_compute; reflexivity. Qed.

(** C3, as stated, fails in its second half: the bare "NRL" that comes
    before the full form is replaced too. *)
Lemma earlier_bare_nrl_replaced :
  replace_acronyms ascii_tables
    (text "NRL gloves. Natural Rubber Latex (NRL) is elastic.")
  = text "\ac{NRL} gloves. \ac{NRL} is elastic.".
Proof. vm_compute. reflexivity. Qed.

(** The amended C3 on two sentences with a parenthesis of their own. *)
Lemma nrl_folded_in_any_order_witness :
  (exists a' b' c',
     replace_acronyms ascii_tables
       (text "Use " ++ text "Natural Rubber Latex (NRL)"
        ++ text " is elastic (see Fig. 2). " ++ text "NRL" ++ text " gloves.")
     = a' ++ text "\ac{NRL}" ++ b' ++ text "\ac{NRL}" ++ c'
     /\ folded (text "Use ") a'
     /\ folded (text " is elastic (see Fig. 2). ") b'
     /\ folded (text " gloves.") c')
  /\ (exists a' b' c',
        replace_acronyms ascii_tables
          (text "Use " ++ text "NRL" ++ text " is elastic (see Fig. 2). "
           ++ text "Natural Rubber Latex (NRL)" ++ text " gloves.")
        = a' ++ text "\ac{NRL}" ++ b' ++ text "\ac{NRL}" ++ c'
        /\ folded (text "Use ") a'
        /\ folded (text " is elastic (see Fig. 2). ") b'
        /\ folded (text " gloves.") c')
  /\ acronym_free (text " is elastic (see Fig. 2). ") = true.
Proof.
  destruct (nrl_folded_in_any_order ascii_tables (text "Use ")
              (text " is elastic (see Fig. 2). ") (text " gloves."))
    as (Hafter & Hbefore & _ & _).
  split; [|split].
  - apply Hafter; vm_compute; reflexivity.
  - apply Hbefore; vm_compute; reflexivity.
  - vm_compute. reflexivity.
Defined.

(** The same two sentences, and one in which another acronym is folded
    beside NRL, computed. *)
Lemma nrl_folded_beside_parentheses :
  replace_acronyms ascii_tables
    (text "Use Natural Rubber Latex (NRL) is elastic (see Fig. 2). NRL gloves.")
  = text "Use \ac{NRL} is elastic (see Fig. 2). \ac{NRL} gloves."
  /\ replace_acronyms ascii_tables
       (text "NRL gloves (see Fig. 2) of Natural Rubber Latex (NRL).")
     = text "\ac{NRL} gloves (see Fig. 2) of \ac{NRL}."
  /\ replace_acronyms ascii_tables
       (text "Ultraviolet (UV) light cures Natural Rubber Latex (NRL); UV and NRL.")
     = text "\ac{UV} light cures \ac{NRL}; \ac{UV} and \ac{NRL}.".
Proof. repeat split; vm_compute; reflexivity. Qed.

(** C4: the code does not escape every bare ampersand.  Nothing in "&%"
    is escaped; the percent pass puts a backslash before the percent sign,
    and the ampersand rule, which by its comment escapes an ampersand "if
    not already" escaped, then takes that backslash after the ampersand
    for a sign that it is: the ampersand comes out bare. *)
Lemma ampersand_before_percent_left_bare :
  mem BACKSLASH (text "&%") = false
  /\ fix_special_characters ascii_tables (text "&%") = text "&\%".
Proof. split; vm_compute; reflexivity. Qed.

(** * Further properties on sample inputs *)

(** X5 on a sentence. *)
Lemma normalizer_keeps_prose_witness :
  fix_special_characters ascii_tables (text "Latex cures at 60 C in 2 hours.")
  = text "Latex cures at 60 C in 2 hours.".
Proof.
  apply (normalizer_keeps_prose ascii_tables (text "Latex cures at 60 C in 2 hours."));
    reflexivity.
Defined.

(** X6 on a sentence with two short forms of the table. *)
Lemma acronyms_need_introduction_witness :
  replace_acronyms ascii_tables (text "NRL gloves and SBR tyres.")
  = text "NRL gloves and SBR tyres.".
Proof.
  apply (acronyms_need_introduction ascii_tables (text "NRL gloves and SBR tyres.")).
  reflexivity.
Defined.

(** X9 on a title of the section list. *)
Lemma anchor_of_plain_title_witness :
  title_label ascii_tables (text "Sourcing, Traceability, and Rationale")
  = text "sourcing-traceability-and-rationale".
Proof.
  apply (anchor_of_plain_title ascii_tables (text "Sourcing, Traceability, and Rationale")).
  reflexivity.
Defined.

(** X10 on a sentence with commands, none of them a heading. *)
Lemma headings_need_a_trigger_witness :
  fix_headings ascii_tables (text "Latex (\ac{NRL}) cures at 60\% humidity.")
  = text "Latex (\ac{NRL}) cures at 60\% humidity.".
Proof.
  apply (headings_need_a_trigger ascii_tables
           (text "Latex (\ac{NRL}) cures at 60\% humidity.")); reflexivity.
Defined.

(** X11 on an indented bold line. *)
Lemma bold_line_rule_witness :
  fix_line ascii_tables (text "  \textbf{Sample Handling}")
  = [text "\subsection*{Sample Handling}"; text "\label{subsec:sample-handling}"].
Proof.
  apply (bold_line_rule ascii_tables (text "  \textbf{Sample Handling}")
           (text "Sample Handling")).
  - reflexivity.
  - discriminate.
  - reflexivity.
Defined.

(** X12 on a buffer with a frontmatter of seven characters between
    blanks. *)
Lemma frontmatter_reported_unless_blank_witness :
  (split_into_chapters ascii_tables
     (text " Preface " ++ chapters_text [(text "One", text " a "); (text "Two", text " b")])).2
  = [InfoFrontmatter 7].
Proof.
  apply (frontmatter_reported_unless_blank ascii_tables (text " Preface ")
           [(text "One", text " a "); (text "Two", text " b")]).
  - reflexivity.
  - repeat constructor.
  - discriminate.
Defined.

(** X13 on the second chapter of the two-chapter sample. *)
Lemma split_entries_open_with_chapter_witness :
  is_prefix (text "\chapter{") (text "\chapter{Methods} Tests.") = true
  /\ strip (text "\chapter{Methods} Tests.") = text "\chapter{Methods} Tests.".
Proof.
  apply (split_entries_open_with_chapter ascii_tables two_chapters 2
           (text "\chapter{Methods} Tests.")).
  - vm_compute. discriminate.
  - vm_compute. right. left. reflexivity.
Defined.

(** A chapters directory with a bibliography and an older first chapter. *)
Definition used_world : world :=
  {| files := <["references.bib"%string := text "@book{treloar}"]>
                (<["chapter1.tex"%string := text "old text"]> ∅);
     printed := [] |}.

(** X14: the bibliography is not touched. *)
Lemma only_chapter_files_written_witness :
  files (process_and_save ascii_tables clock_10h two_chapters used_world)
    !! "references.bib"%string
  = files used_world !! "references.bib"%string.
Proof.
  apply (only_chapter_files_written ascii_tables clock_10h two_chapters used_world
           "references.bib").
  intros [H|[H|[H|[H|[H|[H|[]]]]]]]; discriminate H.
Defined.

(** X15: the sample has two chapters, the third file is not written. *)
Lemma missing_chapter_left_as_it_was_witness :
  files (process_and_save ascii_tables clock_10h two_chapters used_world)
    !! "chapter3.tex"%string
  = files used_world !! "chapter3.tex"%string
  /\ files (process_and_save ascii_tables clock_10h two_chapters used_world)
       !! with_suffix "chapter3.tex" ".tex.bak"
     = files used_world !! with_suffix "chapter3.tex" ".tex.bak".
Proof.
  apply (missing_chapter_left_as_it_was ascii_tables clock_10h two_chapters used_world 3
           {| title := "Research Methodology"; label := "ch:methodology";
              file := "chapter3.tex" |}).
  - apply registry_3.
  - vm_compute. lia.
Defined.


(** X18 on a sentence. *)
Lemma prose_passes_unchanged_witness :
  transform ascii_tables (text "Rubber is elastic.") = text "Rubber is elastic."
  /\ split_into_chapters ascii_tables (transform ascii_tables (text "Rubber is elastic."))
     = ([(1%nat, text "Rubber is elastic.")], [WarnNoChapter]).
Proof.
  apply (prose_passes_unchanged ascii_tables (text "Rubber is elastic.")); reflexivity.
Defined.

(** X19 on a line with three percent signs and three ampersands. *)
Lemma percent_and_ampersand_escaped_witness :
  fix_special_characters ascii_tables (text "5% of A&B, 7%&, R&%")
  = text "5\% of A\&B, 7\%\&, R&\%".
Proof.
  apply (percent_and_ampersand_escaped ascii_tables (text "5% of A&B, 7%&, R&%"));
    reflexivity.
Defined.

(** X20 on a wrapped subsection with text after it. *)
Lemma hypertarget_line_unwrapped_witness :
  fix_line ascii_tables
    (text "\hypertarget{prep}{% \subsection{Sample Prep: A}\label{prep}} and more")
  = [text "\subsection{Sample Prep: A}"; text "\label{sec:sample-prep-a}"].
Proof.
  apply (hypertarget_line_unwrapped ascii_tables
           (text "\hypertarget{prep}{% \subsection{Sample Prep: A}\label{prep}} and more")
           (text "prep") (text " ") (text "Sample Prep: A") (text "\label{prep")
           (text "} and more") true "subsection").
  - right. right. left. reflexivity.
  - vm_compute. reflexivity.
  - reflexivity.
  - reflexivity.
  - reflexivity.
  - reflexivity.
Defined.

(** X21 on the two lines of a wrapped section. *)
Lemma wrapper_over_two_lines_kept_witness :
  fix_line ascii_tables (text "\hypertarget{intro}{%") = [text "\hypertarget{intro}{%"]
  /\ fix_line ascii_tables (text "\section{Intro}\label{intro}}")
     = [text "\section{Intro}\label{intro}}"].
Proof.
  apply (wrapper_over_two_lines_kept ascii_tables (text "\hypertarget{intro}{%")
           (text "\section{Intro}\label{intro}}") (text "intro")
           (text "{Intro}\label{intro}}") "section").
  - vm_compute. reflexivity.
  - reflexivity.
  - right. left. reflexivity.
  - vm_compute. reflexivity.
Defined.

(** X22 on a heading over two lines. *)
Lemma chapter2_heading_rule_witness :
  re_sub ascii_tables true chapter2_plain
    (text "\\chapter{Literature Review}\n\\label{ch:literature-review}")
    (text "Intro. " ++ text "Chapter" ++ text " " ++ text "2" ++ text " " ++ [LF]
     ++ text "  " ++ text "Literature" ++ text " " ++ text "review" ++ text " begins.")
  = text "Intro. " ++ text "\chapter{Literature Review}" ++ [LF]
    ++ text "\label{ch:literature-review}" ++ text " begins.".
Proof.
  apply (chapter2_heading_rule ascii_tables (text "Intro. ") (text " ") (text " ")
           (text "  ") (text " ") (text " begins."));
    first [reflexivity|discriminate].
Defined.

(** X23 on two bold lines. *)
Lemma chapter3_bold_heading_rule_witness :
  re_sub ascii_tables true chapter3_bold
    (text "\\chapter{Research Methodology}\n\\label{ch:methodology}")
    (text "End. " ++ text "\textbf{Chapter" ++ text " " ++ text "3}" ++ [] ++ [LF] ++ []
     ++ text "\textbf{3." ++ text " " ++ text "Research" ++ text " "
     ++ text "Methodology}" ++ text " Next.")
  = text "End. " ++ text "\chapter{Research Methodology}" ++ [LF]
    ++ text "\label{ch:methodology}" ++ text " Next.".
Proof.
  apply (chapter3_bold_heading_rule ascii_tables (text "End. ") (text " ") [] []
           (text " ") (text " ") (text " Next."));
    first [reflexivity|discriminate].
Defined.

(** X24 on two plain lines. *)
Lemma chapter3_plain_heading_rule_witness :
  re_sub ascii_tables true chapter3_plain
    (text "\\chapter{Research Methodology}\n\\label{ch:methodology}")
    (text "End. " ++ text "Chapter" ++ text " " ++ text "3" ++ [] ++ [LF] ++ text "3. "
     ++ text "Research" ++ text " " ++ text "Methodology" ++ text " Next.")
  = text "End. " ++ text "\chapter{Research Methodology}" ++ [LF]
    ++ text "\label{ch:methodology}" ++ text " Next.".
Proof.
  apply (chapter3_plain_heading_rule ascii_tables (text "End. ") (text " ") []
           (text "3. ") (text " ") (text " Next."));
    first [reflexivity|discriminate].
Defined.

(** X27 on a chapter number outside the registry. *)
Lemma header_is_five_lines_witness :
  exists first_line,
    split_lines (create_chapter_file (text "2024-01-01 10:00:00") 7
                   (text "\chapter{Outlook}" ++ [LF] ++ text "More work."))
    = [ text "% " ++ first_line;
        text "%";
        text "% Natural Rubber Latex Thesis";
        text "% Auto-generated from Word document - " ++ text "2024-01-01 10:00:00";
        [] ]
      ++ split_lines (text "\chapter{Outlook}" ++ [LF] ++ text "More work.").
Proof.
  apply (header_is_five_lines (text "2024-01-01 10:00:00") 7
           (text "\chapter{Outlook}" ++ [LF] ++ text "More work.")).
  reflexivity.
Defined.
